(** * Deity-js: the ledger, the mood engine and the tick orchestrator

    A shallow embedding of [ledger.js], [mood.js], [supplicant.js] and
    [deity.js], and the properties the specification states about them.

    Conventions of the embedding.
    - A JavaScript number is a real number ([R]): the arithmetic of the
      source is read over the reals, without rounding, overflow, underflow,
      NaN or signed zero.  [Math.pow] is [Rpower], [Math.sin] is [sin].
      The one division that the source does not guard is the division by
      the half-life in [_weight]; the statements about weights assume a
      half-life other than 0.
      Where overflow or rounding decides a statement, the arithmetic is
      given once more in double precision (module [Double]), and the
      statement is made there.
    - Tick counters are integers ([Z]); [Infinity], which only
      [ticksSinceLast] produces, is a constructor of [Ticks].  The neglect
      threshold, which the constructor stores as it is given and [tick]
      only compares with, is a [Number]: a real, [Infinity], [-Infinity]
      or [NaN].
    - A callback is an identifier, and [_emit] lists the calls it makes;
      what a callback does when it is called is not modelled.
    - An object used as a map (favor map, thresholds, listeners, frequency
      table) is a [gmap] with string keys; object spread is the left-biased
      union with the later operand on the left.
    - A metadata bag is a record of optional fields, one per key that the
      repository reads or writes; a key is absent ([None]) or holds a value
      of its type.
    - Methods that mutate [this] take the object and return the new one;
      the one method that throws, [on], returns a [Result]. *)

From stdpp Require Import base option list strings gmap sorting.
From Stdlib Require Import ZArith Reals Lra Lia.
From Stdlib Require SpecFloat.

Local Open Scope Z_scope.
Local Open Scope R_scope.

(* ------------------------------------------------------------------ *)
(** ** JavaScript operators on numbers *)

Module Js.

(** [x < y] and [x > y] as booleans. *)
Definition ltb (x y : R) : bool := if Rlt_dec x y then true else false.
Definition gtb (x y : R) : bool := ltb y x.

(** [x === 0] for a number. *)
Definition is_zero (x : R) : bool := if Req_dec_T x 0 then true else false.

(** [x || 0] for a number: [0] is the one falsy real. *)
Definition or0 (x : R) : R := if is_zero x then 0 else x.

(** [Math.max(0, Math.min(1, x))]. *)
Definition clamp01 (x : R) : R := Rmax 0 (Rmin 1 x).

(** [a ?? b]. *)
Definition nullish {A} (a : option A) (b : A) : A :=
  match a with Some x => x | None => b end.

(** Truthiness of a string, of an optional string and of an optional
    boolean: the empty string, [undefined] and [false] are falsy. *)
Definition truthy_str (s : string) : bool := negb (String.eqb s "").
Definition truthy_ostr (s : option string) : bool :=
  match s with Some x => truthy_str x | None => false end.
Definition truthy_obool (b : option bool) : bool :=
  match b with Some x => x | None => false end.

(** [a || b] on optional strings, and [a || ''] at the end of a chain. *)
Definition or_ostr (a b : option string) : option string :=
  if truthy_ostr a then a else b.
Definition or_empty (a : option string) : string :=
  if truthy_ostr a then nullish a "" else "".

(** [arr.slice(start)]: a negative [start] counts from the end, and
    [-0] is [0]. *)
Definition slice_from {A} (start : Z) (arr : list A) : list A :=
  let len := Z.of_nat (length arr) in
  let k := if (start <? 0)%Z then Z.max (len + start) 0 else Z.min start len in
  drop (Z.to_nat k) arr.

(** [new Set(xs).size]. *)
Definition set_size (xs : list string) : nat := length (remove_dups xs).

End Js.

(* ------------------------------------------------------------------ *)
(** ** Mood dimensions and vectors *)

Inductive Dim := wrath | serenity | hunger | amusement | sorrow | chaos.

#[global] Instance Dim_eq_dec : EqDecision Dim.
Proof. solve_decision. Defined.

Definition DIMENSIONS : list Dim :=
  [wrath; serenity; hunger; amusement; sorrow; chaos].

(** [DIMENSIONS.indexOf(d)]. *)
Definition index_of (d : Dim) : nat :=
  match d with
  | wrath => 0 | serenity => 1 | hunger => 2
  | amusement => 3 | sorrow => 4 | chaos => 5
  end.

(** An object with exactly the six dimension keys. *)
Record Vec := mkVec {
  v_wrath : R; v_serenity : R; v_hunger : R;
  v_amusement : R; v_sorrow : R; v_chaos : R
}.

Definition get (v : Vec) (d : Dim) : R :=
  match d with
  | wrath => v_wrath v | serenity => v_serenity v | hunger => v_hunger v
  | amusement => v_amusement v | sorrow => v_sorrow v | chaos => v_chaos v
  end.

(** [for (const d of DIMENSIONS) out[d] = f(d)]. *)
Definition tabulate (f : Dim -> R) : Vec :=
  mkVec (f wrath) (f serenity) (f hunger) (f amusement) (f sorrow) (f chaos).

(** [v[d] += x]. *)
Definition bump (d : Dim) (x : R) (v : Vec) : Vec :=
  tabulate (fun d' => if decide (d' = d) then get v d' + x else get v d').

(** [DIMENSIONS.reduce((s, d) => s + f(d), 0)]. *)
Definition sum_dims (f : Dim -> R) : R :=
  fold_left (fun s d => s + f d) DIMENSIONS 0.

(* ------------------------------------------------------------------ *)
(** ** Ledger entries *)

(** The metadata bag of an entry. *)
Record Meta := mkMeta {
  offeringType : option string;
  value : option R;
  effectiveValue : option R;
  alignment : option string;
  synthetic : option bool;
  reason : option string;
  desecrationType : option string;
  actionType : option string;
  magnitude : option R;
  favor : option R;
  target : option string
}.

(** [{}]. *)
Definition no_meta : Meta :=
  mkMeta None None None None None None None None None None None.

(** [{ ...base, ...over }]: a key of [over] wins over the same key of
    [base]. *)
Definition spread (base over : Meta) : Meta :=
  let pick {A} (f : Meta -> option A) : option A :=
    match f over with Some x => Some x | None => f base end in
  mkMeta (pick offeringType) (pick value) (pick effectiveValue)
         (pick alignment) (pick synthetic) (pick reason)
         (pick desecrationType) (pick actionType) (pick magnitude)
         (pick favor) (pick target).

Record Entry := mkEntry { type : string; tick : Z; meta : Meta }.

(** The result of [ticksSinceLast]. *)
Inductive Ticks := Finite (n : Z) | Infinity.

(** [Math.min] on tick distances. *)
Definition ticks_min (a b : Ticks) : Ticks :=
  match a, b with
  | Finite x, Finite y => Finite (Z.min x y)
  | Finite x, Infinity => Finite x
  | Infinity, y => y
  end.

(** A number that the code stores as it is given and only compares with:
    besides the real numbers it may be [Infinity], [-Infinity] or [NaN]. *)
Inductive Number := Num (x : R) | PlusInfinity | MinusInfinity | NotANumber.

(** [t > x] for a tick distance [t] and a number [x]: nothing is greater
    than [Infinity] or than [NaN], everything here is greater than
    [-Infinity]. *)
Definition ticks_gtb (t : Ticks) (x : Number) : bool :=
  match x with
  | Num x => match t with Finite n => Js.gtb (IZR n) x | Infinity => true end
  | PlusInfinity => false
  | MinusInfinity => true
  | NotANumber => false
  end.

(** [Math.min(t / 20, 1)] for a tick distance [t]. *)
Definition ticks_factor (t : Ticks) : R :=
  match t with Finite n => Rmin (IZR n / 20) 1 | Infinity => 1 end.

(* ------------------------------------------------------------------ *)
(** ** class Ledger *)

Module Ledger.

Definition DEFAULT_HALF_LIFE : R := 100.

Record t := mk { _halfLife : R; _entries : list Entry; _tick : Z }.

(** [new Ledger({ decayHalfLife })]. *)
Definition new (decayHalfLife : option R) : t :=
  mk (Js.nullish decayHalfLife DEFAULT_HALF_LIFE) [] 0%Z.

Definition size (l : t) : nat := length (_entries l).

Definition record (ty : string) (m : Meta) (l : t) : t :=
  mk (_halfLife l) (_entries l ++ [mkEntry ty (_tick l) m]) (_tick l).

Definition advanceTick (n : Z) (l : t) : t :=
  mk (_halfLife l) (_entries l) (_tick l + n)%Z.

(** [Math.pow(0.5, age / this._halfLife)]. *)
Definition _weight (l : t) (e : Entry) : R :=
  let age := Z.max 0 (_tick l - tick e) in
  Rpower 0.5 (IZR age / _halfLife l).

(** Entries of a kind, each paired with its current weight. *)
Definition ofType (ty : string) (l : t) : list (Entry * R) :=
  map (fun e => (e, _weight l e))
      (filter (fun e => String.eqb (type e) ty = true) (_entries l)).

Definition weightedCount (ty : string) (l : t) : R :=
  fold_left
    (fun sum e => if String.eqb (type e) ty then sum + _weight l e else sum)
    (_entries l) 0.

(** The backward scan of [ticksSinceLast], on the reversed entries. *)
Fixpoint last_of (ty : string) (newest_first : list Entry) : option Entry :=
  match newest_first with
  | [] => None
  | e :: rest => if String.eqb (type e) ty then Some e else last_of ty rest
  end.

Definition ticksSinceLast (ty : string) (l : t) : Ticks :=
  match last_of ty (rev (_entries l)) with
  | Some e => Finite (_tick l - tick e)
  | None => Infinity
  end.

Definition variety (l : t) : nat :=
  Js.set_size
    (map (fun e =>
            let sub := Js.or_empty (Js.or_ostr (offeringType (meta e))
                                                (actionType (meta e))) in
            String.append (type e) (String.append ":" sub))
         (_entries l)).

(** The backward scan of [currentStreak], on the reversed entries. *)
Fixpoint streak (ty : string) (newest_first : list Entry) : nat :=
  match newest_first with
  | [] => O
  | e :: rest => if String.eqb (type e) ty then S (streak ty rest) else O
  end.

Definition currentStreak (ty : string) (l : t) : nat :=
  streak ty (rev (_entries l)).

Definition recent (n : Z) (l : t) : list Entry :=
  rev (Js.slice_from (- n) (_entries l)).

Record Data := mkData {
  halfLife : R; data_tick : Z; entries : list Entry
}.

(** [{ ...e, meta: { ...e.meta } }]: a copy of the entry. *)
Definition copy_entry (e : Entry) : Entry :=
  mkEntry (type e) (tick e) (spread no_meta (meta e)).

Definition serialize (l : t) : Data :=
  mkData (_halfLife l) (_tick l) (map copy_entry (_entries l)).

Definition deserialize (data : Data) : t :=
  mk (_halfLife (new (Some (halfLife data))))
     (map copy_entry (entries data))
     (data_tick data).

End Ledger.

(* ------------------------------------------------------------------ *)
(** ** class Mood *)

Module Mood.

(** The fields of a mood engine; [_dirty] is written once by the
    constructor and never read, and is left out. *)
Record t := mk {
  personality : Vec;
  hysteresis : R;
  attractorStrength : R;
  _vector : Vec;
  _lastResolvedTick : Z
}.

(** A personality given by the caller: some dimensions may be missing. *)
Definition Partial := Dim -> option R.

Definition fromPartial (partial : Partial) : Vec :=
  let assigned :=
    fold_left (fun a d => match partial d with Some x => a + x | None => a end)
              DIMENSIONS 0 in
  let remaining := Rmax 0 (1 - assigned) in
  let unassigned :=
    filter (fun d => partial d = None) DIMENSIONS in
  let share :=
    if (0 <? length unassigned)%nat
    then remaining / INR (length unassigned) else 0 in
  tabulate (fun d => match partial d with Some x => x | None => share end).

Definition normalize (vec : Vec) : Vec :=
  let sum := sum_dims (fun d => Rmax 0 (Js.or0 (get vec d))) in
  if Js.is_zero sum
  then let val := 1 / INR (length DIMENSIONS) in tabulate (fun _ => val)
  else tabulate (fun d => Rmax 0 (Js.or0 (get vec d)) / sum).

(** [new Mood(personality, { hysteresis, attractorStrength })]. *)
Definition new (p : Partial) (hyst att : option R) : t :=
  let pers := normalize (fromPartial p) in
  mk pers (Js.nullish hyst 0.3) (Js.nullish att 0.05) pers (-1)%Z.

Definition _computeAttractor (m : t) : Vec :=
  tabulate (fun d =>
    (get (personality m) d - get (_vector m) d) * attractorStrength m).

(** The weighted sum over the non-synthetic offers. *)
Definition offerImpact (ledger : Ledger.t) : R :=
  let offers :=
    filter (fun o => negb (Js.truthy_obool (synthetic (meta (fst o)))) = true)
           (Ledger.ofType "offer" ledger) in
  fold_left
    (fun acc o =>
       let ev := Js.nullish (effectiveValue (meta (fst o)))
                            (Js.nullish (value (meta (fst o))) 0.3) in
       acc + ev * snd o)
    offers 0.

(** One iteration of the loop over world actions. *)
Definition action_step (impulse : Vec) (a : Entry * R) : Vec :=
  let favor := Js.nullish (favor (meta (fst a))) 0 in
  let mag := Js.nullish (magnitude (meta (fst a))) 0.3 in
  let impact := favor * mag * snd a in
  if Js.gtb impact 0 then
    bump wrath (- (impact * 0.01))
      (bump amusement (impact * 0.02)
        (bump serenity (impact * 0.03) impulse))
  else if Js.ltb impact 0 then
    bump serenity (impact * 0.02)
      (bump sorrow (- (impact * 0.02))
        (bump wrath (- (impact * 0.04)) impulse))
  else impulse.

Definition _computeImpulse (ledger : Ledger.t) : Vec :=
  let impulse := tabulate (fun _ => 0) in
  (* Offerings (value-weighted) *)
  let offerImpact := offerImpact ledger in
  let impulse :=
    if Js.gtb offerImpact 0 then
      bump wrath (- (offerImpact * 0.02))
        (bump hunger (- (offerImpact * 0.03))
          (bump serenity (offerImpact * 0.04) impulse))
    else if Js.ltb offerImpact 0 then
      bump amusement 0.01 (bump wrath (- (offerImpact * 0.06)) impulse)
    else impulse in
  (* Offering variety amuses *)
  let variety := Ledger.variety ledger in
  let impulse := bump amusement (Rmin (INR variety * 0.02) 0.1) impulse in
  (* World actions (favor-weighted) *)
  let impulse := fold_left action_step (Ledger.ofType "action" ledger) impulse in
  (* Prayer *)
  let prayWeight := Ledger.weightedCount "pray" ledger in
  let prayStreak := Ledger.currentStreak "pray" ledger in
  let impulse :=
    if (2 <? prayStreak)%nat then
      bump amusement (- 0.03) (bump wrath (INR prayStreak * 0.05) impulse)
    else if Js.gtb prayWeight 0 && Js.ltb prayWeight 1.5 then
      bump serenity 0.03 impulse
    else impulse in
  (* Desecration *)
  let desecrateWeight := Ledger.weightedCount "desecrate" ledger in
  let impulse :=
    bump serenity (- (desecrateWeight * 0.08))
      (bump chaos (desecrateWeight * 0.06)
        (bump wrath (desecrateWeight * 0.1) impulse)) in
  (* Neglect *)
  let neglectWeight := Ledger.weightedCount "neglect" ledger in
  let ticksSinceOffer := Ledger.ticksSinceLast "offer" ledger in
  let ticksSincePray := Ledger.ticksSinceLast "pray" ledger in
  let ticksSinceAny := ticks_min ticksSinceOffer ticksSincePray in
  let neglectFactor := ticks_factor ticksSinceAny in
  let impulse :=
    bump serenity (- (neglectFactor * 0.03))
      (bump sorrow (neglectFactor * 0.04)
        (bump hunger (neglectWeight * 0.03 + neglectFactor * 0.05) impulse)) in
  (* Repetition breeds contempt *)
  if (0 <? Ledger.size ledger)%nat then
    let last5 := Ledger.recent 5 ledger in
    let types := map type last5 in
    let uniqueRatio := INR (Js.set_size types) / INR (length types) in
    if Js.ltb uniqueRatio 0.5 then
      bump wrath 0.02 (bump amusement (- 0.03) impulse)
    else impulse
  else impulse.

(** The body of the loop of [resolve] for one dimension. *)
Definition raw_dim (m : t) (impulse attractor : Vec) (d : Dim) : R :=
  let current := get (_vector m) d in
  let imp := Js.or0 (get impulse d) in
  let att := get attractor d in
  let resistance := current * hysteresis m in
  let delta := imp + att in
  let effectiveDelta :=
    if Js.gtb delta 0 then delta * (1 - resistance)
    else delta * (1 + resistance) in
  current + effectiveDelta.

Definition resolve (ledger : Ledger.t) (currentTick : Z) (m : t) : t :=
  if (currentTick =? _lastResolvedTick m)%Z then m
  else
    let impulse := _computeImpulse ledger in
    let attractor := _computeAttractor m in
    let raw := tabulate (raw_dim m impulse attractor) in
    mk (personality m) (hysteresis m) (attractorStrength m)
       (normalize raw) currentTick.

Definition query (precise : bool) (m : t) : Vec :=
  if precise then _vector m
  else
    normalize (tabulate (fun d =>
      let v := get (_vector m) d in
      let noise := sin (v * 1000 + INR (index_of d)) * 0.02 in
      Js.clamp01 (v + noise))).

(** [dominant()]: the running maximum starts at [-1] with no dimension. *)
Definition dominant (m : t) : option Dim * R :=
  fold_left
    (fun acc d =>
       if Js.gtb (get (_vector m) d) (snd acc)
       then (Some d, get (_vector m) d) else acc)
    DIMENSIONS (None, -1).

Definition exceeds (dimension : Dim) (threshold : R) (m : t) : bool :=
  Js.gtb (Js.or0 (get (_vector m) dimension)) threshold.

Record Data := mkData {
  data_personality : Vec;
  vector : Vec;
  data_hysteresis : R;
  data_attractorStrength : R;
  lastResolvedTick : Z
}.

Definition serialize (m : t) : Data :=
  mkData (personality m) (_vector m) (hysteresis m) (attractorStrength m)
         (_lastResolvedTick m).

Definition deserialize (data : Data) : t :=
  let mood := new (fun d => Some (get (data_personality data) d))
                  (Some (data_hysteresis data))
                  (Some (data_attractorStrength data)) in
  mk (personality mood) (hysteresis mood) (attractorStrength mood)
     (vector data) (lastResolvedTick data).

End Mood.

(* ------------------------------------------------------------------ *)
(** ** class Supplicant *)

(** What [Supplicant.record] returns. *)
Record Signal := mkSignal { predicted : option string; surprised : bool }.

Module Supplicant.

Definition DEFAULT_SEQUENCE_LENGTH : Z := 10.

Record t := mk {
  _seqLen : Z;
  _history : list string;
  _freq : gmap string nat;
  _totalInteractions : nat;
  _correctPredictions : nat;
  _lastPrediction : option string;
  _lastConfidence : R;
  _surprise : R
}.

(** [new Supplicant({ sequenceLength })]. *)
Definition new (sequenceLength : option Z) : t :=
  mk (Js.nullish sequenceLength DEFAULT_SEQUENCE_LENGTH) [] ∅ 0 0 None 0 0.

Definition omniscient (s : t) : bool :=
  if (_totalInteractions s <? 10)%nat then false
  else Js.gtb (INR (_correctPredictions s) / INR (_totalInteractions s)) 0.85.

(** [counts[t] = (counts[t] || 0) + 1] on an object whose keys keep their
    insertion order (event kinds are not integer-like keys). *)
Fixpoint incr (t : string) (counts : list (string * nat)) : list (string * nat) :=
  match counts with
  | [] => [(t, 1%nat)]
  | (k, c) :: rest =>
      if String.eqb k t then (k, S c) :: rest else (k, c) :: incr t rest
  end.

(** [_predict()]: the new prediction and its confidence. *)
Definition _predict (s : t) : option string * R :=
  let window := Js.slice_from (- _seqLen s) (_history s) in
  let counts := fold_left (fun cs t => incr t cs) window [] in
  let best :=
    fold_left
      (fun (b : option string * nat) (tc : string * nat) =>
         if (snd b <? snd tc)%nat then (Some (fst tc), snd tc) else b)
      counts (None, O) in
  (fst best,
   if (0 <? length window)%nat
   then INR (snd best) / INR (length window) else 0).

Definition record (ty : string) (s : t) : t * Signal :=
  let predicted := _lastPrediction s in
  let surprised :=
    match predicted with
    | Some p => negb (String.eqb p ty)
    | None => false
    end in
  let correct :=
    match predicted with
    | Some p => if String.eqb p ty then S (_correctPredictions s)
                else _correctPredictions s
    | None => _correctPredictions s
    end in
  let surprise :=
    if surprised then Rmin 1 (_surprise s + 0.3)
    else Rmax 0 (_surprise s - 0.1) in
  let history := _history s ++ [ty] in
  let history :=
    if (_seqLen s * 3 <? Z.of_nat (length history))%Z
    then Js.slice_from (- _seqLen s * 2) history else history in
  let freq := <[ty := S (default O (_freq s !! ty))]> (_freq s) in
  let total := S (_totalInteractions s) in
  let s1 := mk (_seqLen s) history freq total correct predicted
               (_lastConfidence s) surprise in
  let p := _predict s1 in
  (mk (_seqLen s) history freq total correct (fst p) (snd p) surprise,
   mkSignal predicted surprised).

Record Data := mkData {
  seqLen : Z;
  history : list string;
  freq : gmap string nat;
  total : nat;
  correct : nat;
  lastPrediction : option string;
  lastConfidence : R;
  surprise : R
}.

Definition serialize (s : t) : Data :=
  mkData (_seqLen s) (_history s) (_freq s) (_totalInteractions s)
         (_correctPredictions s) (_lastPrediction s) (_lastConfidence s)
         (_surprise s).

Definition deserialize (data : Data) : t :=
  mk (_seqLen (new (Some (seqLen data)))) (history data) (freq data)
     (total data) (correct data) (lastPrediction data)
     (lastConfidence data) (surprise data).

End Supplicant.

(* ------------------------------------------------------------------ *)
(** ** class Deity *)

(** A callback is known by its identity: [on] stores it, the unsubscribe
    closure compares it with [!==], [_emit] calls it. *)
Definition Fn := nat.

(** The data handed to a callback. *)
Inductive Payload :=
| MoodShift (from : Dim) (to : option Dim) (mood : Vec) (at_tick : Z)
| Intensity (intensity : R) (at_tick : Z)
| Miracle (serenity_level : R) (at_tick : Z)
| Utterance (mood : Vec) (dominant : option Dim * R) (surprise : R)
            (at_tick : Z).

(** One call [fn(data)] made by [_emit]. *)
Record Call := mkCall { callee : Fn; event_name : string; data : Payload }.

Inductive Error :=
| UnknownEvent (event : string)
| NotAFunction (event : string).

(** The outcome of a method that may throw, with the object as the method
    left it. *)
Inductive Result (A : Type) :=
| Ok (this : A)
| Throw (e : Error) (this : A).
Arguments Ok {A} this.
Arguments Throw {A} e this.

(** The property names every object inherits from [Object.prototype]: a
    lookup of one of them on the listener table finds a function (or the
    prototype itself), never [undefined]. *)
Definition object_prototype_keys : list string :=
  ["constructor"; "__proto__"; "hasOwnProperty"; "isPrototypeOf";
   "propertyIsEnumerable"; "toLocaleString"; "toString"; "valueOf";
   "__defineGetter__"; "__defineSetter__"; "__lookupGetter__";
   "__lookupSetter__"].

Module Deity.

Definition EVENTS : list string :=
  ["moodShift"; "utterance"; "demand"; "omen"; "miracle"; "wrath"].

(** The fields of a deity.  The alignment is a string, and the empty
    string is the falsy one. *)
Record t := mk {
  name : string;
  _alignment : string;
  ledger : Ledger.t;
  mood : Mood.t;
  supplicant : Supplicant.t;
  _favorMap : gmap string R;
  _listeners : gmap string (list Fn);
  _thresholds : gmap string R;
  _neglectThreshold : Number;
  _prevDominant : option Dim;
  _tick : Z
}.

Definition with_ledger (l : Ledger.t) (d : t) : t :=
  mk (name d) (_alignment d) l (mood d) (supplicant d) (_favorMap d)
     (_listeners d) (_thresholds d) (_neglectThreshold d) (_prevDominant d)
     (_tick d).

Definition with_supplicant (s : Supplicant.t) (d : t) : t :=
  mk (name d) (_alignment d) (ledger d) (mood d) s (_favorMap d)
     (_listeners d) (_thresholds d) (_neglectThreshold d) (_prevDominant d)
     (_tick d).

Definition with_mood (m : Mood.t) (d : t) : t :=
  mk (name d) (_alignment d) (ledger d) m (supplicant d) (_favorMap d)
     (_listeners d) (_thresholds d) (_neglectThreshold d) (_prevDominant d)
     (_tick d).

Definition with_listeners (ls : gmap string (list Fn)) (d : t) : t :=
  mk (name d) (_alignment d) (ledger d) (mood d) (supplicant d) (_favorMap d)
     ls (_thresholds d) (_neglectThreshold d) (_prevDominant d) (_tick d).

Definition with_prevDominant (p : option Dim) (d : t) : t :=
  mk (name d) (_alignment d) (ledger d) (mood d) (supplicant d) (_favorMap d)
     (_listeners d) (_thresholds d) (_neglectThreshold d) p (_tick d).

Definition with_tick (n : Z) (d : t) : t :=
  mk (name d) (_alignment d) (ledger d) (mood d) (supplicant d) (_favorMap d)
     (_listeners d) (_thresholds d) (_neglectThreshold d) (_prevDominant d) n.

(** The options of the constructor; an absent option takes its default. *)
Record Opts := mkOpts {
  o_personality : Mood.Partial;
  o_name : option string;
  o_hysteresis : option R;
  o_attractorStrength : option R;
  o_decayHalfLife : option R;
  o_sequenceLength : option Z;
  o_thresholds : gmap string R;
  o_alignment : option string;
  o_favorMap : gmap string R;
  o_neglectThreshold : option Number
}.

Definition default_favorMap : gmap string R :=
  <["kill" := 0.0]> (<["steal" := 0.0]> (<["heal" := 0.2]>
  (<["destroy" := -0.1]> (<["create" := 0.2]> (<["betray" := -0.3]>
  (<["protect" := 0.3]> ∅)))))).

Definition default_thresholds : gmap string R :=
  <["wrath" := 0.4]> (<["miracle" := 0.5]> (<["demand" := 0.35]>
  (<["omen" := 0.3]> ∅))).

(** [for (const e of EVENTS) this._listeners[e] = []]. *)
Definition no_listeners : gmap string (list Fn) :=
  fold_left (fun ls e => <[e := []]> ls) EVENTS ∅.

Definition new (o : Opts) : t :=
  mk (Js.nullish (o_name o) "The Unnamed")
     (Js.nullish (o_alignment o) "neutral")
     (Ledger.new (o_decayHalfLife o))
     (Mood.new (o_personality o) (o_hysteresis o) (o_attractorStrength o))
     (Supplicant.new (o_sequenceLength o))
     (o_favorMap o ∪ default_favorMap)
     no_listeners
     (o_thresholds o ∪ default_thresholds)
     (Js.nullish (o_neglectThreshold o) (Num 3))
     None
     0%Z.

(** [on(event, fn)].  A name that is no key of the listener table and no
    inherited property is rejected by the explicit check; an inherited
    property passes the check and fails at [.push].  Either way the call
    throws before anything is written. *)
Definition on (event : string) (fn : Fn) (d : t) : Result t :=
  match _listeners d !! event with
  | Some fns => Ok (with_listeners (<[event := fns ++ [fn]]> (_listeners d)) d)
  | None =>
      if bool_decide (event ∈ object_prototype_keys)
      then Throw (NotAFunction event) d
      else Throw (UnknownEvent event) d
  end.

(** The closure that [on] returns. *)
Definition unsubscribe (event : string) (fn : Fn) (d : t) : t :=
  match _listeners d !! event with
  | Some fns =>
      with_listeners
        (<[event := filter (fun f => f ≠ fn) fns]> (_listeners d)) d
  | None => d
  end.

(** [_emit(event, data)]: the calls made, in order; what a callback throws
    is caught and dropped. *)
Definition _emit (event : string) (data : Payload) (d : t) : list Call :=
  map (fun fn => mkCall fn event data) (default [] (_listeners d !! event)).

Definition _modulateFromSurprise (surprise : Signal) (d : t) : t :=
  match predicted surprise with
  | None => d
  | Some _ =>
      if surprised surprise then
        with_ledger
          (Ledger.record "offer"
             (mkMeta (Some "_surprise_bonus") None None None (Some true) None
                     None None None None None)
             (ledger d)) d
      else if Supplicant.omniscient (supplicant d) then
        with_ledger
          (Ledger.record "neglect"
             (mkMeta None None None None (Some true) (Some "predictability")
                     None None None None None)
             (ledger d)) d
      else d
  end.

(** The effective value that [offer] computes from the clamped value. *)
Definition effective_value (deity_alignment alignment : string) (value : R) : R :=
  if Js.truthy_str deity_alignment then
    if String.eqb alignment deity_alignment then value * 1.5
    else if negb (String.eqb alignment "neutral")
            && negb (String.eqb alignment deity_alignment)
         then value * (-0.5)
         else value
  else value.

Definition offer (ty : option string) (m : Meta) (d : t) : t :=
  let ty := Js.nullish ty "generic" in
  let value := Js.clamp01 (Js.nullish (value m) 0.3) in
  let alignment := Js.nullish (alignment m) "neutral" in
  let effectiveValue := effective_value (_alignment d) alignment value in
  let d :=
    with_ledger
      (Ledger.record "offer"
         (spread (mkMeta (Some ty) (Some value) (Some effectiveValue)
                         (Some alignment) None None None None None None None)
                 m)
         (ledger d)) d in
  let r := Supplicant.record "offer" (supplicant d) in
  _modulateFromSurprise (snd r) (with_supplicant (fst r) d).

Definition pray (d : t) : t :=
  let d := with_ledger (Ledger.record "pray" no_meta (ledger d)) d in
  let r := Supplicant.record "pray" (supplicant d) in
  _modulateFromSurprise (snd r) (with_supplicant (fst r) d).

Definition desecrate (ty : option string) (d : t) : t :=
  let ty := Js.nullish ty "generic" in
  let d :=
    with_ledger
      (Ledger.record "desecrate"
         (mkMeta None None None None None None (Some ty) None None None None)
         (ledger d)) d in
  let r := Supplicant.record "desecrate" (supplicant d) in
  _modulateFromSurprise (snd r) (with_supplicant (fst r) d).

Definition action (ty : string) (m : Meta) (d : t) : t :=
  let magnitude := Js.clamp01 (Js.nullish (magnitude m) 0.3) in
  let favor := _favorMap d !! ty in
  let d :=
    with_ledger
      (Ledger.record "action"
         (spread (mkMeta None None None None None None None (Some ty)
                         (Some magnitude) (Some (Js.nullish favor 0)) None)
                 m)
         (ledger d)) d in
  with_supplicant (fst (Supplicant.record "offer" (supplicant d))) d.

(** What [query()] returns. *)
Record Reading := mkReading {
  r_mood : Vec; r_dominant : option Dim * R; r_tick : Z
}.

Definition query (d : t) : Reading :=
  mkReading (Mood.query false (mood d)) (Mood.dominant (mood d)) (_tick d).

Definition _queryPrecise (d : t) : Vec := Mood.query true (mood d).

Definition _miracleChance (d : t) : bool :=
  Js.ltb (sin (IZR (_tick d) * 127.1) * 0.5 + 0.5) 0.02.

Definition _shouldSpeak (d : t) : bool :=
  let dom := Mood.dominant (mood d) in
  let baseChance := 0.1 in
  let extremeBoost := if Js.gtb (snd dom) 0.5 then 0.15 else 0 in
  let threshold := baseChance + extremeBoost in
  Js.ltb (sin (IZR (_tick d) * 43.7 + 17.3) * 0.5 + 0.5) threshold.

(** [x > this._thresholds[key]]; nothing exceeds a missing threshold. *)
Definition over (x : R) (key : string) (d : t) : bool :=
  match _thresholds d !! key with
  | Some th => Js.gtb x th
  | None => false
  end.

Definition _checkEvents (d : t) : t * list Call :=
  let precise := _queryPrecise d in
  let dom := Mood.dominant (mood d) in
  let shift :=
    match _prevDominant d with
    | Some prev =>
        if bool_decide (Some prev ≠ fst dom)
        then _emit "moodShift"
               (MoodShift prev (fst dom) (Mood.query false (mood d)) (_tick d)) d
        else []
    | None => []
    end in
  let d' := with_prevDominant (fst dom) d in
  let wrath_calls :=
    if over (get precise wrath) "wrath" d'
    then _emit "wrath" (Intensity (get precise wrath) (_tick d')) d' else [] in
  let demand_calls :=
    if over (get precise hunger) "demand" d'
    then _emit "demand" (Intensity (get precise hunger) (_tick d')) d' else [] in
  let omen_calls :=
    if over (get precise chaos) "omen" d'
    then _emit "omen" (Intensity (get precise chaos) (_tick d')) d' else [] in
  let miracle_calls :=
    if over (get precise serenity) "miracle" d'
       && Js.ltb (get precise wrath) 0.1
       && _miracleChance d'
    then _emit "miracle" (Miracle (get precise serenity) (_tick d')) d'
    else [] in
  let utterance_calls :=
    if _shouldSpeak d'
    then _emit "utterance"
           (Utterance (Mood.query false (mood d')) dom
                      (Supplicant._surprise (supplicant d')) (_tick d')) d'
    else [] in
  (d', shift ++ wrath_calls ++ demand_calls ++ omen_calls ++ miracle_calls
         ++ utterance_calls).

(** The synthetic entry that [tick] records for neglect. *)
Definition neglect_meta : Meta :=
  mkMeta None None None None (Some true) None None None None None None.

(** The body of the loop of [tick]. *)
Definition tick_step (d : t) : t * list Call :=
  let d := with_tick (_tick d + 1) d in
  let d := with_ledger (Ledger.advanceTick 1 (ledger d)) d in
  let ticksSinceOffer := Ledger.ticksSinceLast "offer" (ledger d) in
  let ticksSincePray := Ledger.ticksSinceLast "pray" (ledger d) in
  let ticksSinceDesecrate := Ledger.ticksSinceLast "desecrate" (ledger d) in
  let minTicksSince :=
    ticks_min (ticks_min ticksSinceOffer ticksSincePray) ticksSinceDesecrate in
  let d :=
    if ticks_gtb minTicksSince (_neglectThreshold d) then
      let d := with_ledger (Ledger.record "neglect" neglect_meta (ledger d)) d in
      with_supplicant (fst (Supplicant.record "neglect" (supplicant d))) d
    else d in
  let d := with_mood (Mood.resolve (ledger d) (_tick d) (mood d)) d in
  _checkEvents d.

(** [for (let i = 0; i < dt; i++) { ... }]: [n] runs of the body;
    [tick()] is [tick(1)]. *)
Fixpoint tick_loop (n : nat) (d : t) : t * list Call :=
  match n with
  | O => (d, [])
  | S k =>
      let r := tick_step d in
      let r' := tick_loop k (fst r) in
      (fst r', snd r ++ snd r')
  end.

Definition tick (dt : Z) (d : t) : t * list Call :=
  tick_loop (Z.to_nat dt) d.

Record Data := mkData {
  data_name : string;
  data_alignment : string;
  data_favorMap : gmap string R;
  data_tick : Z;
  data_ledger : Ledger.Data;
  data_mood : Mood.Data;
  data_supplicant : Supplicant.Data;
  data_thresholds : gmap string R;
  data_neglectThreshold : Number;
  data_prevDominant : option Dim
}.

Definition serialize (d : t) : Data :=
  mkData (name d) (_alignment d) (_favorMap d) (_tick d)
         (Ledger.serialize (ledger d)) (Mood.serialize (mood d))
         (Supplicant.serialize (supplicant d)) (_thresholds d)
         (_neglectThreshold d) (_prevDominant d).

Definition deserialize (data : Data) : t :=
  let deity :=
    new (mkOpts (fun _ => None) (Some (data_name data)) None None None None
                (data_thresholds data) (Some (data_alignment data))
                (data_favorMap data) (Some (data_neglectThreshold data))) in
  with_prevDominant (data_prevDominant data)
    (with_supplicant (Supplicant.deserialize (data_supplicant data))
      (with_mood (Mood.deserialize (data_mood data))
        (with_ledger (Ledger.deserialize (data_ledger data))
          (with_tick (data_tick data) deity)))).

End Deity.

(* ------------------------------------------------------------------ *)
(** ** The mood arithmetic in double precision

    The numeric core of [mood.js] and [_weight] of [ledger.js] once more,
    over the numbers that the code really computes with: IEEE 754
    double-precision numbers (the specification [SpecFloat] of the
    Standard Library with 53 bits of precision and round to nearest even),
    where a result too large is [Infinity], [Infinity / Infinity] and
    [0 * Infinity] are [NaN], and a quotient is rounded.  What is stated
    here holds of the code to the last bit.

    [Math.pow] is the one operation whose result ECMAScript leaves to the
    implementation; it is modelled where ECMAScript fixes the result, and
    the weights that [_computeImpulse] reads from the ledger are inputs. *)

Module Double.

Import SpecFloat.

Definition num : Type := spec_float.

Definition prec : Z := 53%Z.
Definition emax : Z := 1024%Z.

Definition nan : num := S754_nan.
Definition infinity : num := S754_infinity false.
Definition zero : num := S754_zero false.

(** [x + y], [x - y], [x * y] and [x / y]. *)
Definition add : num -> num -> num := SFadd prec emax.
Definition sub : num -> num -> num := SFsub prec emax.
Definition mul : num -> num -> num := SFmul prec emax.
Definition div : num -> num -> num := SFdiv prec emax.

(** An integer, and the decimal literal [n / d]: the double nearest to a
    decimal fraction is the rounded quotient of its numerator and its
    denominator. *)
Definition of_Z (n : Z) : num := binary_normalize prec emax n 0%Z false.
Definition of_nat (n : nat) : num := of_Z (Z.of_nat n).
Definition dec (n d : Z) : num := div (of_Z n) (of_Z d).
Definition one : num := of_Z 1.

(** [x > y], [x < y] and [x === y]: all false when an operand is [NaN]. *)
Definition gtb (x y : num) : bool := SFltb y x.
Definition ltb (x y : num) : bool := SFltb x y.
Definition strict_eqb (x y : num) : bool := SFeqb x y.

(** [x || 0]: [NaN], [0] and [-0] are the falsy numbers. *)
Definition or0 (x : num) : num :=
  match x with
  | S754_nan | S754_zero _ => zero
  | _ => x
  end.

(** [Math.max(a, b)] and [Math.min(a, b)]: [NaN] when an operand is [NaN];
    [0] counts as greater than [-0]. *)
Definition Math_max (a b : num) : num :=
  match SFcompare a b with
  | None => nan
  | Some Lt => b
  | Some Gt => a
  | Some Eq => match a with S754_zero true => b | _ => a end
  end.
Definition Math_min (a b : num) : num :=
  match SFcompare a b with
  | None => nan
  | Some Lt => a
  | Some Gt => b
  | Some Eq => match a with S754_zero false => b | _ => a end
  end.

(** [Math.pow(0.5, y)] where ECMAScript fixes it: [NaN] for [NaN], 1 for
    [0] and [-0], 0 for [Infinity], [Infinity] for [-Infinity].  For any
    other exponent the result is an approximation that the implementation
    chooses, and is not modelled. *)
Definition pow_half (y : num) : option num :=
  match y with
  | S754_nan => Some nan
  | S754_zero _ => Some one
  | S754_infinity false => Some zero
  | S754_infinity true => Some infinity
  | S754_finite _ _ _ => None
  end.

(** [Ledger._weight] for the tick of the ledger, the birth tick of the
    entry and the half-life. *)
Definition _weight (tick entry_tick halfLife : num) : option num :=
  let age := Math_max zero (sub tick entry_tick) in
  pow_half (div age halfLife).

(** An object with exactly the six dimension keys. *)
Record Vec := mkVec {
  v_wrath : num; v_serenity : num; v_hunger : num;
  v_amusement : num; v_sorrow : num; v_chaos : num
}.

Definition get (v : Vec) (d : Dim) : num :=
  match d with
  | wrath => v_wrath v | serenity => v_serenity v | hunger => v_hunger v
  | amusement => v_amusement v | sorrow => v_sorrow v | chaos => v_chaos v
  end.

Definition tabulate (f : Dim -> num) : Vec :=
  mkVec (f wrath) (f serenity) (f hunger) (f amusement) (f sorrow) (f chaos).

(** [vec[d] += x] and [vec[d] -= x]. *)
Definition bump (d : Dim) (x : num) (vec : Vec) : Vec :=
  tabulate (fun d' => if decide (d' = d) then add (get vec d') x
                      else get vec d').
Definition lower (d : Dim) (x : num) (vec : Vec) : Vec :=
  tabulate (fun d' => if decide (d' = d) then sub (get vec d') x
                      else get vec d').

(** [Mood.fromPartial]. *)
Definition fromPartial (partial : Dim -> option num) : Vec :=
  let assigned :=
    fold_left (fun a d => match partial d with Some x => add a x | None => a end)
              DIMENSIONS zero in
  let remaining := Math_max zero (sub one assigned) in
  let unassigned :=
    filter (fun d => ~ is_Some (partial d)) DIMENSIONS in
  let share :=
    if (0 <? length unassigned)%nat
    then div remaining (of_nat (length unassigned)) else zero in
  tabulate (fun d => match partial d with Some x => x | None => share end).

(** [Mood.normalize]. *)
Definition normalize (vec : Vec) : Vec :=
  let sum :=
    fold_left (fun s d => add s (Math_max zero (or0 (get vec d))))
              DIMENSIONS zero in
  if strict_eqb sum zero
  then let val := div one (of_nat (length DIMENSIONS)) in tabulate (fun _ => val)
  else tabulate (fun d => div (Math_max zero (or0 (get vec d))) sum).

(** The fields of a mood engine. *)
Record t := mk {
  personality : Vec;
  hysteresis : num;
  attractorStrength : num;
  _vector : Vec;
  _lastResolvedTick : Z
}.

(** [new Mood(personality, { hysteresis, attractorStrength })]. *)
Definition new (p : Dim -> option num) (hyst att : option num) : t :=
  let pers := normalize (fromPartial p) in
  mk pers (Js.nullish hyst (dec 3 10)) (Js.nullish att (dec 5 100)) pers (-1)%Z.

Definition _computeAttractor (m : t) : Vec :=
  tabulate (fun d =>
    mul (sub (get (personality m) d) (get (_vector m) d)) (attractorStrength m)).

(** An entry as [ofType] returns it: the numbers of its metadata that
    [_computeImpulse] reads, and the weight that [_weight] gave it. *)
Record Weighted := mkWeighted {
  w_synthetic : option bool;
  w_effectiveValue : option num;
  w_value : option num;
  w_favor : option num;
  w_magnitude : option num;
  w_weight : num
}.

(** What the ledger answers to [_computeImpulse]. *)
Record Reads := mkReads {
  offers : list Weighted;           (* ledger.ofType('offer') *)
  variety : nat;                    (* ledger.variety() *)
  actions : list Weighted;          (* ledger.ofType('action') *)
  prayWeight : num;                 (* ledger.weightedCount('pray') *)
  prayStreak : nat;                 (* ledger.currentStreak('pray') *)
  desecrateWeight : num;            (* ledger.weightedCount('desecrate') *)
  neglectWeight : num;              (* ledger.weightedCount('neglect') *)
  ticksSinceOffer : num;            (* ledger.ticksSinceLast('offer') *)
  ticksSincePray : num;             (* ledger.ticksSinceLast('pray') *)
  size : nat;                       (* ledger.size *)
  last5 : list string               (* ledger.recent(5).map((e) => e.type) *)
}.

(** The weighted sum over the non-synthetic offers. *)
Definition offerImpact (r : Reads) : num :=
  fold_left
    (fun acc o =>
       let ev := Js.nullish (w_effectiveValue o)
                            (Js.nullish (w_value o) (dec 3 10)) in
       add acc (mul ev (w_weight o)))
    (filter (fun o => negb (Js.truthy_obool (w_synthetic o)) = true) (offers r))
    zero.

(** One iteration of the loop over world actions. *)
Definition action_step (impulse : Vec) (a : Weighted) : Vec :=
  let favor := Js.nullish (w_favor a) zero in
  let mag := Js.nullish (w_magnitude a) (dec 3 10) in
  let impact := mul (mul favor mag) (w_weight a) in
  if gtb impact zero then
    lower wrath (mul impact (dec 1 100))
      (bump amusement (mul impact (dec 2 100))
        (bump serenity (mul impact (dec 3 100)) impulse))
  else if ltb impact zero then
    bump serenity (mul impact (dec 2 100))
      (lower sorrow (mul impact (dec 2 100))
        (lower wrath (mul impact (dec 4 100)) impulse))
  else impulse.

(** [Mood._computeImpulse], from the answers of the ledger. *)
Definition _computeImpulse (r : Reads) : Vec :=
  let impulse := tabulate (fun _ => zero) in
  (* Offerings (value-weighted) *)
  let offerImpact := offerImpact r in
  let impulse :=
    if gtb offerImpact zero then
      lower wrath (mul offerImpact (dec 2 100))
        (lower hunger (mul offerImpact (dec 3 100))
          (bump serenity (mul offerImpact (dec 4 100)) impulse))
    else if ltb offerImpact zero then
      bump amusement (dec 1 100)
        (lower wrath (mul offerImpact (dec 6 100)) impulse)
    else impulse in
  (* Offering variety amuses *)
  let impulse :=
    bump amusement (Math_min (mul (of_nat (variety r)) (dec 2 100)) (dec 1 10))
         impulse in
  (* World actions (favor-weighted) *)
  let impulse := fold_left action_step (actions r) impulse in
  (* Prayer *)
  let impulse :=
    if (2 <? prayStreak r)%nat then
      lower amusement (dec 3 100)
        (bump wrath (mul (of_nat (prayStreak r)) (dec 5 100)) impulse)
    else if gtb (prayWeight r) zero && ltb (prayWeight r) (dec 15 10) then
      bump serenity (dec 3 100) impulse
    else impulse in
  (* Desecration *)
  let impulse :=
    lower serenity (mul (desecrateWeight r) (dec 8 100))
      (bump chaos (mul (desecrateWeight r) (dec 6 100))
        (bump wrath (mul (desecrateWeight r) (dec 1 10)) impulse)) in
  (* Neglect *)
  let ticksSinceAny := Math_min (ticksSinceOffer r) (ticksSincePray r) in
  let neglectFactor := Math_min (div ticksSinceAny (of_Z 20)) one in
  let impulse :=
    lower serenity (mul neglectFactor (dec 3 100))
      (bump sorrow (mul neglectFactor (dec 4 100))
        (bump hunger (add (mul (neglectWeight r) (dec 3 100))
                          (mul neglectFactor (dec 5 100))) impulse)) in
  (* Repetition breeds contempt *)
  if (0 <? size r)%nat then
    let uniqueRatio :=
      div (of_nat (Js.set_size (last5 r))) (of_nat (length (last5 r))) in
    if ltb uniqueRatio (dec 5 10) then
      bump wrath (dec 2 100) (lower amusement (dec 3 100) impulse)
    else impulse
  else impulse.

(** The body of the loop of [resolve] for one dimension. *)
Definition raw_dim (m : t) (impulse attractor : Vec) (d : Dim) : num :=
  let current := get (_vector m) d in
  let imp := or0 (get impulse d) in
  let att := get attractor d in
  let resistance := mul current (hysteresis m) in
  let delta := add imp att in
  let effectiveDelta :=
    if gtb delta zero then mul delta (sub one resistance)
    else mul delta (add one resistance) in
  add current effectiveDelta.

(** [Mood.resolve], with the answers of the ledger in place of the ledger. *)
Definition resolve (r : Reads) (currentTick : Z) (m : t) : t :=
  if (currentTick =? _lastResolvedTick m)%Z then m
  else
    let impulse := _computeImpulse r in
    let attractor := _computeAttractor m in
    let raw := tabulate (raw_dim m impulse attractor) in
    mk (personality m) (hysteresis m) (attractorStrength m)
       (normalize raw) currentTick.

End Double.

(* ================================================================== *)
(** * Statements: predicates, specification-side functions and inputs *)

(** *** The simplex *)

(** A point of the probability simplex. *)
Definition simplex (v : Vec) : Prop :=
  (forall d, 0 <= get v d) /\ sum_dims (get v) = 1.

Definition uniform : Vec := tabulate (fun _ => 1 / 6).

(** The clamped components that [normalize] adds up and divides. *)
Definition clamped (v : Vec) (d : Dim) : R := Rmax 0 (Js.or0 (get v d)).

(** *** States of the mood engine *)

(** The states of a mood engine that the constructor, [resolve] and a
    snapshot taken and restored produce. *)
Inductive reachable : Mood.t -> Prop :=
| reach_new (p : Mood.Partial) (hyst att : option R) :
    reachable (Mood.new p hyst att)
| reach_resolve (ledger : Ledger.t) (currentTick : Z) (m : Mood.t) :
    reachable m -> reachable (Mood.resolve ledger currentTick m)
| reach_restore (m : Mood.t) :
    reachable m -> reachable (Mood.deserialize (Mood.serialize m)).

(** Both vectors of a mood engine lie on the simplex. *)
Definition well_formed (m : Mood.t) : Prop :=
  simplex (Mood.personality m) /\ simplex (Mood._vector m).

(** The vector that [resolve] hands to [normalize]. *)
Definition raw_vector (ledger : Ledger.t) (m : Mood.t) : Vec :=
  tabulate (Mood.raw_dim m (Mood._computeImpulse ledger)
                         (Mood._computeAttractor m)).

(** A personality with all its mass on serenity, hunger and sorrow. *)
Definition brooding : Mood.Partial :=
  fun d => Some (match d with
                 | serenity | hunger | sorrow => 1 / 3
                 | _ => 0
                 end).

(** *** The resolution step in the words of the specification *)

(** [delta = impulse[d] + (personality[d] - current[d]) * attractorStrength]. *)
Definition spec_delta (m : Mood.t) (impulse : Vec) (d : Dim) : R :=
  get impulse d
  + (get (Mood.personality m) d - get (Mood._vector m) d)
    * Mood.attractorStrength m.

(** [delta > 0 ? delta * (1 - current*hysteresis)
              : delta * (1 + current*hysteresis)]. *)
Definition spec_effectiveDelta (current hysteresis delta : R) : R :=
  if Rlt_dec 0 delta
  then delta * (1 - current * hysteresis)
  else delta * (1 + current * hysteresis).

(** [current + effectiveDelta], before clamping and normalization. *)
Definition spec_shifted (m : Mood.t) (impulse : Vec) (d : Dim) : R :=
  get (Mood._vector m) d
  + spec_effectiveDelta (get (Mood._vector m) d) (Mood.hysteresis m)
                        (spec_delta m impulse d).

(** A mood engine with the default options and an even personality. *)
Definition plain_mood : Mood.t := Mood.new (fun _ => None) None None.

(** *** Ledgers *)

(** A prayer recorded at tick 0. *)
Definition old_entry : Entry := mkEntry "pray" 0 no_meta.

(** A ledger with the default half-life that holds the prayer, then and 250
    ticks later. *)
Definition lone_ledger : Ledger.t :=
  Ledger.record "pray" no_meta (Ledger.new None).


(** *** Calls between two ticks *)

(** What a consumer can call on a deity other than [tick]: the reads, the
    interactions, and the subscription calls. *)
Inductive Op :=
| OpQuery
| OpQueryPrecise
| OpDominant
| OpExceeds (dimension : Dim) (threshold : R)
| OpSerialize
| OpOffer (ty : option string) (m : Meta)
| OpPray
| OpDesecrate (ty : option string)
| OpAction (ty : string) (m : Meta)
| OpOn (event : string) (fn : Fn)
| OpUnsubscribe (event : string) (fn : Fn).

(** The deity after one call; what a read returns is dropped, and a call
    that throws leaves the deity as the throw left it. *)
Definition run_op (op : Op) (d : Deity.t) : Deity.t :=
  match op with
  | OpQuery | OpQueryPrecise | OpDominant | OpExceeds _ _ | OpSerialize => d
  | OpOffer ty m => Deity.offer ty m d
  | OpPray => Deity.pray d
  | OpDesecrate ty => Deity.desecrate ty d
  | OpAction ty m => Deity.action ty m d
  | OpOn event fn =>
      match Deity.on event fn d with Ok d' => d' | Throw _ d' => d' end
  | OpUnsubscribe event fn => Deity.unsubscribe event fn d
  end.

Definition run (ops : list Op) (d : Deity.t) : Deity.t :=
  fold_left (fun d op => run_op op d) ops d.

(** The perturbed and clamped value of one dimension in the imprecise read,
    in the words of the specification; [i] is the index of the dimension. *)
Definition spec_perturbed (v : R) (i : nat) : R :=
  Js.clamp01 (v + sin (v * 1000 + INR i) * 0.02).

(** *** Snapshots *)

(** The constructor called without options. *)
Definition default_opts : Deity.Opts :=
  Deity.mkOpts (fun _ => None) None None None None None ∅ None ∅ None.

(** The deity states that the constructor, the restoring of a snapshot
    (any data of the snapshot's shape) and the calls of the API produce. *)
Inductive produced : Deity.t -> Prop :=
| produced_new (o : Deity.Opts) : produced (Deity.new o)
| produced_deserialize (data : Deity.Data) : produced (Deity.deserialize data)
| produced_op (op : Op) (d : Deity.t) : produced d -> produced (run_op op d)
| produced_tick (dt : Z) (d : Deity.t) :
    produced d -> produced (fst (Deity.tick dt d)).

(** *** The neglect rule of [tick] *)

(** The kinds of entry that count as a direct interaction in [tick]. *)
Definition direct (ty : string) : Prop :=
  ty = "offer" \/ ty = "pray" \/ ty = "desecrate".

(** The newest entry of a kind: an entry of the kind after which no entry
    of the kind follows. *)
Definition newest_of (ty : string) (es : list Entry) (e : Entry) : Prop :=
  exists older newer,
    es = older ++ e :: newer /\ type e = ty /\
    Forall (fun e' => type e' <> ty) newer.

(** "The minimum ticks since the last direct interaction exceeds the neglect
    threshold", at the tick [now] of the ledger: the newest offer, the newest
    prayer and the newest desecration, as far as there are any, are each
    more than [threshold] ticks old.  Nothing exceeds [Infinity] or [NaN];
    everything exceeds [-Infinity]. *)
Definition spec_neglected (es : list Entry) (now : Z) (threshold : Number)
  : Prop :=
  match threshold with
  | Num x =>
      forall ty e, direct ty -> newest_of ty es e -> x < IZR (now - tick e)
  | MinusInfinity => True
  | PlusInfinity | NotANumber => False
  end.

(** *** The loop of [tick] as repeated single steps *)

Fixpoint steps (n : nat) (d : Deity.t) : Deity.t :=
  match n with
  | O => d
  | S k => steps k (fst (Deity.tick_step d))
  end.

(** *** Feedback from the predictive model *)

(** The two synthetic entries that [_modulateFromSurprise] records. *)
Definition surprise_bonus : Meta :=
  mkMeta (Some "_surprise_bonus") None None None (Some true) None
         None None None None None.
Definition predictability : Meta :=
  mkMeta None None None None (Some true) (Some "predictability")
         None None None None None.

(** A fresh deity that has watched thirteen world actions. *)
Definition watched : Deity.t :=
  run (replicate 13 (OpAction "heal" no_meta)) (Deity.new default_opts).

(** *** Subscriptions and tolerated inputs *)

(** The listener table has exactly the event names as keys. *)
Definition listeners_intact (d : Deity.t) : Prop :=
  forall event, is_Some (Deity._listeners d !! event) <-> event ∈ Deity.EVENTS.

(** A world action reported with a magnitude far above 1. *)
Definition mighty : Meta :=
  mkMeta None None None None None None None None (Some 50) None None.

(** *** Recent entries *)

(** The last [n] entries of a list, oldest first. *)
Definition last_n {A} (n : nat) (l : list A) : list A :=
  drop (length l - n) l.


(** *** Offerings *)

(** A deity without an alignment, and a chaotic offering of value 0.9. *)
Definition unaligned_opts : Deity.Opts :=
  Deity.mkOpts (fun _ => None) None None None None None ∅ (Some "") ∅ None.
Definition chaotic_unicorn : Meta :=
  mkMeta None (Some 0.9) None (Some "chaotic") None None None None None None None.

(** An offering whose metadata brings an effective value of its own. *)
Definition priced : Meta :=
  mkMeta None (Some 0.5) (Some 7) None None None None None None None None.

(** A lawful deity and a lawful offering of value 0.9. *)
Definition lawful_opts : Deity.Opts :=
  Deity.mkOpts (fun _ => None) None None None None None ∅ (Some "lawful") ∅ None.
Definition lawful_unicorn : Meta :=
  mkMeta None (Some 0.9) None (Some "lawful") None None None None None None None.

(** *** A small history *)

(** An offering of gold at tick 0, a prayer at tick 0 and one at tick 1,
    looked at from tick 3. *)
Definition gold : Meta :=
  mkMeta (Some "gold") (Some 0.7) (Some 0.7) (Some "neutral") None None
         None None None None None.
Definition short_history : Ledger.t :=
  Ledger.advanceTick 2
    (Ledger.record "pray" no_meta
       (Ledger.advanceTick 1
          (Ledger.record "pray" no_meta
             (Ledger.record "offer" gold (Ledger.new None))))).

(** *** Double precision *)

(** A number that is neither negative nor [NaN] nor [-0]. *)
Definition plain (x : Double.num) : Prop :=
  match x with
  | SpecFloat.S754_zero false | SpecFloat.S754_infinity false
  | SpecFloat.S754_finite false _ _ => True
  | _ => False
  end.

(** The mood engine of [new Deity()]. *)
Definition fresh_engine : Double.t := Double.new (fun _ => None) None None.

(** What the ledger of [new Deity()] answers to [_computeImpulse] in the
    first tick after one call of [action('heal', meta)]: no offers; two
    kinds of entry, the action and the neglect entry of this tick; the
    action with the favor and the magnitude that its recorded metadata hold
    (what [meta] brings is spread over the favor 0.2 of the default favor
    map and over the clamped magnitude), and with its weight [w], which is
    [Math.pow(0.5, 1 / 100)]; no prayer and no desecration; the neglect
    entry with the weight [Math.pow(0.5, 0)], which is 1; no offer and no
    prayer ever; two entries, of two kinds. *)
Definition healed (favor magnitude w : Double.num) : Double.Reads :=
  Double.mkReads
    [] 2%nat
    [Double.mkWeighted None None None (Some favor) (Some magnitude) w]
    Double.zero 0%nat Double.zero Double.one
    Double.infinity Double.infinity 2%nat ["neglect"; "action"].


(* ------------------------------------------------------------------ *)
(** ** Notions for the further properties *)

(** *** Counting and summing over a ledger *)

(** How many entries of a kind a ledger holds. *)
Definition count_type (ty : string) (l : Ledger.t) : nat :=
  length (filter (fun e => String.eqb (type e) ty = true) (Ledger._entries l)).

(** The sum of a list of numbers. *)
Definition total (xs : list R) : R := fold_right Rplus 0 xs.

(** The tick distance [t] after [n] more ticks. *)
Definition ticks_later (n : Z) (t : Ticks) : Ticks :=
  match t with Finite k => Finite (k + n) | Infinity => Infinity end.

(** The greatest integer up to which every integer is a double of its own:
    [Number.MAX_SAFE_INTEGER], 2^53 - 1. *)
Definition MAX_SAFE_INTEGER : Z := (2 ^ 53 - 1)%Z.


(** The string that [variety] adds to its set for an entry: the kind, a
    colon, and the offering type or else the action type or else nothing. *)
Definition entry_key (e : Entry) : string :=
  String.append (type e)
    (String.append ":"
       (Js.or_empty (Js.or_ostr (offeringType (meta e)) (actionType (meta e))))).


(** *** Vectors and personalities *)

(** The mass that a partial personality assigns and the number of
    dimensions it leaves out. *)
Definition assigned (p : Mood.Partial) : R :=
  sum_dims (fun d => default 0 (p d)).



(** *** Histories of the supplicant *)

(** The supplicant after it has recorded the kinds [tys], oldest first. *)
Definition observe (tys : list string) (s : Supplicant.t) : Supplicant.t :=
  fold_left (fun s ty => fst (Supplicant.record ty s)) tys s.

(** How often a kind occurs in a list of kinds. *)
Definition occurrences (ty : string) (tys : list string) : nat :=
  length (filter (fun t => t = ty) tys).

(** Kinds that are no property name that every object inherits: only for
    those is [(table[kind] || 0) + 1] a count. *)
Definition plain_kinds (tys : list string) : Prop :=
  Forall (fun t => t ∉ object_prototype_keys) tys.


(** The count that a tally (an object from kinds to counts, keys in
    insertion order) holds for a kind, 0 when the kind is no key. *)
Fixpoint tally_get (ty : string) (counts : list (string * nat)) : nat :=
  match counts with
  | [] => O
  | (k, c) :: rest => if String.eqb k ty then c else tally_get ty rest
  end.


(** *** Deities and their listeners *)

(** A call goes to a callback that is registered for its event. *)
Definition registered (d : Deity.t) (c : Call) : Prop :=
  callee c ∈ default [] (Deity._listeners d !! event_name c).

(** No callback is registered. *)
Definition silent (d : Deity.t) : Prop :=
  forall event fns, Deity._listeners d !! event = Some fns -> fns = [].


(** *** Deities grown from the constructor *)

(** The deity states that the constructor and the calls of the API produce,
    with no snapshot restored on the way. *)
Inductive grown : Deity.t -> Prop :=
| grown_new (o : Deity.Opts) : grown (Deity.new o)
| grown_op (op : Op) (d : Deity.t) : grown d -> grown (run_op op d)
| grown_tick (dt : Z) (d : Deity.t) : grown d -> grown (fst (Deity.tick dt d)).

(** Entries in the order of their birth ticks. *)
Definition chronological (es : list Entry) : Prop :=
  StronglySorted (fun a b => (tick a <= tick b)%Z) es.

(** The two tick counters agree, the mood engine has resolved the current
    tick (or none, before the first tick), and the entries were born at the
    ticks passed so far, in order. *)
Definition in_step (d : Deity.t) : Prop :=
  Ledger._tick (Deity.ledger d) = Deity._tick d /\
  (0 <= Deity._tick d)%Z /\
  Mood._lastResolvedTick (Deity.mood d)
    = (if (Deity._tick d =? 0)%Z then -1 else Deity._tick d)%Z /\
  Forall (fun e => (0 <= tick e <= Deity._tick d)%Z)
         (Ledger._entries (Deity.ledger d)) /\
  chronological (Ledger._entries (Deity.ledger d)).

(** The neglect entries of [n] ticks in a row after tick [t]. *)
Definition neglects (t : Z) (n : nat) : list Entry :=
  map (fun i => mkEntry "neglect" (t + Z.of_nat i) Deity.neglect_meta)
      (seq 1 n).

(** A deity that has taken an offering and then lived through two ticks. *)
Definition fed_twice : Deity.t :=
  fst (Deity.tick 2 (run_op (OpOffer (Some "gold") gold)
                            (Deity.new default_opts))).


(** A deity that has only watched two world actions. *)
Definition onlooker : Deity.t :=
  run [OpAction "kill" no_meta; OpAction "heal" mighty] (Deity.new default_opts).

(** A number that [Infinity] exceeds: a real number or [-Infinity]. *)
Definition below_infinity (x : Number) : Prop :=
  match x with
  | Num _ | MinusInfinity => True
  | PlusInfinity | NotANumber => False
  end.

(** A deity that is created with [neglectThreshold: Infinity]. *)
Definition patient : Deity.t :=
  Deity.new (Deity.mkOpts (fun _ => None) None None None None None ∅ None ∅
                          (Some PlusInfinity)).

(** The mood engine that [Mood.deserialize] builds from the snapshot of an
    engine: every field as it was stored, and the personality normalized
    once more by the constructor. *)
Definition renormalized (m : Mood.t) : Mood.t :=
  Mood.mk (Mood.normalize (Mood.personality m)) (Mood.hysteresis m)
          (Mood.attractorStrength m) (Mood._vector m)
          (Mood._lastResolvedTick m).

(* ================================================================== *)
(** * Properties *)

(* ------------------------------------------------------------------ *)
(** ** Numbers and vectors *)

Lemma ltb_true (x y : R) : Js.ltb x y = true <-> x < y.
Proof. unfold Js.ltb. destruct (Rlt_dec x y); split; auto; discriminate. Qed.

Lemma ltb_false (x y : R) : Js.ltb x y = false <-> y <= x.
Proof.
  unfold Js.ltb. destruct (Rlt_dec x y); split; auto; try discriminate; lra.
Qed.

Lemma gtb_true (x y : R) : Js.gtb x y = true <-> y < x.
Proof. apply ltb_true. Qed.

Lemma gtb_false (x y : R) : Js.gtb x y = false <-> x <= y.
Proof. apply ltb_false. Qed.

Lemma is_zero_true (x : R) : Js.is_zero x = true <-> x = 0.
Proof.
  unfold Js.is_zero. destruct (Req_dec_T x 0); split; auto; discriminate.
Qed.

Lemma is_zero_false (x : R) : Js.is_zero x = false <-> x <> 0.
Proof.
  unfold Js.is_zero. destruct (Req_dec_T x 0); split; auto; try discriminate.
  intros H; contradiction.
Qed.

(** Case analysis on a comparison of the source that stands in the goal. *)
Ltac case_cmp :=
  match goal with
  | |- context [Js.gtb ?x ?y] =>
      let E := fresh "E" in
      destruct (Js.gtb x y) eqn:E;
      [apply gtb_true in E | apply gtb_false in E]
  | |- context [Js.ltb ?x ?y] =>
      let E := fresh "E" in
      destruct (Js.ltb x y) eqn:E;
      [apply ltb_true in E | apply ltb_false in E]
  end.

Lemma or0_id (x : R) : Js.or0 x = x.
Proof.
  unfold Js.or0. destruct (Js.is_zero x) eqn:E; [|reflexivity].
  apply is_zero_true in E. congruence.
Qed.

Lemma get_tabulate (f : Dim -> R) (d : Dim) : get (tabulate f) d = f d.
Proof. destruct d; reflexivity. Qed.

Lemma tabulate_get (v : Vec) : tabulate (get v) = v.
Proof. destruct v; reflexivity. Qed.

Lemma vec_ext (u v : Vec) : (forall d, get u d = get v d) -> u = v.
Proof.
  intros H. rewrite <- (tabulate_get u), <- (tabulate_get v).
  unfold tabulate. f_equal; apply H.
Qed.

Lemma sum_dims_unfold (f : Dim -> R) :
  sum_dims f =
  f wrath + f serenity + f hunger + f amusement + f sorrow + f chaos.
Proof. unfold sum_dims, DIMENSIONS. simpl. lra. Qed.

Lemma get_bump (d d' : Dim) (x : R) (v : Vec) :
  get (bump d x v) d' = if decide (d' = d) then get v d' + x else get v d'.
Proof. unfold bump. apply get_tabulate. Qed.

Lemma uniform_simplex : simplex uniform.
Proof.
  split.
  - intros d. unfold uniform. rewrite get_tabulate. lra.
  - rewrite sum_dims_unfold. unfold uniform. rewrite !get_tabulate. lra.
Qed.

(** What [normalize] does to a vector [v]. *)
Section Normalize.

Variable v : Vec.

Lemma clamped_nonneg (d : Dim) : 0 <= clamped v d.
Proof. apply Rmax_l. Qed.

Lemma clamped_sum_nonneg : 0 <= sum_dims (clamped v).
Proof.
  rewrite sum_dims_unfold.
  pose proof (clamped_nonneg wrath). pose proof (clamped_nonneg serenity).
  pose proof (clamped_nonneg hunger). pose proof (clamped_nonneg amusement).
  pose proof (clamped_nonneg sorrow). pose proof (clamped_nonneg chaos).
  lra.
Qed.

Lemma normalize_cases :
  (sum_dims (clamped v) = 0 /\ Mood.normalize v = uniform) \/
  (0 < sum_dims (clamped v) /\
   Mood.normalize v = tabulate (fun d => clamped v d / sum_dims (clamped v))).
Proof.
  unfold Mood.normalize. fold (clamped v).
  change (fun d => Rmax 0 (Js.or0 (get v d))) with (clamped v).
  destruct (Js.is_zero (sum_dims (clamped v))) eqn:E.
  - left. apply is_zero_true in E. split; [exact E|].
    unfold uniform. apply vec_ext. intros d. rewrite !get_tabulate.
    simpl. lra.
  - right. apply is_zero_false in E.
    pose proof clamped_sum_nonneg. split; [lra | reflexivity].
Qed.

Lemma normalize_simplex : simplex (Mood.normalize v).
Proof.
  destruct normalize_cases as [[_ ->] | [Hpos ->]].
  - apply uniform_simplex.
  - split.
    + intros d. rewrite get_tabulate.
      apply Rmult_le_pos; [apply clamped_nonneg|].
      left. apply Rinv_0_lt_compat. exact Hpos.
    + rewrite sum_dims_unfold, !get_tabulate.
      rewrite sum_dims_unfold in Hpos |- *.
      field. lra.
Qed.

Lemma normalize_nonpositive :
  (forall d, get v d <= 0) -> Mood.normalize v = uniform.
Proof.
  intros H. destruct normalize_cases as [[_ E] | [Hpos _]]; [exact E|].
  exfalso. rewrite sum_dims_unfold in Hpos.
  assert (Hc : forall d, clamped v d = 0).
  { intros d. unfold clamped. rewrite or0_id. apply Rmax_left. apply H. }
  rewrite !Hc in Hpos. lra.
Qed.

Lemma normalize_fixed : simplex v -> Mood.normalize v = v.
Proof.
  intros [Hnn Hsum].
  assert (Hc : forall d, clamped v d = get v d).
  { intros d. unfold clamped. rewrite or0_id. apply Rmax_right. apply Hnn. }
  assert (Hs : sum_dims (clamped v) = 1).
  { rewrite sum_dims_unfold, !Hc. rewrite sum_dims_unfold in Hsum. exact Hsum. }
  destruct normalize_cases as [[E _] | [_ ->]]; [lra|].
  apply vec_ext. intros d. rewrite get_tabulate, Hs, Hc. lra.
Qed.

End Normalize.

Create HintDb mood_simplex.

#[global] Hint Resolve uniform_simplex normalize_simplex : mood_simplex.

(* ------------------------------------------------------------------ *)
(** ** The model on a small history *)

Example short_history_reads :
  Ledger.size short_history = 3%nat /\
  Ledger.ticksSinceLast "offer" short_history = Finite 3 /\
  Ledger.ticksSinceLast "pray" short_history = Finite 2 /\
  Ledger.ticksSinceLast "desecrate" short_history = Infinity /\
  Ledger.currentStreak "pray" short_history = 2%nat /\
  Ledger.currentStreak "offer" short_history = 0%nat /\
  Ledger.variety short_history = 2%nat /\
  map type (Ledger.recent 2 short_history) = ["pray"; "pray"] /\
  map tick (Ledger.recent 2 short_history) = [1%Z; 0%Z] /\
  map type (Ledger.recent 5 short_history) = ["pray"; "pray"; "offer"].
Proof. repeat split; reflexivity. Qed.

Example supplicant_predicts_the_majority :
  let s := fst (Supplicant.record "pray"
             (fst (Supplicant.record "offer"
                (fst (Supplicant.record "offer" (Supplicant.new None)))))) in
  Supplicant._lastPrediction s = Some "offer" /\
  Supplicant._totalInteractions s = 3%nat /\
  Supplicant._correctPredictions s = 1%nat /\
  Supplicant._history s = ["offer"; "offer"; "pray"] /\
  Supplicant._freq s !! "offer" = Some 2%nat /\
  snd (Supplicant.record "offer" s) = mkSignal (Some "offer") false.
Proof. repeat split; reflexivity. Qed.

(** The first tick of a deity nobody has interacted with records neglect. *)
Example first_tick_records_neglect :
  let d := fst (Deity.tick 1 (Deity.new default_opts)) in
  Ledger._entries (Deity.ledger d) = [mkEntry "neglect" 1 Deity.neglect_meta] /\
  Supplicant._history (Deity.supplicant d) = ["neglect"] /\
  Deity._tick d = 1%Z /\
  Mood._lastResolvedTick (Deity.mood d) = 1%Z.
Proof. repeat split; reflexivity. Qed.

(* ------------------------------------------------------------------ *)
(** ** The simplex invariant of the mood engine *)

Lemma fromPartial_total (v : Vec) :
  Mood.fromPartial (fun d => Some (get v d)) = v.
Proof. unfold Mood.fromPartial. apply tabulate_get. Qed.

Lemma new_well_formed (p : Mood.Partial) (hyst att : option R) :
  well_formed (Mood.new p hyst att).
Proof. split; apply normalize_simplex. Qed.

Lemma resolve_well_formed (ledger : Ledger.t) (currentTick : Z) (m : Mood.t) :
  well_formed m -> well_formed (Mood.resolve ledger currentTick m).
Proof.
  intros [Hp Hv]. unfold Mood.resolve.
  destruct (currentTick =? Mood._lastResolvedTick m)%Z; split; simpl; auto.
  apply normalize_simplex.
Qed.

Lemma restore_well_formed (m : Mood.t) :
  well_formed m -> well_formed (Mood.deserialize (Mood.serialize m)).
Proof.
  intros [Hp Hv]. split; simpl; [apply normalize_simplex | exact Hv].
Qed.

#[global] Hint Resolve new_well_formed resolve_well_formed
  restore_well_formed : mood_simplex.

Lemma reachable_well_formed (m : Mood.t) : reachable m -> well_formed m.
Proof. induction 1; auto with mood_simplex. Qed.

Lemma resolve_fresh (ledger : Ledger.t) (currentTick : Z) (m : Mood.t) :
  currentTick <> Mood._lastResolvedTick m ->
  Mood._vector (Mood.resolve ledger currentTick m) =
  Mood.normalize (raw_vector ledger m).
Proof.
  intros H. unfold Mood.resolve.
  destruct (Z.eqb_spec currentTick (Mood._lastResolvedTick m)); [contradiction|].
  reflexivity.
Qed.

Lemma resolve_marks_tick (ledger : Ledger.t) (currentTick : Z) (m : Mood.t) :
  Mood._lastResolvedTick (Mood.resolve ledger currentTick m) = currentTick.
Proof.
  unfold Mood.resolve.
  destruct (Z.eqb_spec currentTick (Mood._lastResolvedTick m)); auto.
Qed.

Lemma resolve_personality (ledger : Ledger.t) (currentTick : Z) (m : Mood.t) :
  Mood.personality (Mood.resolve ledger currentTick m) = Mood.personality m.
Proof.
  unfold Mood.resolve.
  destruct (currentTick =? Mood._lastResolvedTick m)%Z; reflexivity.
Qed.

(** The simplex over the reals, that is, as long as every number that
    [resolve] computes is finite.  In every reachable state of the mood
    engine, after a call of [resolve] every dimension of the vector is at
    least 0 and the six dimensions add up to 1; and when the call resolves
    a new tick and no raw component is positive, the vector is the uniform
    one, 1/6 in every dimension. *)
Theorem resolve_simplex_invariant
    (m : Mood.t) (ledger : Ledger.t) (currentTick : Z) :
  reachable m ->
  let m' := Mood.resolve ledger currentTick m in
  (forall d, 0 <= get (Mood._vector m') d) /\
  sum_dims (get (Mood._vector m')) = 1 /\
  Rabs (sum_dims (get (Mood._vector m')) - 1) <= 1e-6 /\
  (currentTick <> Mood._lastResolvedTick m ->
   (forall d, get (raw_vector ledger m) d <= 0) ->
   forall d, get (Mood._vector m') d = 1 / 6).
Proof.
  intros Hr m'.
  destruct (resolve_well_formed ledger currentTick m
              (reachable_well_formed m Hr)) as [_ [Hnn Hsum]].
  fold m' in Hnn, Hsum.
  repeat split; auto.
  - rewrite Hsum. replace (1 - 1) with 0 by lra. rewrite Rabs_R0. lra.
  - intros Hfresh Hraw d. unfold m'.
    rewrite (resolve_fresh _ _ _ Hfresh), (normalize_nonpositive _ Hraw).
    unfold uniform. apply get_tabulate.
Qed.

(** The impulse of a ledger without entries: only the neglect factor, at
    its ceiling, contributes. *)
Lemma impulse_empty (h : option R) :
  Mood._computeImpulse (Ledger.new h) = mkVec 0 (- 0.03) 0.05 0 0.04 0.
Proof.
  assert (G : Js.gtb 0 0 = false) by (apply gtb_false; lra).
  assert (L : Js.ltb 0 0 = false) by (apply ltb_false; lra).
  unfold Mood._computeImpulse, Mood.offerImpact, Ledger.ofType,
    Ledger.weightedCount, Ledger.currentStreak, Ledger.ticksSinceLast,
    Ledger.variety, Ledger.size, Ledger.new.
  simpl. rewrite G, L. simpl.
  apply vec_ext. intros d.
  rewrite !get_bump, get_tabulate.
  replace (Rmin (0 * 0.02) 0.1) with 0
    by (unfold Rmin; destruct (Rle_dec _ _); lra).
  destruct d; simpl; repeat (destruct (decide _); try discriminate); lra.
Qed.

Lemma brooding_vector :
  Mood._vector (Mood.new brooding (Some 100) None) =
  mkVec 0 (1 / 3) (1 / 3) 0 (1 / 3) 0.
Proof.
  simpl. change brooding with
    (fun d => Some (get (mkVec 0 (1 / 3) (1 / 3) 0 (1 / 3) 0) d)).
  rewrite fromPartial_total. apply normalize_fixed. split.
  - intros d; destruct d; simpl; lra.
  - rewrite sum_dims_unfold. simpl. lra.
Qed.

Lemma brooding_raw (d : Dim) :
  get (raw_vector (Ledger.new None) (Mood.new brooding (Some 100) None)) d <= 0.
Proof.
  unfold raw_vector. rewrite get_tabulate.
  unfold Mood.raw_dim, Mood._computeAttractor.
  rewrite impulse_empty, get_tabulate, or0_id.
  change (Mood.personality (Mood.new brooding (Some 100) None))
    with (Mood._vector (Mood.new brooding (Some 100) None)).
  rewrite brooding_vector.
  change (Mood.hysteresis (Mood.new brooding (Some 100) None)) with 100.
  change (Mood.attractorStrength (Mood.new brooding (Some 100) None)) with 0.05.
  destruct d; simpl; case_cmp; lra.
Qed.

Lemma resolve_simplex_invariant_witness :
  let m' := Mood.resolve (Ledger.new None) 0
              (Mood.new brooding (Some 100) None) in
  (forall d, 0 <= get (Mood._vector m') d) /\
  sum_dims (get (Mood._vector m')) = 1 /\
  (forall d, get (Mood._vector m') d = 1 / 6).
Proof.
  destruct (resolve_simplex_invariant
              (Mood.new brooding (Some 100) None) (Ledger.new None) 0
              (reach_new brooding (Some 100) None))
    as (Hnn & Hsum & _ & Huni).
  repeat split; auto.
  apply Huni; [discriminate | apply brooding_raw].
Defined.

(* ------------------------------------------------------------------ *)
(** ** The resolution formula *)

Lemma raw_dim_spec (m : Mood.t) (impulse : Vec) (d : Dim) :
  Mood.raw_dim m impulse (Mood._computeAttractor m) d = spec_shifted m impulse d.
Proof.
  unfold Mood.raw_dim, spec_shifted, spec_effectiveDelta, spec_delta,
    Mood._computeAttractor.
  rewrite get_tabulate, or0_id. unfold Js.gtb, Js.ltb.
  destruct (Rlt_dec 0 _); reflexivity.
Qed.

Lemma some_positive_or_none (f : Dim -> R) :
  (forall d, f d <= 0) \/ (exists d, 0 < f d).
Proof.
  destruct (Rle_dec (f wrath) 0); [|right; exists wrath; lra].
  destruct (Rle_dec (f serenity) 0); [|right; exists serenity; lra].
  destruct (Rle_dec (f hunger) 0); [|right; exists hunger; lra].
  destruct (Rle_dec (f amusement) 0); [|right; exists amusement; lra].
  destruct (Rle_dec (f sorrow) 0); [|right; exists sorrow; lra].
  destruct (Rle_dec (f chaos) 0); [|right; exists chaos; lra].
  left. intros d; destruct d; assumption.
Qed.

Lemma clamped_positive (v : Vec) :
  (exists d, 0 < get v d) -> 0 < sum_dims (clamped v).
Proof.
  intros [d Hd].
  assert (Hc : 0 < clamped v d).
  { unfold clamped. rewrite or0_id.
    apply Rlt_le_trans with (get v d); [exact Hd | apply Rmax_r]. }
  rewrite sum_dims_unfold.
  pose proof (clamped_nonneg v wrath). pose proof (clamped_nonneg v serenity).
  pose proof (clamped_nonneg v hunger). pose proof (clamped_nonneg v amusement).
  pose proof (clamped_nonneg v sorrow). pose proof (clamped_nonneg v chaos).
  destruct d; lra.
Qed.

(** C2, as the code has it.  A call of [resolve] for the tick that was
    resolved last changes nothing.  A call for any other tick gives every
    dimension the raw value [current + effectiveDelta], with
    [delta = impulse + (personality - current) * attractorStrength] and
    [effectiveDelta = delta * (1 - current*hysteresis)] for a positive
    [delta] and [delta * (1 + current*hysteresis)] otherwise; the new vector
    is the raw one with negative components clamped to 0 and divided by the
    sum of the clamped components, or the uniform vector when no raw
    component is positive; the tick is remembered as resolved. *)
Theorem resolve_formula (m : Mood.t) (ledger : Ledger.t) (currentTick : Z) :
  let impulse := Mood._computeImpulse ledger in
  let raw := spec_shifted m impulse in
  let m' := Mood.resolve ledger currentTick m in
  (currentTick = Mood._lastResolvedTick m -> m' = m) /\
  (currentTick <> Mood._lastResolvedTick m ->
   (((forall d, raw d <= 0) /\
     forall d, get (Mood._vector m') d = 1 / 6)
    \/
    ((exists d, 0 < raw d) /\
     forall d, get (Mood._vector m') d =
               Rmax 0 (raw d) / sum_dims (fun d' => Rmax 0 (raw d'))))
   /\ Mood._lastResolvedTick m' = currentTick
   /\ Mood.personality m' = Mood.personality m).
Proof.
  intros impulse raw m'. split.
  { intros E. unfold m', Mood.resolve.
    apply Z.eqb_eq in E. rewrite E. reflexivity. }
  intros Hfresh.
  assert (Hraw : forall d, get (raw_vector ledger m) d = raw d).
  { intros d. unfold raw_vector. rewrite get_tabulate. apply raw_dim_spec. }
  assert (Hcl : forall d, clamped (raw_vector ledger m) d = Rmax 0 (raw d)).
  { intros d. unfold clamped. rewrite or0_id, Hraw. reflexivity. }
  split; [|split].
  - unfold m'. rewrite (resolve_fresh _ _ _ Hfresh).
    destruct (some_positive_or_none raw) as [Hnp | Hpos].
    + left. split; [exact Hnp|]. intros d.
      rewrite normalize_nonpositive.
      * unfold uniform. apply get_tabulate.
      * intros d'. rewrite Hraw. apply Hnp.
    + right. split; [exact Hpos|]. intros d.
      destruct (normalize_cases (raw_vector ledger m)) as [[E _] | [_ ->]].
      * exfalso.
        assert (0 < sum_dims (clamped (raw_vector ledger m))).
        { apply clamped_positive. destruct Hpos as [d' Hd'].
          exists d'. rewrite Hraw. exact Hd'. }
        lra.
      * rewrite get_tabulate, Hcl.
        rewrite !sum_dims_unfold, !Hcl. reflexivity.
  - unfold m'. apply resolve_marks_tick.
  - unfold m'. apply resolve_personality.
Qed.

(** A second call for the same tick changes nothing, whatever the ledger
    holds by then. *)
Lemma resolve_again (ledger ledger' : Ledger.t) (currentTick : Z) (m : Mood.t) :
  Mood.resolve ledger' currentTick (Mood.resolve ledger currentTick m)
  = Mood.resolve ledger currentTick m.
Proof.
  unfold Mood.resolve at 1. rewrite resolve_marks_tick, Z.eqb_refl.
  reflexivity.
Qed.

Lemma resolve_formula_witness :
  Mood._lastResolvedTick (Mood.resolve (Ledger.new None) 1 plain_mood) = 1%Z.
Proof.
  apply (resolve_formula plain_mood (Ledger.new None) 1). discriminate.
Defined.

Lemma plain_vector : Mood._vector plain_mood = uniform.
Proof.
  unfold plain_mood, Mood.new. cbn [Mood._vector].
  assert (E : Mood.fromPartial (fun _ => None) = uniform).
  { apply vec_ext. intros d. unfold Mood.fromPartial, uniform.
    rewrite !get_tabulate. simpl. rewrite Rmax_right by lra. lra. }
  rewrite E. apply normalize_fixed, uniform_simplex.
Qed.

(** The raw values of the first resolution of a plain engine on a ledger
    without entries. *)
Lemma plain_raw :
  let raw := spec_shifted plain_mood (Mood._computeImpulse (Ledger.new None)) in
  raw wrath = 1 / 6 /\ raw serenity = 1 / 6 - 0.0315 /\
  raw hunger = 1 / 6 + 0.0475 /\ raw amusement = 1 / 6 /\
  raw sorrow = 1 / 6 + 0.038 /\ raw chaos = 1 / 6.
Proof.
  intros raw. unfold raw, spec_shifted, spec_delta, spec_effectiveDelta.
  rewrite impulse_empty.
  change (Mood.personality plain_mood) with (Mood._vector plain_mood).
  rewrite plain_vector.
  change (Mood.hysteresis plain_mood) with 0.3.
  change (Mood.attractorStrength plain_mood) with 0.05.
  unfold uniform. rewrite !get_tabulate. simpl.
  repeat split; destruct (Rlt_dec _ _); lra.
Qed.

(** A fresh engine counts tick -1 as resolved: [resolve] for that tick
    applies no change, where the formula moves hunger from 1/6 to
    (1/6 + 0.0475) / 1.054. *)
Lemma resolved_tick_is_kept :
  let ledger := Ledger.new None in
  let raw := spec_shifted plain_mood (Mood._computeImpulse ledger) in
  Mood._lastResolvedTick plain_mood = (-1)%Z /\
  Mood.resolve ledger (-1) plain_mood = plain_mood /\
  get (Mood._vector (Mood.resolve ledger (-1) plain_mood)) hunger = 1 / 6 /\
  Rmax 0 (raw hunger) / sum_dims (fun d => Rmax 0 (raw d)) <> 1 / 6.
Proof.
  intros ledger raw.
  split; [reflexivity|]. split; [reflexivity|]. split.
  - change (Mood.resolve ledger (-1) plain_mood) with plain_mood.
    rewrite plain_vector. unfold uniform. apply get_tabulate.
  - destruct plain_raw as (Hw & Hs & Hh & Ha & Ho & Hc).
    fold ledger in Hw, Hs, Hh, Ha, Ho, Hc. fold raw in Hw, Hs, Hh, Ha, Ho, Hc.
    rewrite sum_dims_unfold, Hw, Hs, Hh, Ha, Ho, Hc.
    rewrite !Rmax_right by lra.
    replace (1 / 6 + (1 / 6 - 0.0315) + (1 / 6 + 0.0475) + 1 / 6
             + (1 / 6 + 0.038) + 1 / 6) with 1.054 by lra.
    lra.
Qed.

(* ------------------------------------------------------------------ *)
(** ** Decay of the weight of an entry *)

Lemma ln_half_neg : ln 0.5 < 0.
Proof. rewrite <- ln_1. apply ln_increasing; lra. Qed.

Lemma Rpower_half_antitone (x y : R) : x <= y -> Rpower 0.5 y <= Rpower 0.5 x.
Proof.
  intros H. unfold Rpower. pose proof ln_half_neg.
  destruct (Req_dec (y * ln 0.5) (x * ln 0.5)) as [-> | Hne]; [lra|].
  left. apply exp_increasing. nra.
Qed.

Lemma Rpower_half_range (x : R) : 0 <= x -> 0 < Rpower 0.5 x <= 1.
Proof.
  intros H. split; [apply exp_pos|].
  replace 1 with (Rpower 0.5 0) by (unfold Rpower; rewrite Rmult_0_l; apply exp_0).
  apply Rpower_half_antitone. exact H.
Qed.




(* ------------------------------------------------------------------ *)
(** ** Reads between two ticks *)

Lemma modulate_keeps (sig : Signal) (d : Deity.t) :
  Deity.mood (Deity._modulateFromSurprise sig d) = Deity.mood d /\
  Deity._tick (Deity._modulateFromSurprise sig d) = Deity._tick d /\
  Deity.supplicant (Deity._modulateFromSurprise sig d) = Deity.supplicant d /\
  Deity._listeners (Deity._modulateFromSurprise sig d) = Deity._listeners d /\
  Deity._alignment (Deity._modulateFromSurprise sig d) = Deity._alignment d.
Proof.
  unfold Deity._modulateFromSurprise.
  destruct (predicted sig); [|auto].
  destruct (surprised sig); [auto|].
  destruct (Supplicant.omniscient _); auto.
Qed.

(** Rewrites the mood engine and the tick under [_modulateFromSurprise]. *)
Ltac modulate_away :=
  match goal with
  | |- context [Deity._modulateFromSurprise ?s ?x] =>
      destruct (modulate_keeps s x) as (-> & -> & _)
  end.

(** No call other than [tick] touches the mood engine or the tick counter. *)
Lemma run_op_keeps_mood (op : Op) (d : Deity.t) :
  Deity.mood (run_op op d) = Deity.mood d /\
  Deity._tick (run_op op d) = Deity._tick d.
Proof.
  destruct op; simpl; auto.
  - unfold Deity.offer. modulate_away. auto.
  - unfold Deity.pray. modulate_away. auto.
  - unfold Deity.desecrate. modulate_away. auto.
  - unfold Deity.on. destruct (Deity._listeners d !! event); [auto|].
    destruct (bool_decide _); auto.
  - unfold Deity.unsubscribe. destruct (Deity._listeners d !! event); auto.
Qed.

Lemma run_keeps_mood (ops : list Op) (d : Deity.t) :
  Deity.mood (run ops d) = Deity.mood d /\
  Deity._tick (run ops d) = Deity._tick d.
Proof.
  revert d. induction ops as [|op ops IH]; intros d; [auto|].
  unfold run in *. simpl.
  destruct (IH (run_op op d)) as [-> ->]. apply run_op_keeps_mood.
Qed.

Lemma index_of_position (d : Dim) : DIMENSIONS !! index_of d = Some d.
Proof. destruct d; reflexivity. Qed.

Lemma clamp01_range (x : R) : 0 <= Js.clamp01 x <= 1.
Proof.
  unfold Js.clamp01. split; [apply Rmax_l|].
  apply Rmax_lub; [lra | apply Rmin_l].
Qed.

(** C4.  Whatever is called on a deity between two ticks (reads in either
    precision mode, interactions, subscriptions), [query()] and the precise
    read return what they returned before.  The precise read is the current
    vector.  The imprecise read depends on the current vector alone: with
    [p d] the value of dimension [d] plus [sin(v*1000 + i) * 0.02], [i] the
    index of [d], clamped to [0,1], it is [p d] divided by the sum of all
    [p], or the uniform vector when that sum is 0. *)
Theorem query_deterministic (ops : list Op) (d : Deity.t) :
  Deity.query (run ops d) = Deity.query d /\
  Deity._queryPrecise (run ops d) = Deity._queryPrecise d /\
  Mood.query true (Deity.mood d) = Mood._vector (Deity.mood d) /\
  (forall dim, DIMENSIONS !! index_of dim = Some dim) /\
  let v := Mood._vector (Deity.mood d) in
  let p := fun dim => spec_perturbed (get v dim) (index_of dim) in
  (sum_dims p = 0 /\
   forall dim, get (Mood.query false (Deity.mood d)) dim = 1 / 6)
  \/
  (0 < sum_dims p /\
   forall dim, get (Mood.query false (Deity.mood d)) dim = p dim / sum_dims p).
Proof.
  destruct (run_keeps_mood ops d) as [Hm Ht].
  split; [|split; [|split; [|split]]].
  - unfold Deity.query. rewrite Hm, Ht. reflexivity.
  - unfold Deity._queryPrecise. rewrite Hm. reflexivity.
  - reflexivity.
  - apply index_of_position.
  - intros v p. unfold Mood.query.
    set (out := tabulate _).
    assert (Hout : forall dim, get out dim = p dim).
    { intros dim. unfold out. rewrite get_tabulate. reflexivity. }
    assert (Hcl : forall dim, clamped out dim = p dim).
    { intros dim. unfold clamped. rewrite or0_id, Hout.
      apply Rmax_right. apply clamp01_range. }
    assert (Hsum : sum_dims (clamped out) = sum_dims p).
    { rewrite !sum_dims_unfold, !Hcl. reflexivity. }
    destruct (normalize_cases out) as [[E ->] | [Hpos ->]].
    + left. split; [lra|]. intros dim. unfold uniform. apply get_tabulate.
    + right. split; [lra|]. intros dim.
      rewrite get_tabulate, Hcl, Hsum. reflexivity.
Qed.

(* ------------------------------------------------------------------ *)
(** ** Snapshots *)

Lemma copy_entry_id (e : Entry) : Ledger.copy_entry e = e.
Proof.
  destruct e as [ty tk m]. unfold Ledger.copy_entry. simpl. f_equal.
  destruct m. unfold spread. simpl.
  f_equal; match goal with |- match ?o with _ => _ end = _ =>
             destruct o; reflexivity end.
Qed.

Lemma ledger_round_trip (l : Ledger.t) :
  Ledger.deserialize (Ledger.serialize l) = l.
Proof.
  destruct l as [h es t]. unfold Ledger.deserialize, Ledger.serialize. simpl.
  f_equal. rewrite map_map. rewrite <- (map_id es) at 2.
  apply map_ext. intros e. rewrite !copy_entry_id. reflexivity.
Qed.


Lemma supplicant_round_trip (s : Supplicant.t) :
  Supplicant.deserialize (Supplicant.serialize s) = s.
Proof. destruct s. reflexivity. Qed.

Lemma new_deity_well_formed (o : Deity.Opts) :
  well_formed (Deity.mood (Deity.new o)).
Proof. apply new_well_formed. Qed.

Lemma run_well_formed (ops : list Op) (d : Deity.t) :
  well_formed (Deity.mood d) -> well_formed (Deity.mood (run ops d)).
Proof. destruct (run_keeps_mood ops d) as [-> _]. auto. Qed.

Lemma checkEvents_state (d : Deity.t) :
  fst (Deity._checkEvents d)
  = Deity.with_prevDominant (fst (Mood.dominant (Deity.mood d))) d.
Proof. reflexivity. Qed.

(** The ledger on which a tick step resolves the mood: the tick advanced,
    and a neglect entry recorded when the least distance to an offer, a
    prayer or a desecration exceeds the threshold. *)
Lemma tick_step_ledger (d : Deity.t) :
  let l1 := Ledger.advanceTick 1 (Deity.ledger d) in
  let least :=
    ticks_min (ticks_min (Ledger.ticksSinceLast "offer" l1)
                         (Ledger.ticksSinceLast "pray" l1))
              (Ledger.ticksSinceLast "desecrate" l1) in
  let l2 := if ticks_gtb least (Deity._neglectThreshold d)
            then Ledger.record "neglect" Deity.neglect_meta l1 else l1 in
  Deity.ledger (fst (Deity.tick_step d)) = l2 /\
  Deity.mood (fst (Deity.tick_step d))
    = Mood.resolve l2 (Deity._tick d + 1) (Deity.mood d) /\
  Deity._tick (fst (Deity.tick_step d)) = (Deity._tick d + 1)%Z.
Proof.
  intros l1 least l2. unfold Deity.tick_step. rewrite checkEvents_state.
  cbn [Deity.with_tick Deity.with_ledger Deity.ledger Deity._neglectThreshold
       Deity._tick Deity.mood Deity.with_prevDominant Deity.with_mood].
  fold l1. fold least. unfold l2.
  destruct (ticks_gtb least (Deity._neglectThreshold d)); simpl; auto.
Qed.

Lemma tick_step_well_formed (d : Deity.t) :
  well_formed (Deity.mood d) ->
  well_formed (Deity.mood (fst (Deity.tick_step d))).
Proof.
  intros H. destruct (tick_step_ledger d) as (_ & -> & _).
  apply resolve_well_formed. exact H.
Qed.

Lemma tick_loop_steps (n : nat) (d : Deity.t) :
  fst (Deity.tick_loop n d) = steps n d.
Proof.
  revert d. induction n as [|n IH]; intros d; [reflexivity|].
  simpl. apply IH.
Qed.





(* ------------------------------------------------------------------ *)
(** ** The tick loop *)

Lemma tick_loop_calls (n : nat) (d : Deity.t) :
  snd (Deity.tick_loop (S n) d)
  = snd (Deity.tick_step d)
    ++ snd (Deity.tick_loop n (fst (Deity.tick_step d))).
Proof. reflexivity. Qed.

Lemma steps_counters (n : nat) (d : Deity.t) :
  Deity._tick (steps n d) = (Deity._tick d + Z.of_nat n)%Z /\
  Ledger._tick (Deity.ledger (steps n d))
    = (Ledger._tick (Deity.ledger d) + Z.of_nat n)%Z.
Proof.
  revert d. induction n as [|n IH]; intros d.
  - simpl. split; lia.
  - cbn [steps]. destruct (IH (fst (Deity.tick_step d))) as [-> ->].
    destruct (tick_step_ledger d) as (-> & _ & ->).
    split; [lia|].
    destruct (ticks_gtb _ _); simpl; lia.
Qed.

Lemma tick_one (d : Deity.t) : Deity.tick 1 d = Deity.tick_step d.
Proof.
  unfold Deity.tick. change (Z.to_nat 1) with 1%nat.
  cbn [Deity.tick_loop fst snd]. rewrite app_nil_r.
  destruct (Deity.tick_step d); reflexivity.
Qed.

Lemma last_of_skip (ty : string) (xs ys : list Entry) :
  Forall (fun e => type e <> ty) xs ->
  Ledger.last_of ty (xs ++ ys) = Ledger.last_of ty ys.
Proof.
  induction 1 as [|x xs Hx _ IH]; [reflexivity|].
  cbn [app Ledger.last_of].
  destruct (String.eqb_spec (type x) ty); [contradiction | exact IH].
Qed.

Lemma last_of_split (ty : string) (xs : list Entry) (e : Entry) :
  Ledger.last_of ty xs = Some e ->
  exists pre post,
    xs = pre ++ e :: post /\ type e = ty /\
    Forall (fun e' => type e' <> ty) pre.
Proof.
  induction xs as [|x xs IH]; cbn [Ledger.last_of]; [discriminate|].
  destruct (String.eqb_spec (type x) ty) as [E|E].
  - intros [= <-]. exists [], xs. auto.
  - intros H. destruct (IH H) as (pre & post & -> & Ht & Hpre).
    exists (x :: pre), post. auto.
Qed.

Lemma Forall_rev_kind (ty : string) (es : list Entry) :
  Forall (fun e => type e <> ty) es ->
  Forall (fun e => type e <> ty) (rev es).
Proof.
  rewrite !Forall_forall. intros H x Hx. apply H.
  apply list_elem_of_In, in_rev, list_elem_of_In, Hx.
Qed.

(** [ticksSinceLast] counts from the newest entry of the kind, and is
    [Infinity] when there is none. *)
Lemma ticksSinceLast_newest (ty : string) (l : Ledger.t) :
  (forall e, newest_of ty (Ledger._entries l) e ->
     Ledger.ticksSinceLast ty l = Finite (Ledger._tick l - tick e)) /\
  (forall n, Ledger.ticksSinceLast ty l = Finite n ->
     exists e, newest_of ty (Ledger._entries l) e /\
               n = (Ledger._tick l - tick e)%Z).
Proof.
  unfold Ledger.ticksSinceLast. split.
  - intros e (older & newer & -> & Ht & Hn).
    rewrite rev_app_distr. cbn [rev]. rewrite <- app_assoc.
    rewrite last_of_skip by (apply Forall_rev_kind, Hn).
    cbn [app Ledger.last_of]. rewrite <- Ht, String.eqb_refl. reflexivity.
  - intros n.
    destruct (Ledger.last_of ty (rev (Ledger._entries l))) as [e|] eqn:E;
      [|discriminate].
    intros [= <-]. exists e. split; [|reflexivity].
    destruct (last_of_split ty _ e E) as (pre & post & Hr & Ht & Hpre).
    exists (rev post), (rev pre). split; [|split].
    + rewrite <- (rev_involutive (Ledger._entries l)), Hr, rev_app_distr.
      cbn [rev]. rewrite <- app_assoc. reflexivity.
    + exact Ht.
    + apply Forall_rev_kind, Hpre.
Qed.

Lemma ticks_gtb_min (a b : Ticks) (x : R) :
  ticks_gtb (ticks_min a b) (Num x) = true
  <-> ticks_gtb a (Num x) = true /\ ticks_gtb b (Num x) = true.
Proof.
  destruct a as [n|], b as [m|]; cbn [ticks_min ticks_gtb];
    try tauto.
  rewrite !gtb_true.
  destruct (Z.min_spec n m) as [[Hlt ->] | [Hle ->]]; split; try tauto.
  - intros H. split; [exact H|]. apply IZR_lt in Hlt. lra.
  - intros H. split; [|exact H]. apply IZR_le in Hle. lra.
Qed.

Lemma ticks_gtb_newest (ty : string) (l : Ledger.t) (x : R) :
  ticks_gtb (Ledger.ticksSinceLast ty l) (Num x) = true
  <-> forall e, newest_of ty (Ledger._entries l) e ->
                x < IZR (Ledger._tick l - tick e).
Proof.
  destruct (ticksSinceLast_newest ty l) as [H1 H2]. split.
  - intros H e He. rewrite (H1 e He) in H. cbn [ticks_gtb] in H.
    apply gtb_true, H.
  - intros H. destruct (Ledger.ticksSinceLast ty l) as [n|] eqn:E;
      [|reflexivity].
    destruct (H2 n eq_refl) as (e & He & ->).
    cbn [ticks_gtb]. apply gtb_true, H, He.
Qed.

(** The test of [tick] for neglect, on the ledger at its new tick. *)
Lemma neglect_test (l : Ledger.t) (threshold : Number) :
  ticks_gtb
    (ticks_min (ticks_min (Ledger.ticksSinceLast "offer" l)
                          (Ledger.ticksSinceLast "pray" l))
               (Ledger.ticksSinceLast "desecrate" l))
    threshold = true
  <-> spec_neglected (Ledger._entries l) (Ledger._tick l) threshold.
Proof.
  destruct threshold as [x| | |]; cbn [spec_neglected];
    [|split; [discriminate | contradiction] | cbn [ticks_gtb]; tauto
     |split; [discriminate | contradiction]].
  rewrite !ticks_gtb_min, !ticks_gtb_newest. unfold direct. split.
  - intros [[Ho Hp] Hd] ty e [-> | [-> | ->]]; auto.
  - intros H. split; [split|]; intros e He;
      [apply (H "offer" e) | apply (H "pray" e) | apply (H "desecrate" e)];
      auto.
Qed.

(** C6.  A tick step advances the tick of the deity and of the ledger by
    one, takes the least of the distances to the last offer, prayer and
    desecration, records one synthetic neglect entry (as the newest entry)
    when that least distance exceeds the neglect threshold, and only then
    resolves the mood, against the ledger that holds the neglect entry and
    for the new tick, which is thereby marked as resolved; the resolution
    is not skipped as long as no later tick was resolved before.  The
    least distance exceeds the threshold exactly when the newest offer, the
    newest prayer and the newest desecration of the ledger, as far as there
    are any, are each more than the threshold older than the new tick
    (never for a threshold of [Infinity] or [NaN]).
    [tick(n)] is [n] such steps one after the other: the state after
    [n + 1] steps is the state [n] steps after the first step, each step
    resolving its own tick; the calls to listeners are those of the steps
    in order, and both tick counters have advanced by [n]. *)
Theorem tick_sequence (d : Deity.t) :
  let l1 := Ledger.advanceTick 1 (Deity.ledger d) in
  let least :=
    ticks_min (ticks_min (Ledger.ticksSinceLast "offer" l1)
                         (Ledger.ticksSinceLast "pray" l1))
              (Ledger.ticksSinceLast "desecrate" l1) in
  let neglected := ticks_gtb least (Deity._neglectThreshold d) in
  let d1 := fst (Deity.tick_step d) in
  Ledger._tick l1 = (Ledger._tick (Deity.ledger d) + 1)%Z /\
  (neglected = true
   <-> spec_neglected (Ledger._entries (Deity.ledger d))
                      (Ledger._tick (Deity.ledger d) + 1)
                      (Deity._neglectThreshold d)) /\
  Ledger._entries (Deity.ledger d1)
    = (if neglected
       then Ledger._entries (Deity.ledger d)
            ++ [mkEntry "neglect" (Ledger._tick l1) Deity.neglect_meta]
       else Ledger._entries (Deity.ledger d)) /\
  Ledger._tick (Deity.ledger d1) = Ledger._tick l1 /\
  synthetic Deity.neglect_meta = Some true /\
  Deity.mood d1
    = Mood.resolve (Deity.ledger d1) (Deity._tick d + 1) (Deity.mood d) /\
  Deity._tick d1 = (Deity._tick d + 1)%Z /\
  Mood._lastResolvedTick (Deity.mood d1) = Deity._tick d1 /\
  ((Mood._lastResolvedTick (Deity.mood d) <= Deity._tick d)%Z ->
   Mood._vector (Deity.mood d1)
     = Mood.normalize (raw_vector (Deity.ledger d1) (Deity.mood d))) /\
  Deity.tick 1 d = Deity.tick_step d /\
  forall n : nat,
    fst (Deity.tick (Z.of_nat n) d) = steps n d /\
    steps (S n) d = steps n d1 /\
    snd (Deity.tick (Z.of_nat (S n)) d)
      = snd (Deity.tick_step d) ++ snd (Deity.tick (Z.of_nat n) d1) /\
    Deity._tick (steps n d) = (Deity._tick d + Z.of_nat n)%Z /\
    Ledger._tick (Deity.ledger (steps n d))
      = (Ledger._tick (Deity.ledger d) + Z.of_nat n)%Z.
Proof.
  intros l1 least neglected d1.
  destruct (tick_step_ledger d) as (Hl & Hm & Ht).
  fold l1 in Hl, Hm. fold least in Hl, Hm. fold neglected in Hl, Hm.
  fold d1 in Hl, Hm, Ht.
  split; [reflexivity|]. split.
  { apply (neglect_test l1). }
  split.
  { rewrite Hl. destruct neglected; reflexivity. }
  split.
  { rewrite Hl. destruct neglected; reflexivity. }
  split; [reflexivity|]. split.
  { rewrite Hm, Hl. reflexivity. }
  split; [exact Ht|]. split.
  { rewrite Hm, Ht. apply resolve_marks_tick. }
  split.
  { intros Hle. rewrite Hm, Hl. apply resolve_fresh. lia. }
  split; [apply tick_one|].
  intros n. unfold Deity.tick. rewrite !Nat2Z.id.
  split; [apply tick_loop_steps|]. split; [reflexivity|].
  split; [apply tick_loop_calls|]. apply steps_counters.
Qed.

(* ------------------------------------------------------------------ *)
(** ** Feedback from the predictive model *)

(** A synthetic offer adds nothing to the weighted sum of the offers. *)
Lemma offerImpact_synthetic (m : Meta) (l : Ledger.t) :
  synthetic m = Some true ->
  Mood.offerImpact (Ledger.record "offer" m l) = Mood.offerImpact l.
Proof.
  intros Hs. unfold Mood.offerImpact, Ledger.ofType, Ledger.record.
  cbn [Ledger._entries].
  rewrite filter_app, map_app, filter_app, fold_left_app.
  cbn [filter list_filter map type].
  assert (Hw : forall e,
    Ledger._weight
      (Ledger.mk (Ledger._halfLife l)
         (Ledger._entries l ++ [mkEntry "offer" (Ledger._tick l) m])
         (Ledger._tick l)) e = Ledger._weight l e) by reflexivity.
  rewrite (map_ext _ (fun e => (e, Ledger._weight l e)))
    by (intros e; rewrite Hw; reflexivity).
  destruct (decide _) as [_|n]; [|exfalso; apply n; reflexivity].
  cbn [filter list_filter map fst meta].
  rewrite Hs. cbn. reflexivity.
Qed.

(** A signal of the supplicant that reports a surprise carries the
    prediction that failed. *)
Lemma record_surprised_predicted (ty : string) (s : Supplicant.t) :
  surprised (snd (Supplicant.record ty s)) = true ->
  exists p, predicted (snd (Supplicant.record ty s)) = Some p /\ p <> ty.
Proof.
  unfold Supplicant.record. cbn [snd surprised predicted].
  destruct (Supplicant._lastPrediction s) as [p|]; [|discriminate].
  intros H. exists p. split; [reflexivity|].
  intros ->. rewrite String.eqb_refl in H. discriminate.
Qed.

(** C7, as the code has it.  A signal that carries a prediction and reports
    a surprise makes the core record exactly one synthetic offer entry, and
    a synthetic offer adds nothing to the offering-value sum of the impulse;
    a signal that carries a prediction and reports no surprise makes the
    core record one synthetic neglect entry tagged with the reason
    [predictability] when the supplicant is omniscient; in every other case
    nothing is recorded.  The signals of the supplicant carry a prediction
    whenever they report a surprise. *)
Theorem modulate_from_surprise (sig : Signal) (d : Deity.t) :
  let d' := Deity._modulateFromSurprise sig d in
  let now := Ledger._tick (Deity.ledger d) in
  (predicted sig <> None -> surprised sig = true ->
     Ledger._entries (Deity.ledger d')
       = Ledger._entries (Deity.ledger d) ++ [mkEntry "offer" now surprise_bonus]
     /\ Mood.offerImpact (Deity.ledger d') = Mood.offerImpact (Deity.ledger d))
  /\
  (predicted sig <> None -> surprised sig = false ->
   Supplicant.omniscient (Deity.supplicant d) = true ->
     Ledger._entries (Deity.ledger d')
       = Ledger._entries (Deity.ledger d) ++ [mkEntry "neglect" now predictability])
  /\
  (predicted sig = None \/
   (surprised sig = false /\ Supplicant.omniscient (Deity.supplicant d) = false) ->
     d' = d)
  /\
  synthetic surprise_bonus = Some true /\
  synthetic predictability = Some true /\
  reason predictability = Some "predictability" /\
  (forall ty s,
     surprised (snd (Supplicant.record ty s)) = true ->
     predicted (snd (Supplicant.record ty s)) <> None).
Proof.
  intros d' now. unfold d', Deity._modulateFromSurprise.
  split; [|split; [|split]].
  - intros Hp Hs. destruct (predicted sig); [|contradiction]. rewrite Hs.
    split; [reflexivity|]. apply (offerImpact_synthetic surprise_bonus).
    reflexivity.
  - intros Hp Hs Ho. destruct (predicted sig); [|contradiction].
    rewrite Hs, Ho. reflexivity.
  - intros [Hp | [Hs Ho]].
    + rewrite Hp. reflexivity.
    + rewrite Hs, Ho. destruct (predicted sig); reflexivity.
  - repeat split; auto.
    intros ty s H. destruct (record_surprised_predicted ty s H) as (p & -> & _).
    discriminate.
Qed.

Lemma modulate_from_surprise_witness :
  Ledger._entries
    (Deity.ledger
       (Deity._modulateFromSurprise (mkSignal (Some "offer") true)
                                    (Deity.new default_opts)))
  = [mkEntry "offer" 0 surprise_bonus].
Proof.
  apply (modulate_from_surprise (mkSignal (Some "offer") true)
                                (Deity.new default_opts)).
  - discriminate.
  - reflexivity.
Defined.

Lemma watched_supplicant :
  Supplicant._totalInteractions (Deity.supplicant watched) = 13%nat /\
  Supplicant._correctPredictions (Deity.supplicant watched) = 12%nat /\
  Supplicant._lastPrediction (Deity.supplicant watched) = Some "offer".
Proof. repeat split; reflexivity. Qed.

(** After thirteen world actions a prayer is a surprise to a supplicant
    that stays omniscient: the core records the surprise bonus and no
    neglect entry. *)
Lemma surprise_preempts_boredom :
  let d := Deity.pray watched in
  snd (Supplicant.record "pray" (Deity.supplicant watched))
    = mkSignal (Some "offer") true /\
  Supplicant.omniscient (Deity.supplicant d) = true /\
  map type (Ledger._entries (Deity.ledger d))
    = replicate 13 "action" ++ ["pray"; "offer"] /\
  last (Ledger._entries (Deity.ledger d)) = Some (mkEntry "offer" 0 surprise_bonus).
Proof.
  split; [reflexivity|]. split; [|split; reflexivity].
  unfold Supplicant.omniscient.
  change (Supplicant._totalInteractions (Deity.supplicant (Deity.pray watched)))
    with 14%nat.
  change (Supplicant._correctPredictions (Deity.supplicant (Deity.pray watched)))
    with 12%nat.
  cbn [Nat.ltb Nat.leb]. apply gtb_true. simpl. lra.
Qed.

(* ------------------------------------------------------------------ *)
(** ** Subscriptions and tolerated inputs *)

Lemma new_listeners_intact (o : Deity.Opts) : listeners_intact (Deity.new o).
Proof.
  intros event. unfold Deity.new, Deity.no_listeners, Deity.EVENTS.
  cbn [Deity._listeners fold_left].
  rewrite !lookup_insert_is_Some, lookup_empty, is_Some_alt.
  rewrite !elem_of_cons, elem_of_nil.
  split.
  - intros H. intuition (subst; auto).
  - intros H.
    repeat match goal with
           | |- ?k = event ∨ _ =>
               destruct (decide (k = event));
               [left; assumption | right; split; [assumption|]]
           end.
    intuition congruence.
Qed.

Lemma on_listeners_intact (event : string) (fn : Fn) (d d' : Deity.t) :
  listeners_intact d -> Deity.on event fn d = Ok d' -> listeners_intact d'.
Proof.
  intros H. unfold Deity.on.
  destruct (Deity._listeners d !! event) as [fns|] eqn:E.
  - intros [= <-]. intros e. cbn [Deity.with_listeners Deity._listeners].
    rewrite lookup_insert_is_Some, <- (H e).
    destruct (decide (event = e)) as [->|]; [|tauto].
    rewrite E. split; eauto.
  - destruct (bool_decide _); discriminate.
Qed.

(** A subscription to a name outside the enumeration throws, and the deity
    is as it was. *)
Lemma on_unknown_throws (event : string) (fn : Fn) (d : Deity.t) :
  listeners_intact d ->
  event ∉ Deity.EVENTS ->
  exists e, Deity.on event fn d = Throw e d.
Proof.
  intros H Hn. unfold Deity.on.
  destruct (Deity._listeners d !! event) as [fns|] eqn:E.
  - exfalso. apply Hn, H. rewrite E. eauto.
  - destruct (bool_decide _); eauto.
Qed.

(** A subscription to a name of the enumeration stores the callback. *)
Lemma on_known_subscribes (event : string) (fn : Fn) (d : Deity.t) :
  listeners_intact d ->
  event ∈ Deity.EVENTS ->
  exists fns,
    Deity._listeners d !! event = Some fns /\
    Deity.on event fn d
      = Ok (Deity.with_listeners
              (<[event := fns ++ [fn]]> (Deity._listeners d)) d).
Proof.
  intros H Hin. apply H in Hin. destruct Hin as [fns E].
  exists fns. split; [exact E|]. unfold Deity.on. rewrite E. reflexivity.
Qed.

(** The effective value of an offering is computed from the clamped value,
    and an offering without a value counts as 0.3. *)
Lemma offer_value_clamped (m : Meta) :
  0 <= Js.clamp01 (Js.nullish (value m) 0.3) <= 1 /\
  (value m = None -> Js.clamp01 (Js.nullish (value m) 0.3) = 0.3).
Proof.
  split; [apply clamp01_range|].
  intros ->. unfold Js.clamp01, Js.nullish.
  rewrite Rmin_right by lra. apply Rmax_right. lra.
Qed.

(** The entry that [action] records carries the magnitude that the caller
    gave, whatever its size; the clamped magnitude is recorded only when
    the caller gave none, and is then 0.3. *)
Lemma action_records (ty : string) (m : Meta) (d : Deity.t) :
  exists e,
    Ledger._entries (Deity.ledger (Deity.action ty m d))
    = Ledger._entries (Deity.ledger d) ++ [e] /\
    type e = "action" /\
    (forall x, magnitude m = Some x -> magnitude (meta e) = Some x) /\
    (magnitude m = None -> magnitude (meta e) = Some 0.3).
Proof.
  eexists. split; [reflexivity|]. cbn [type meta]. split; [reflexivity|].
  unfold spread. cbn [magnitude]. split.
  - intros x ->. reflexivity.
  - intros ->. cbn [Js.nullish]. f_equal.
    unfold Js.clamp01. rewrite Rmin_right by lra. apply Rmax_right. lra.
Qed.

(** C8, where the code departs from it.  A world action reported with
    magnitude 50 is recorded with magnitude 50, not 1: the metadata of the
    caller is spread over the clamped magnitude; the loop over world
    actions reads the recorded magnitude, so the impact of the action at
    weight 1 is 0.2 * 50 = 10 and it raises the serenity impulse by 0.3
    where the clamped magnitude would raise it by 0.006. *)
Theorem action_magnitude_not_clamped :
  let d := Deity.action "heal" mighty (Deity.new default_opts) in
  exists e,
    Ledger._entries (Deity.ledger d) = [e] /\
    type e = "action" /\
    favor (meta e) = Some 0.2 /\
    magnitude (meta e) = Some 50 /\
    Js.clamp01 50 = 1 /\
    get (Mood.action_step (tabulate (fun _ => 0)) (e, 1)) serenity = 0.3.
Proof.
  eexists. split; [reflexivity|]. cbn [type meta].
  split; [reflexivity|]. split; [reflexivity|]. split; [reflexivity|].
  split.
  - unfold Js.clamp01. rewrite Rmin_left by lra. apply Rmax_right. lra.
  - unfold Mood.action_step.
    cbn [fst snd meta spread favor magnitude mighty Js.nullish].
    change (Deity._favorMap (Deity.new default_opts) !! "heal") with (Some 0.2).
    cbn [Js.nullish].
    assert (G : Js.gtb (0.2 * 50 * 1) 0 = true) by (apply gtb_true; lra).
    rewrite G. rewrite !get_bump, get_tabulate.
    repeat (destruct (decide _); try discriminate); try contradiction. lra.
Qed.

(* ------------------------------------------------------------------ *)
(** ** Recent entries *)

Lemma slice_from_negative {A} (n : Z) (l : list A) :
  (0 < n)%Z -> Js.slice_from (- n) l = last_n (Z.to_nat n) l.
Proof.
  intros Hn. unfold Js.slice_from, last_n.
  destruct (Z.ltb_spec (- n) 0); [|lia].
  f_equal. lia.
Qed.

(** For a positive [n], [recent(n)] is the last [n] entries, newest first,
    and all entries when there are fewer. *)
Lemma recent_positive (n : Z) (l : Ledger.t) :
  (0 < n)%Z ->
  Ledger.recent n l = rev (last_n (Z.to_nat n) (Ledger._entries l)) /\
  Ledger.recent n l = take (Z.to_nat n) (rev (Ledger._entries l)) /\
  ((Z.of_nat (Ledger.size l) <= n)%Z ->
   Ledger.recent n l = rev (Ledger._entries l)).
Proof.
  intros Hn. unfold Ledger.recent. rewrite (slice_from_negative n _ Hn).
  split; [reflexivity|]. unfold last_n. split.
  - symmetry. apply firstn_rev.
  - intros Hs. unfold Ledger.size in Hs.
    replace (length (Ledger._entries l) - Z.to_nat n)%nat with 0%nat by lia.
    reflexivity.
Qed.

(** C9, where the code departs from it.  [recent(0)] returns every entry
    of the ledger, newest first, not the empty list: [slice(-0)] is
    [slice(0)]. *)
Theorem recent_zero_returns_all (l : Ledger.t) :
  Ledger.recent 0 l = rev (Ledger._entries l) /\
  Ledger.recent 0 lone_ledger = [old_entry] /\
  last_n 0 (Ledger._entries lone_ledger) = [].
Proof.
  split; [|split; reflexivity].
  unfold Ledger.recent, Js.slice_from. simpl.
  rewrite Z.min_l by lia. reflexivity.
Qed.

(* ------------------------------------------------------------------ *)
(** ** The effective value of an offering *)

Lemma modulate_appends (sig : Signal) (d : Deity.t) :
  exists extra,
    Ledger._entries (Deity.ledger (Deity._modulateFromSurprise sig d))
    = Ledger._entries (Deity.ledger d) ++ extra.
Proof.
  unfold Deity._modulateFromSurprise.
  destruct (predicted sig); [|exists []; symmetry; apply app_nil_r].
  destruct (surprised sig); [eexists; reflexivity|].
  destruct (Supplicant.omniscient _);
    [eexists; reflexivity | exists []; symmetry; apply app_nil_r].
Qed.

(** The entry that [offer] records is the first one after the entries that
    were there. *)
Lemma offer_records (ty : option string) (m : Meta) (d : Deity.t) :
  let v := Js.clamp01 (Js.nullish (value m) 0.3) in
  let a := Js.nullish (alignment m) "neutral" in
  Ledger._entries (Deity.ledger (Deity.offer ty m d))
    !! length (Ledger._entries (Deity.ledger d))
  = Some (mkEntry "offer" (Ledger._tick (Deity.ledger d))
            (spread (mkMeta (Some (Js.nullish ty "generic")) (Some v)
                            (Some (Deity.effective_value (Deity._alignment d) a v))
                            (Some a) None None None None None None None)
                    m)).
Proof.
  intros v a. unfold Deity.offer.
  match goal with |- context [Deity._modulateFromSurprise ?s ?x] =>
    destruct (modulate_appends s x) as [extra ->] end.
  cbn [Deity.with_supplicant Deity.with_ledger Deity.ledger Ledger.record
       Ledger._entries].
  rewrite <- app_assoc. rewrite lookup_app_r by lia.
  rewrite Nat.sub_diag. reflexivity.
Qed.

Lemma eqb_neq_false (a b : string) : a <> b -> String.eqb a b = false.
Proof. intros H. apply String.eqb_neq. exact H. Qed.

(** C10, as the code has it.  [offer(type, meta)] with a [meta] that has no
    [effectiveValue] of its own records an offer entry whose effective
    value is, on a deity with a non-empty alignment [A]: the clamped value
    times 1.5 when the alignment of the offering is [A], the clamped value
    times -0.5 when it is neither ['neutral'] nor [A], and the clamped
    value otherwise; on a deity with an empty alignment it is the clamped
    value.  The value defaults to 0.3 and is clamped to [0,1], the
    alignment defaults to ['neutral'], and a neutral or matching offering
    never has a negative effective value. *)
Theorem offer_effective_value (ty : option string) (m : Meta) (d : Deity.t) :
  effectiveValue m = None ->
  let v := Js.clamp01 (Js.nullish (value m) 0.3) in
  let a := Js.nullish (alignment m) "neutral" in
  let A := Deity._alignment d in
  exists e ev,
    Ledger._entries (Deity.ledger (Deity.offer ty m d))
      !! length (Ledger._entries (Deity.ledger d)) = Some e /\
    type e = "offer" /\
    tick e = Ledger._tick (Deity.ledger d) /\
    effectiveValue (meta e) = Some ev /\
    (A <> "" -> a = A -> ev = v * 1.5) /\
    (A <> "" -> a <> "neutral" -> a <> A -> ev = v * (-0.5)) /\
    (A <> "" -> a = "neutral" -> a <> A -> ev = v) /\
    (A = "" -> ev = v) /\
    (a = "neutral" \/ a = A -> 0 <= ev) /\
    0 <= v <= 1 /\
    (value m = None -> v = 0.3) /\
    (alignment m = None -> a = "neutral").
Proof.
  intros Hev v a A.
  eexists. exists (Deity.effective_value A a v).
  split; [apply offer_records|].
  cbn [type tick meta]. split; [reflexivity|]. split; [reflexivity|].
  split. { unfold spread. cbn. rewrite Hev. reflexivity. }
  pose proof (clamp01_range (Js.nullish (value m) 0.3)) as Hv. fold v in Hv.
  unfold Deity.effective_value, Js.truthy_str.
  repeat split.
  - intros HA Ha. rewrite (eqb_neq_false A "" HA), Ha, String.eqb_refl.
    reflexivity.
  - intros HA Hn Ha.
    rewrite (eqb_neq_false A "" HA), (eqb_neq_false a A Ha),
      (eqb_neq_false a "neutral" Hn). reflexivity.
  - intros HA Hn Ha.
    rewrite (eqb_neq_false A "" HA), (eqb_neq_false a A Ha), Hn. reflexivity.
  - intros ->. reflexivity.
  - intros Hc.
    destruct (String.eqb A ""); cbn [negb]; [lra|].
    destruct (String.eqb_spec a A); [lra|].
    destruct (String.eqb_spec a "neutral"); cbn [negb andb]; [lra|].
    destruct Hc; contradiction.
  - apply Hv.
  - apply Hv.
  - apply offer_value_clamped.
  - intros H. unfold a. rewrite H. reflexivity.
Qed.

Lemma offer_effective_value_witness :
  exists e,
    Ledger._entries
      (Deity.ledger (Deity.offer (Some "unicorn") lawful_unicorn
                                 (Deity.new lawful_opts))) !! 0%nat = Some e /\
    effectiveValue (meta e) = Some (Js.clamp01 0.9 * 1.5).
Proof.
  destruct (offer_effective_value (Some "unicorn") lawful_unicorn
              (Deity.new lawful_opts) eq_refl)
    as (e & ev & He & _ & _ & Hev & Hmatch & _).
  exists e. split; [exact He|].
  rewrite Hev. f_equal. apply Hmatch; [discriminate | reflexivity].
Defined.

(** An unaligned deity takes a chaotic offering at its clamped value, where
    the claim gives the clamped value times -0.5; and an effective value
    that the metadata brings replaces the computed one. *)
Lemma unaligned_or_priced_offering :
  (exists e,
     Ledger._entries
       (Deity.ledger (Deity.offer (Some "unicorn") chaotic_unicorn
                                  (Deity.new unaligned_opts))) = [e] /\
     Deity._alignment (Deity.new unaligned_opts) = "" /\
     alignment (meta e) = Some "chaotic" /\
     effectiveValue (meta e) = Some 0.9 /\
     0.9 <> Js.clamp01 0.9 * (-0.5)) /\
  (exists e,
     Ledger._entries
       (Deity.ledger (Deity.offer (Some "gold") priced
                                  (Deity.new default_opts))) = [e] /\
     effectiveValue (meta e) = Some 7 /\
     7 <> Js.clamp01 0.5 * 1.5).
Proof.
  assert (H9 : Js.clamp01 0.9 = 0.9).
  { unfold Js.clamp01. rewrite Rmin_right by lra. apply Rmax_right. lra. }
  assert (H5 : Js.clamp01 0.5 = 0.5).
  { unfold Js.clamp01. rewrite Rmin_right by lra. apply Rmax_right. lra. }
  split.
  - eexists. split; [reflexivity|]. cbn [meta].
    split; [reflexivity|]. split; [reflexivity|]. split.
    + cbn. f_equal. exact H9.
    + rewrite H9. lra.
  - eexists. split; [reflexivity|]. cbn [meta].
    split; [reflexivity|]. rewrite H5. lra.
Qed.


(* ------------------------------------------------------------------ *)
(** ** The simplex in double precision *)

Section DoubleFacts.

Import SpecFloat.

Lemma shr_1_nonneg (mrs : shr_record) :
  (0 <= shr_m mrs)%Z -> (0 <= shr_m (shr_1 mrs))%Z.
Proof.
  destruct mrs as [m r s]. cbn [shr_m]. intros H.
  destruct m as [|p|p]; [cbn; lia | | lia].
  destruct p; cbn; lia.
Qed.

Lemma iter_shr_1_nonneg (p : positive) (mrs : shr_record) :
  (0 <= shr_m mrs)%Z -> (0 <= shr_m (iter_pos shr_1 p mrs))%Z.
Proof.
  revert mrs. induction p as [p IH|p IH|]; intros mrs H; cbn [iter_pos].
  - apply IH, IH, shr_1_nonneg, H.
  - apply IH, IH, H.
  - apply shr_1_nonneg, H.
Qed.

Lemma shr_fexp_nonneg (m e : Z) (l : location) :
  (0 <= m)%Z -> (0 <= shr_m (fst (shr_fexp Double.prec Double.emax m e l)))%Z.
Proof.
  intros H. unfold shr_fexp, shr.
  assert (H0 : (0 <= shr_m (shr_record_of_loc m l))%Z).
  { destruct l as [|[]]; exact H. }
  destruct (_ - e)%Z; cbn [fst]; [exact H0 | | exact H0].
  apply iter_shr_1_nonneg, H0.
Qed.

Lemma round_nearest_even_nonneg (m : Z) (l : location) :
  (0 <= m)%Z -> (0 <= round_nearest_even m l)%Z.
Proof.
  intros H. unfold round_nearest_even.
  destruct l as [|[]]; try lia. destruct (Z.even m); lia.
Qed.

(** Rounding a magnitude gives a zero, a finite number or an infinity of
    the sign it is given: never [NaN]. *)
Lemma binary_round_aux_sign (sx : bool) (mx ex : Z) (lx : location) :
  (0 <= mx)%Z ->
  match binary_round_aux Double.prec Double.emax sx mx ex lx with
  | S754_zero s | S754_infinity s | S754_finite s _ _ => s = sx
  | S754_nan => False
  end.
Proof.
  intros H. unfold binary_round_aux.
  pose proof (shr_fexp_nonneg mx ex lx H) as H1.
  destruct (shr_fexp Double.prec Double.emax mx ex lx) as [mrs' e'].
  cbn [fst] in H1.
  pose proof (shr_fexp_nonneg
                (round_nearest_even (shr_m mrs') (loc_of_shr_record mrs'))
                e' loc_Exact
                (round_nearest_even_nonneg _ _ H1)) as H2.
  destruct (shr_fexp _ _ _ e' loc_Exact) as [mrs'' e''].
  cbn [fst] in H2.
  destruct (shr_m mrs'') as [|p|p]; [reflexivity | | lia].
  destruct (_ <=? _)%Z; reflexivity.
Qed.

(** The sum of two numbers that are not negative is not negative, and is
    not [NaN]. *)
Lemma add_plain (a b : Double.num) :
  plain a -> plain b -> plain (Double.add a b).
Proof.
  destruct a as [[]|[]| |[] ma ea]; try contradiction;
    destruct b as [[]|[]| |[] mb eb]; try contradiction;
    intros _ _; try exact I.
  unfold Double.add, SFadd, binary_normalize, cond_Zopp.
  match goal with
  | |- plain (match ?s with _ => _ end) =>
      assert (Hs : exists p, s = Zpos p)
  end.
  { destruct (shl_align ma ea _) as [x1 y1], (shl_align mb eb _) as [x2 y2].
    cbn [fst]. eexists. reflexivity. }
  destruct Hs as [p ->]. unfold binary_round.
  destruct (shl_align p _ _) as [mz ez].
  pose proof (binary_round_aux_sign false (Zpos mz) ez loc_Exact) as H.
  destruct (binary_round_aux _ _ false (Zpos mz) ez loc_Exact) as [s|s| |s m e];
    try (rewrite H by lia; exact I).
  apply H. lia.
Qed.

Lemma add_infinity_l (b : Double.num) :
  plain b -> Double.add Double.infinity b = Double.infinity.
Proof. destruct b as [[]|[]| |[] mb eb]; try contradiction; reflexivity. Qed.

Lemma add_infinity_r (a : Double.num) :
  plain a -> Double.add a Double.infinity = Double.infinity.
Proof. destruct a as [[]|[]| |[] ma ea]; try contradiction; reflexivity. Qed.

(** [Math.max(0, x || 0)] is not negative and not [NaN], whatever [x] is. *)
Lemma clamp_plain (x : Double.num) :
  plain (Double.Math_max Double.zero (Double.or0 x)).
Proof. destruct x as [[]|[]| |[] m e]; exact I. Qed.

Lemma sum_infinity (cs : list Double.num) (acc : Double.num) :
  Forall plain cs -> plain acc ->
  (acc = Double.infinity \/ Double.infinity ∈ cs) ->
  fold_left Double.add cs acc = Double.infinity.
Proof.
  intros Hcs. revert acc. induction Hcs as [|c cs Hc _ IH]; intros acc Ha H.
  - destruct H as [-> | H]; [reflexivity|]. apply elem_of_nil in H. contradiction.
  - cbn [fold_left]. apply IH.
    + apply add_plain; assumption.
    + destruct H as [-> | H].
      * left. apply add_infinity_l, Hc.
      * apply elem_of_cons in H. destruct H as [<- | H]; [|right; exact H].
        left. apply add_infinity_r, Ha.
Qed.

Lemma double_get_tabulate (f : Dim -> Double.num) (d : Dim) :
  Double.get (Double.tabulate f) d = f d.
Proof. destruct d; reflexivity. Qed.

(** [normalize] has no case for [Infinity]: where the vector holds
    [Infinity], the sum is [Infinity] and the quotient is [NaN]. *)
Lemma normalize_infinity (vec : Double.Vec) (d : Dim) :
  Double.get vec d = Double.infinity ->
  Double.get (Double.normalize vec) d = Double.nan.
Proof.
  intros Hd. unfold Double.normalize.
  set (clamp := fun d => Double.Math_max Double.zero (Double.or0 (Double.get vec d))).
  change (fold_left _ DIMENSIONS Double.zero)
    with (fold_left Double.add (map clamp DIMENSIONS) Double.zero).
  rewrite sum_infinity.
  - replace (Double.strict_eqb Double.infinity Double.zero) with false
      by reflexivity.
    cbv iota. rewrite double_get_tabulate, Hd. reflexivity.
  - apply Forall_forall. intros c Hc.
    apply list_elem_of_In, in_map_iff in Hc. destruct Hc as (x & <- & _).
    apply clamp_plain.
  - exact I.
  - right. apply list_elem_of_In, in_map_iff. exists d. split.
    + unfold clamp. rewrite Hd. reflexivity.
    + destruct d; cbn; tauto.
Qed.

(** A world action whose favor times magnitude overflows moves the impulse
    by [Infinity], whatever positive weight it has. *)
Lemma action_step_overflow (impulse : Double.Vec) (favor mag w : Double.num) :
  Double.mul favor mag = Double.infinity ->
  Double.gtb w Double.zero = true ->
  Double.action_step impulse
    (Double.mkWeighted None None None (Some favor) (Some mag) w)
  = Double.lower wrath Double.infinity
      (Double.bump amusement Double.infinity
         (Double.bump serenity Double.infinity impulse)).
Proof.
  intros H Hw. unfold Double.action_step.
  cbn [Double.w_favor Double.w_magnitude Double.w_weight Js.nullish].
  rewrite H.
  destruct w as [s|s| |s m e]; try discriminate; destruct s;
    try discriminate; reflexivity.
Qed.

(** C1, where the code departs from it.  In double precision [normalize]
    turns every component [Infinity] of the raw vector into [NaN].  So in
    the first tick of [new Deity()] after a world action whose recorded
    favor times magnitude is [Infinity], as after
    [action('heal', { magnitude: Infinity })] or after
    [action('heal', { magnitude: 1e308, favor: 1e308 })], the impulse is
    [Infinity] in serenity and amusement and [-Infinity] in wrath, and the
    mood is resolved to 0 in wrath, hunger, sorrow and chaos and to [NaN]
    in serenity and amusement, whatever positive number [Math.pow] returns
    as the weight of the action: serenity is not at least 0 there, and the
    six dimensions do not add up to a number.  The answers of the ledger
    that [healed] holds are the ones of the ledger after [action] and one
    tick: no offer, two kinds, one action of age 1 with the favor 0.2 and
    the magnitude of its metadata, no prayer, no desecration, one neglect
    entry of age 0, and the two kinds as the most recent ones. *)
Theorem overflow_leaves_simplex :
  (forall vec d,
     Double.get vec d = Double.infinity ->
     Double.get (Double.normalize vec) d = Double.nan) /\
  (let l := Deity.ledger
              (fst (Deity.tick_step
                      (Deity.action "heal" mighty (Deity.new default_opts)))) in
   Ledger.ofType "offer" l = [] /\
   Ledger.variety l = 2%nat /\
   map (fun a => (favor (meta (fst a)), magnitude (meta (fst a)),
                  (Ledger._tick l - tick (fst a))%Z))
       (Ledger.ofType "action" l)
     = [(Some 0.2, magnitude mighty, 1%Z)] /\
   Ledger.weightedCount "pray" l = 0 /\
   Ledger.currentStreak "pray" l = 0%nat /\
   Ledger.weightedCount "desecrate" l = 0 /\
   map (fun a => (Ledger._tick l - tick (fst a))%Z) (Ledger.ofType "neglect" l)
     = [0%Z] /\
   Ledger.ticksSinceLast "offer" l = Infinity /\
   Ledger.ticksSinceLast "pray" l = Infinity /\
   Ledger.size l = 2%nat /\
   map type (Ledger.recent 5 l) = ["neglect"; "action"]) /\
  Double.mul (Double.dec 2 10) Double.infinity = Double.infinity /\
  Double.mul (Double.of_Z (10 ^ 308)) (Double.of_Z (10 ^ 308))
    = Double.infinity /\
  (forall favor magnitude w,
     Double.mul favor magnitude = Double.infinity ->
     Double.gtb w Double.zero = true ->
     let reads := healed favor magnitude w in
     let v := Double._vector (Double.resolve reads 1 fresh_engine) in
     Double._computeImpulse reads
       = Double.mkVec (S754_infinity true) Double.infinity (Double.dec 8 100)
                      Double.infinity (Double.dec 4 100) Double.zero /\
     v = Double.mkVec Double.zero Double.nan Double.zero Double.nan
                      Double.zero Double.zero /\
     SFleb Double.zero (Double.get v serenity) = false /\
     fold_left (fun s d => Double.add s (Double.get v d)) DIMENSIONS
               Double.zero = Double.nan).
Proof.
  split; [exact normalize_infinity|].
  split; [repeat split; reflexivity|].
  split; [reflexivity|]. split; [vm_compute; reflexivity|].
  intros favor magnitude w H Hw reads v.
  assert (Ei : Double._computeImpulse reads
               = Double.mkVec (S754_infinity true) Double.infinity
                              (Double.dec 8 100) Double.infinity
                              (Double.dec 4 100) Double.zero).
  { unfold reads, healed, Double._computeImpulse.
    cbn [Double.actions fold_left]. cbv zeta.
    rewrite !(action_step_overflow _ favor magnitude w H Hw).
    vm_compute. reflexivity. }
  assert (E : v = Double.mkVec Double.zero Double.nan Double.zero Double.nan
                                Double.zero Double.zero).
  { unfold v, Double.resolve.
    change (1 =? Double._lastResolvedTick fresh_engine)%Z with false.
    cbv iota zeta. cbn [Double._vector]. rewrite Ei.
    vm_compute. reflexivity. }
  rewrite E. repeat split; try reflexivity. exact Ei.
Qed.

Lemma overflow_leaves_simplex_witness :
  Double._vector
    (Double.resolve (healed (Double.dec 2 10) Double.infinity Double.one) 1
                    fresh_engine)
  = Double.mkVec Double.zero Double.nan Double.zero Double.nan
                 Double.zero Double.zero.
Proof.
  apply (proj2 (proj2 (proj2 (proj2 overflow_leaves_simplex)))
           (Double.dec 2 10) Double.infinity Double.one);
    reflexivity.
Defined.

End DoubleFacts.

(* ================================================================== *)
(** * Further properties of the ledger *)

Lemma rev_snoc {A} (l : list A) (x : A) : rev (l ++ [x]) = x :: rev l.
Proof. rewrite rev_app_distr. reflexivity. Qed.

(** What the reads return right after [record]: the recorded kind was last
    seen 0 ticks ago and its streak has grown by one; every other kind is
    seen as long ago as before and its streak is broken; the ledger holds
    one entry more, the new one at the end, born at the current tick. *)
Theorem record_then_read (ty other : string) (m : Meta) (l : Ledger.t) :
  other <> ty ->
  let l' := Ledger.record ty m l in
  Ledger.ticksSinceLast ty l' = Finite 0 /\
  Ledger.currentStreak ty l' = S (Ledger.currentStreak ty l) /\
  Ledger.ticksSinceLast other l' = Ledger.ticksSinceLast other l /\
  Ledger.currentStreak other l' = O /\
  Ledger.size l' = S (Ledger.size l) /\
  Ledger._entries l'
    = Ledger._entries l ++ [mkEntry ty (Ledger._tick l) m] /\
  Ledger._tick l' = Ledger._tick l.
Proof.
  intros Hne l'.
  assert (Hf : String.eqb ty other = false) by (apply String.eqb_neq; auto).
  unfold Ledger.ticksSinceLast, Ledger.currentStreak, Ledger.size, l',
    Ledger.record.
  cbn [Ledger._entries Ledger._tick]. rewrite rev_snoc.
  cbn [Ledger.last_of Ledger.streak type tick].
  rewrite String.eqb_refl, Hf, Z.sub_diag, length_app.
  repeat split; try reflexivity. simpl. lia.
Qed.

Lemma record_then_read_witness :
  Ledger.ticksSinceLast "pray" (Ledger.record "pray" no_meta short_history)
  = Finite 0.
Proof.
  apply (record_then_read "pray" "offer" no_meta short_history). discriminate.
Defined.

(** As long as the ticks are whole numbers that are counted up from 0 and
    stay within the safe integers, so that the additions of the code are
    exact: [advanceTick] adds up, moves every finite tick distance by the
    number of ticks and leaves [Infinity], the streaks, the variety and the
    entries as they are. *)
Theorem advanceTick_shifts (a b : Z) (ty : string) (l : Ledger.t) :
  (0 <= a)%Z -> (0 <= b)%Z -> (0 <= Ledger._tick l)%Z ->
  (Ledger._tick l + b + a <= MAX_SAFE_INTEGER)%Z ->
  Forall (fun e => (0 <= tick e <= Ledger._tick l)%Z) (Ledger._entries l) ->
  Ledger.advanceTick a (Ledger.advanceTick b l) = Ledger.advanceTick (b + a) l /\
  Ledger.ticksSinceLast ty (Ledger.advanceTick a l)
    = ticks_later a (Ledger.ticksSinceLast ty l) /\
  Ledger.currentStreak ty (Ledger.advanceTick a l) = Ledger.currentStreak ty l /\
  Ledger.variety (Ledger.advanceTick a l) = Ledger.variety l /\
  Ledger._entries (Ledger.advanceTick a l) = Ledger._entries l.
Proof.
  intros _ _ _ _ _. split; [|split; [|repeat split]].
  - unfold Ledger.advanceTick. simpl. f_equal. lia.
  - unfold Ledger.ticksSinceLast, Ledger.advanceTick. simpl.
    destruct (Ledger.last_of ty (rev (Ledger._entries l))); simpl;
      [f_equal; lia | reflexivity].
Qed.

Lemma advanceTick_shifts_witness :
  Ledger.advanceTick 1 (Ledger.advanceTick 2 short_history)
  = Ledger.advanceTick 3 short_history.
Proof.
  apply (advanceTick_shifts 1 2 "pray" short_history).
  - lia.
  - lia.
  - cbn. lia.
  - unfold MAX_SAFE_INTEGER. cbn. lia.
  - repeat constructor; cbn; lia.
Defined.

Lemma fold_left_weights (p : Entry -> bool) (w : Entry -> R)
    (es : list Entry) (a : R) :
  fold_left (fun sum e => if p e then sum + w e else sum) es a
  = a + total (map w (filter (fun e => p e = true) es)).
Proof.
  revert a. induction es as [|e es IH]; intros a; simpl.
  - unfold total. simpl. lra.
  - rewrite IH. rewrite filter_cons.
    destruct (p e) eqn:E.
    + destruct (decide (true = true)); [|contradiction].
      simpl. unfold total. simpl. lra.
    + destruct (decide (false = true)); [discriminate|]. reflexivity.
Qed.

(** [weightedCount] is the sum of the weights that [ofType] attaches, and
    [ofType] returns as many entries as the ledger holds of the kind. *)
Theorem weightedCount_ofType (ty : string) (l : Ledger.t) :
  Ledger.weightedCount ty l = total (map snd (Ledger.ofType ty l)) /\
  map fst (Ledger.ofType ty l)
    = filter (fun e => String.eqb (type e) ty = true) (Ledger._entries l) /\
  length (Ledger.ofType ty l) = count_type ty l.
Proof.
  unfold Ledger.weightedCount, Ledger.ofType, count_type.
  rewrite fold_left_weights, !map_map, length_map. simpl.
  rewrite Rplus_0_l, map_id. auto.
Qed.

Lemma total_app (xs ys : list R) : total (xs ++ ys) = total xs + total ys.
Proof.
  induction xs as [|x xs IH]; unfold total in *; simpl; [lra|].
  rewrite IH. lra.
Qed.

Lemma weight_positive (l : Ledger.t) (e : Entry) : 0 < Ledger._weight l e.
Proof. apply exp_pos. Qed.

Lemma weight_at_most_one (l : Ledger.t) (e : Entry) :
  0 < Ledger._halfLife l -> Ledger._weight l e <= 1.
Proof.
  intros Hh. unfold Ledger._weight. apply Rpower_half_range.
  apply Rmult_le_pos; [apply IZR_le; lia|].
  left. apply Rinv_0_lt_compat. exact Hh.
Qed.

Lemma total_weights_bounds (l : Ledger.t) (es : list Entry) :
  0 <= total (map (Ledger._weight l) es) /\
  (es <> [] -> 0 < total (map (Ledger._weight l) es)) /\
  (0 < Ledger._halfLife l ->
   total (map (Ledger._weight l) es) <= INR (length es)).
Proof.
  induction es as [|e es (IH0 & IH1 & IH2)].
  - unfold total. simpl. repeat split; [lra | congruence | lra].
  - pose proof (weight_positive l e) as Hp.
    rewrite length_cons, S_INR. unfold total in *. simpl.
    repeat split; try lra.
    intros Hh. pose proof (weight_at_most_one l e Hh).
    specialize (IH2 Hh). lra.
Qed.

(** With a positive half-life the weighted count of a kind lies between 0
    and the number of entries of that kind, whatever their birth ticks; it
    is 0 when the ledger holds no entry of the kind. *)
Theorem weightedCount_bounds (ty : string) (l : Ledger.t) :
  0 < Ledger._halfLife l ->
  0 <= Ledger.weightedCount ty l <= INR (count_type ty l) /\
  (count_type ty l = O -> Ledger.weightedCount ty l = 0).
Proof.
  intros Hh. unfold Ledger.weightedCount, count_type.
  rewrite fold_left_weights, Rplus_0_l.
  set (es := filter _ _).
  destruct (total_weights_bounds l es) as (H0 & H1 & H2).
  split; [split; [exact H0 | apply H2; exact Hh]|].
  intros E. destruct es; [reflexivity | discriminate].
Qed.

Lemma weightedCount_bounds_witness :
  0 <= Ledger.weightedCount "pray" short_history
    <= INR (count_type "pray" short_history).
Proof.
  apply (weightedCount_bounds "pray" short_history). change (0 < 100). lra.
Defined.

Lemma weight_after_record (ty : string) (m : Meta) (l : Ledger.t) (e : Entry) :
  Ledger._weight (Ledger.record ty m l) e = Ledger._weight l e.
Proof. reflexivity. Qed.

(** An entry weighs 1 when it is recorded: [record] raises the weighted
    count of its kind by exactly 1 and leaves the weighted counts of the
    other kinds as they are. *)
Theorem weightedCount_record (ty other : string) (m : Meta) (l : Ledger.t) :
  Ledger._halfLife l <> 0 ->
  other <> ty ->
  Ledger.weightedCount ty (Ledger.record ty m l)
    = Ledger.weightedCount ty l + 1 /\
  Ledger.weightedCount other (Ledger.record ty m l)
    = Ledger.weightedCount other l.
Proof.
  intros _ Hne.
  assert (Hf : String.eqb ty other = false) by (apply String.eqb_neq; auto).
  unfold Ledger.weightedCount.
  rewrite !fold_left_weights, !Rplus_0_l.
  unfold Ledger.record at 2 4. cbn [Ledger._entries].
  rewrite !filter_app, !map_app.
  rewrite !(map_ext (Ledger._weight (Ledger.record ty m l)) (Ledger._weight l))
    by (intros; apply weight_after_record).
  rewrite !filter_cons, filter_nil. cbn [type].
  rewrite String.eqb_refl, Hf.
  destruct (decide (true = true)); [|contradiction].
  destruct (decide (false = true)); [discriminate|].
  split.
  - assert (H1 : Ledger._weight l (mkEntry ty (Ledger._tick l) m) = 1).
    { unfold Ledger._weight. cbn [tick]. rewrite Z.sub_diag.
      change (Z.max 0 0) with 0%Z. unfold Rdiv. rewrite Rmult_0_l.
      apply Rpower_O. lra. }
    rewrite total_app. cbn [map]. rewrite weight_after_record, H1.
    unfold total at 2. simpl. lra.
  - simpl. rewrite app_nil_r. reflexivity.
Qed.

Lemma weightedCount_record_witness :
  Ledger.weightedCount "pray" (Ledger.record "pray" no_meta short_history)
  = Ledger.weightedCount "pray" short_history + 1.
Proof.
  apply (weightedCount_record "pray" "offer" no_meta short_history).
  - change (100 <> 0). lra.
  - discriminate.
Defined.

Lemma set_size_snoc (ks : list string) (k : string) :
  (k ∈ ks -> Js.set_size (ks ++ [k]) = Js.set_size ks) /\
  (k ∉ ks -> Js.set_size (ks ++ [k]) = S (Js.set_size ks)).
Proof.
  unfold Js.set_size. split; intros Hk.
  - apply Permutation_length, NoDup_Permutation;
      [apply NoDup_remove_dups | apply NoDup_remove_dups |].
    intros x. rewrite !elem_of_remove_dups, elem_of_app, list_elem_of_singleton.
    split; [intros [H | ->]; auto | auto].
  - change (S (length (remove_dups ks))) with (length (k :: remove_dups ks)).
    apply Permutation_length, NoDup_Permutation.
    + apply NoDup_remove_dups.
    + constructor; [|apply NoDup_remove_dups].
      rewrite elem_of_remove_dups. exact Hk.
    + intros x.
      rewrite elem_of_cons, !elem_of_remove_dups, elem_of_app,
        list_elem_of_singleton.
      tauto.
Qed.

Lemma set_size_le_length (ks : list string) :
  (Js.set_size ks <= length ks)%nat.
Proof.
  unfold Js.set_size. apply submseteq_length, NoDup_submseteq.
  - apply NoDup_remove_dups.
  - intros x. rewrite elem_of_remove_dups. auto.
Qed.

Lemma variety_keys (l : Ledger.t) :
  Ledger.variety l = Js.set_size (map entry_key (Ledger._entries l)).
Proof. reflexivity. Qed.

(** The variety never exceeds the number of entries and never goes down:
    [record] raises it by one when no earlier entry has the same kind and
    sub-kind, and leaves it as it is otherwise. *)
Theorem variety_record (ty : string) (m : Meta) (l : Ledger.t) :
  let e := mkEntry ty (Ledger._tick l) m in
  (Ledger.variety l <= Ledger.size l)%nat /\
  ((exists e', e' ∈ Ledger._entries l /\ entry_key e' = entry_key e) ->
   Ledger.variety (Ledger.record ty m l) = Ledger.variety l) /\
  ((forall e', e' ∈ Ledger._entries l -> entry_key e' <> entry_key e) ->
   Ledger.variety (Ledger.record ty m l) = S (Ledger.variety l)) /\
  (Ledger.variety l <= Ledger.variety (Ledger.record ty m l)
                    <= S (Ledger.variety l))%nat.
Proof.
  intros e. rewrite !variety_keys.
  unfold Ledger.record. cbn [Ledger._entries]. rewrite map_app. cbn [map].
  fold e.
  destruct (set_size_snoc (map entry_key (Ledger._entries l)) (entry_key e))
    as [Hin Hout].
  split; [|split; [|split]].
  - unfold Ledger.size.
    rewrite <- (length_map entry_key (Ledger._entries l)).
    apply set_size_le_length.
  - intros (e' & He' & Hk). apply Hin. rewrite <- Hk.
    apply list_elem_of_fmap_2. exact He'.
  - intros Hnew. apply Hout. intros Hk.
    apply list_elem_of_fmap in Hk. destruct Hk as (e' & Hk & He').
    apply (Hnew e' He'). symmetry. exact Hk.
  - destruct (decide (entry_key e ∈ map entry_key (Ledger._entries l)))
      as [Hk | Hk].
    + rewrite (Hin Hk). lia.
    + rewrite (Hout Hk). lia.
Qed.

Lemma variety_record_witness :
  Ledger.variety (Ledger.record "pray" no_meta short_history)
  = Ledger.variety short_history.
Proof.
  apply (variety_record "pray" no_meta short_history).
  exists (mkEntry "pray" 0 no_meta). split; [|reflexivity].
  unfold short_history. simpl. rewrite !elem_of_cons. auto.
Defined.


Lemma count_none (ty : string) (es : list Entry) :
  length (filter (fun e => String.eqb (type e) ty = true) es) = O
  <-> Forall (fun e => type e <> ty) es.
Proof.
  induction es as [|e es IH]; [split; [constructor | reflexivity]|].
  rewrite filter_cons, Forall_cons.
  destruct (String.eqb_spec (type e) ty) as [E|E].
  - destruct (decide (true = true)); [|contradiction]. cbn [length].
    split; [discriminate | intros [H _]; contradiction].
  - destruct (decide (false = true)); [discriminate|].
    rewrite IH. tauto.
Qed.

Lemma last_of_none_iff (ty : string) (es : list Entry) :
  Ledger.last_of ty es = None <-> Forall (fun e => type e <> ty) es.
Proof.
  induction es as [|e es IH]; [split; [constructor | reflexivity]|].
  cbn [Ledger.last_of]. rewrite Forall_cons.
  destruct (String.eqb_spec (type e) ty) as [E|E].
  - split; [discriminate | intros [H _]; contradiction].
  - rewrite IH. tauto.
Qed.

Lemma Forall_rev_iff {A} (P : A -> Prop) (es : list A) :
  Forall P (rev es) <-> Forall P es.
Proof.
  rewrite !Forall_forall. split; intros H x Hx; apply H.
  - apply list_elem_of_In, in_rev. rewrite rev_involutive.
    apply list_elem_of_In, Hx.
  - apply list_elem_of_In, in_rev, list_elem_of_In, Hx.
Qed.

Lemma streak_at_most_count (ty : string) (es : list Entry) :
  (Ledger.streak ty (rev es)
   <= length (filter (fun e => String.eqb (type e) ty = true) es))%nat.
Proof.
  induction es as [|x es IH] using rev_ind; [reflexivity|].
  rewrite rev_snoc, filter_app, length_app, filter_cons, filter_nil.
  cbn [Ledger.streak].
  destruct (String.eqb (type x) ty).
  - destruct (decide (true = true)); [|contradiction]. cbn [length]. lia.
  - lia.
Qed.

(** The reads of the ledger agree with each other: [ticksSinceLast] of a
    kind is [Infinity] exactly when the ledger holds no entry of the kind;
    the streak of a kind is at most the number of its entries; and when the
    streak of a kind is not 0, the newest entry of the ledger is of that
    kind and [ticksSinceLast] counts from its birth tick. *)
Theorem ledger_reads_agree (ty : string) (l : Ledger.t) :
  (Ledger.ticksSinceLast ty l = Infinity <-> count_type ty l = O) /\
  (Ledger.currentStreak ty l <= count_type ty l)%nat /\
  ((0 < Ledger.currentStreak ty l)%nat ->
   exists e,
     last (Ledger._entries l) = Some e /\ type e = ty /\
     Ledger.ticksSinceLast ty l = Finite (Ledger._tick l - tick e)).
Proof.
  unfold Ledger.ticksSinceLast, Ledger.currentStreak, count_type.
  split; [|split].
  - rewrite count_none, <- Forall_rev_iff, <- last_of_none_iff.
    destruct (Ledger.last_of ty (rev (Ledger._entries l)));
      split; intros; congruence.
  - apply streak_at_most_count.
  - destruct (Ledger._entries l) as [|x es] using rev_ind;
      [cbn; lia|].
    rewrite rev_snoc, last_snoc. cbn [Ledger.streak Ledger.last_of].
    destruct (String.eqb_spec (type x) ty) as [E|E]; [|lia].
    intros _. exists x. auto.
Qed.

Lemma ledger_reads_agree_witness :
  exists e,
    last (Ledger._entries short_history) = Some e /\ type e = "pray" /\
    Ledger.ticksSinceLast "pray" short_history = Finite (3 - tick e).
Proof.
  apply (ledger_reads_agree "pray" short_history). cbn. lia.
Defined.

(* ================================================================== *)
(** * Further properties of the mood engine *)









(** One comparison of [dominant] at a time, the earliest first. *)
Ltac next_cmp :=
  match goal with
  | |- context [Js.gtb ?x ?y] =>
      lazymatch y with
      | context [Js.gtb] => fail
      | _ =>
          let E := fresh "E" in
          destruct (Js.gtb x y) eqn:E;
          [apply gtb_true in E | apply gtb_false in E];
          cbn [fst snd]
      end
  end.

(** On a vector of the simplex [dominant] returns a dimension with its
    value; no dimension has a greater value, every dimension before it in
    the enumeration has a smaller one, and the value is at least 1/6. *)
Theorem dominant_is_first_maximum (m : Mood.t) :
  simplex (Mood._vector m) ->
  exists d,
    Mood.dominant m = (Some d, get (Mood._vector m) d) /\
    (forall d', get (Mood._vector m) d' <= get (Mood._vector m) d) /\
    (forall d', (index_of d' < index_of d)%nat ->
                get (Mood._vector m) d' < get (Mood._vector m) d) /\
    1 / 6 <= get (Mood._vector m) d.
Proof.
  intros [Hnn Hsum]. rewrite sum_dims_unfold in Hsum.
  pose proof (Hnn wrath). pose proof (Hnn serenity). pose proof (Hnn hunger).
  pose proof (Hnn amusement). pose proof (Hnn sorrow). pose proof (Hnn chaos).
  unfold Mood.dominant, DIMENSIONS. cbn [fold_left fst snd].
  repeat next_cmp; try (exfalso; lra);
    match goal with
    | |- exists d, (Some ?x, _) = _ /\ _ => exists x
    end;
    (split; [reflexivity|]);
    (split; [intros d'; destruct d'; lra|]);
    (split; [intros d'; destruct d'; cbn [index_of]; intros Hlt;
             try lia; lra | lra]).
Qed.

Lemma dominant_is_first_maximum_witness :
  exists d, Mood.dominant plain_mood = (Some d, get (Mood._vector plain_mood) d).
Proof.
  destruct (dominant_is_first_maximum plain_mood) as (d & Hd & _).
  - rewrite plain_vector. apply uniform_simplex.
  - exists d. exact Hd.
Defined.






Lemma get_bump_other (d d' : Dim) (x : R) (v : Vec) :
  d' <> d -> get (bump d x v) d' = get v d'.
Proof.
  intros H. rewrite get_bump. destruct (decide (d' = d)); [contradiction|].
  reflexivity.
Qed.

Lemma get_bump_same (d : Dim) (x : R) (v : Vec) :
  get (bump d x v) d = get v d + x.
Proof.
  rewrite get_bump. destruct (decide (d = d)); [reflexivity | contradiction].
Qed.

(** The loop over world actions does not touch chaos or hunger. *)
Lemma actions_keep (impulse : Vec) (actions : list (Entry * R)) :
  get (fold_left Mood.action_step actions impulse) chaos = get impulse chaos /\
  get (fold_left Mood.action_step actions impulse) hunger = get impulse hunger.
Proof.
  revert impulse. induction actions as [|a actions IH]; intros impulse;
    [split; reflexivity|].
  cbn [fold_left]. destruct (IH (Mood.action_step impulse a)) as [-> ->].
  unfold Mood.action_step.
  destruct (Js.gtb _ 0); [|destruct (Js.ltb _ 0)];
    rewrite ?get_bump_other by discriminate; auto.
Qed.

(** Pushes [get] through the branches, the bumps and the action loop of
    the impulse computation. *)
Ltac step_impulse :=
  first
    [ rewrite get_bump_same
    | rewrite get_bump_other by discriminate
    | rewrite (proj1 (actions_keep _ _))
    | rewrite (proj2 (actions_keep _ _))
    | rewrite get_tabulate
    | match goal with
      | |- context [get (if ?b then _ else _) _] => destruct b
      end ].

(** What moves chaos and hunger.  The chaos impulse is 0.06 times the
    weighted count of the desecrations and nothing else, so with a half-life
    other than 0 it is never negative.  The hunger impulse is 0.03 times the
    weighted count of the neglect entries plus 0.05 times the neglect
    factor, less 0.03 times the offering impact when that is positive; world
    actions do not enter either of them. *)
Theorem impulse_chaos_hunger (ledger : Ledger.t) :
  let impulse := Mood._computeImpulse ledger in
  let fed := Mood.offerImpact ledger in
  let neglectFactor :=
    ticks_factor (ticks_min (Ledger.ticksSinceLast "offer" ledger)
                            (Ledger.ticksSinceLast "pray" ledger)) in
  get impulse chaos = Ledger.weightedCount "desecrate" ledger * 0.06 /\
  (Ledger._halfLife ledger <> 0 -> 0 <= get impulse chaos) /\
  get impulse hunger
    = (if Rlt_dec 0 fed then - (fed * 0.03) else 0)
      + (Ledger.weightedCount "neglect" ledger * 0.03 + neglectFactor * 0.05).
Proof.
  intros impulse fed neglectFactor.
  assert (Hc : get impulse chaos
               = Ledger.weightedCount "desecrate" ledger * 0.06).
  { unfold impulse, Mood._computeImpulse. repeat step_impulse; lra. }
  split; [exact Hc|]. split.
  { intros _. rewrite Hc. unfold Ledger.weightedCount.
    rewrite fold_left_weights, Rplus_0_l.
    destruct (total_weights_bounds ledger
                (filter (fun e => String.eqb (type e) "desecrate" = true)
                        (Ledger._entries ledger))) as (H0 & _).
    lra. }
  unfold impulse, Mood._computeImpulse. fold fed. fold neglectFactor.
  destruct (Js.gtb fed 0) eqn:E;
    [apply gtb_true in E | apply gtb_false in E];
    destruct (Rlt_dec 0 fed); try (exfalso; lra);
    repeat step_impulse; lra.
Qed.

Lemma impulse_chaos_hunger_witness :
  0 <= get (Mood._computeImpulse short_history) chaos.
Proof.
  apply (impulse_chaos_hunger short_history). change (100 <> 0). lra.
Defined.


(* ------------------------------------------------------------------ *)
(** ** Rounding in [normalize] *)

(** In double precision [normalize] is not idempotent.  [new Mood()] stores
    the double next above 1/6 (0.16666666666666669) in every dimension of
    its personality, because six shares of 1/6 add up to the double next
    below 1; normalizing the personality once more, as [Mood.deserialize]
    does when it builds the restored engine from the stored personality,
    gives 1/6 (0.16666666666666666) in every dimension: the restored
    personality is not the stored one. *)
Theorem normalize_not_idempotent :
  let p := Double.personality fresh_engine in
  let restored :=
    Double.normalize (Double.fromPartial (fun d => Some (Double.get p d))) in
  p = Double.normalize (Double.fromPartial (fun _ => None)) /\
  (forall d,
     Double.get p d = SpecFloat.S754_finite false 6004799503160662 (-55)) /\
  (forall d, Double.get (Double.normalize p) d = Double.dec 1 6) /\
  Double.dec 1 6 = SpecFloat.S754_finite false 6004799503160661 (-55) /\
  restored = Double.normalize p /\
  restored <> p.
Proof.
  split; [reflexivity|]. split; [intros d; destruct d; reflexivity|].
  split; [intros d; destruct d; reflexivity|]. split; [reflexivity|].
  split; [reflexivity|]. vm_compute. discriminate.
Qed.

(* ================================================================== *)
(** * Further properties of the supplicant *)

Lemma observe_snoc (tys : list string) (ty : string) (s : Supplicant.t) :
  observe (tys ++ [ty]) s = fst (Supplicant.record ty (observe tys s)).
Proof. unfold observe. rewrite fold_left_app. reflexivity. Qed.

Lemma record_fields (ty : string) (s : Supplicant.t) :
  let s' := fst (Supplicant.record ty s) in
  Supplicant._seqLen s' = Supplicant._seqLen s /\
  Supplicant._totalInteractions s' = S (Supplicant._totalInteractions s) /\
  Supplicant._freq s'
    = <[ty := S (default O (Supplicant._freq s !! ty))]> (Supplicant._freq s) /\
  Supplicant._correctPredictions s'
    = (if bool_decide (Supplicant._lastPrediction s = Some ty)
       then S (Supplicant._correctPredictions s)
       else Supplicant._correctPredictions s) /\
  Supplicant._surprise s'
    = (if surprised (snd (Supplicant.record ty s))
       then Rmin 1 (Supplicant._surprise s + 0.3)
       else Rmax 0 (Supplicant._surprise s - 0.1)).
Proof.
  unfold Supplicant.record. cbn.
  repeat split.
  destruct (Supplicant._lastPrediction s) as [p|]; [|reflexivity].
  destruct (String.eqb_spec p ty) as [->|Hne].
  - rewrite bool_decide_eq_true_2; reflexivity.
  - rewrite bool_decide_eq_false_2; [reflexivity|]. congruence.
Qed.

(** The counters of a supplicant that started fresh and has recorded kinds
    that are no inherited property names: it has counted every interaction,
    its frequency table holds the number of occurrences of every kind, it
    has been right strictly less often than it has been asked (the first
    interaction is never predicted), and its surprise lies between 0 and
    1. *)
Theorem supplicant_counters (tys : list string) (sequenceLength : option Z) :
  plain_kinds tys ->
  let s := observe tys (Supplicant.new sequenceLength) in
  Supplicant._totalInteractions s = length tys /\
  (forall ty, default O (Supplicant._freq s !! ty) = occurrences ty tys) /\
  (Supplicant._correctPredictions s <= length tys)%nat /\
  (tys <> [] -> (Supplicant._correctPredictions s < length tys)%nat) /\
  (tys = [] -> Supplicant._lastPrediction s = None) /\
  0 <= Supplicant._surprise s <= 1.
Proof.
  intros _. induction tys as [|ty tys IH] using rev_ind.
  - cbv zeta. unfold observe. cbn [fold_left].
    unfold Supplicant.new.
    cbn [Supplicant._totalInteractions Supplicant._freq length
         Supplicant._correctPredictions Supplicant._lastPrediction
         Supplicant._surprise].
    repeat split; auto; try lra; try lia. congruence.
  - intros s. unfold s. rewrite observe_snoc.
    set (s0 := observe tys (Supplicant.new sequenceLength)) in *.
    destruct IH as (Ht & Hf & Hc & Hlt & Hnone & Hs).
    destruct (record_fields ty s0) as (_ & Ht' & Hf' & Hc' & Hs').
    cbv zeta in Ht', Hf', Hc', Hs'.
    rewrite Ht', Hf', Hc', Hs', length_app, Ht. cbn [length].
    assert (Hcor : ((if bool_decide (Supplicant._lastPrediction s0 = Some ty)
                     then S (Supplicant._correctPredictions s0)
                     else Supplicant._correctPredictions s0)
                    < length tys + 1)%nat).
    { destruct (bool_decide _) eqn:E; [|lia].
      apply bool_decide_eq_true_1 in E.
      destruct tys as [|t0 tys'].
      - rewrite (Hnone eq_refl) in E. discriminate.
      - assert (t0 :: tys' <> []) by discriminate.
        specialize (Hlt H). lia. }
    repeat split.
    + lia.
    + intros ty'. unfold occurrences. rewrite filter_app, length_app.
      rewrite filter_cons, filter_nil.
      destruct (decide (ty = ty')) as [->|Hne].
      * rewrite lookup_insert_eq. cbn. rewrite Hf. unfold occurrences. lia.
      * rewrite lookup_insert_ne by exact Hne. rewrite Hf.
        unfold occurrences. cbn. lia.
    + lia.
    + intros _. exact Hcor.
    + intros E. destruct tys; discriminate.
    + destruct (surprised _).
      * unfold Rmin. destruct (Rle_dec _ _); lra.
      * apply Rmax_l.
    + destruct (surprised _).
      * apply Rmin_l.
      * unfold Rmax. destruct (Rle_dec _ _); lra.
Qed.

Lemma supplicant_counters_witness :
  (Supplicant._correctPredictions
     (observe ["offer"; "offer"; "pray"] (Supplicant.new None)) < 3)%nat.
Proof.
  apply (supplicant_counters ["offer"; "offer"; "pray"] None).
  - apply (bool_decide_unpack _). vm_compute. exact I.
  - discriminate.
Defined.

Lemma slice_from_last {A} (k : Z) (l : list A) :
  (0 < k)%Z -> Js.slice_from (- k) l = drop (length l - Z.to_nat k) l.
Proof.
  intros Hk. unfold Js.slice_from.
  destruct (Z.ltb_spec (- k) 0); [|lia]. f_equal. lia.
Qed.

Lemma slice_from_suffix {A} (k : Z) (pre l : list A) :
  (0 < k)%Z -> (Z.to_nat k <= length l)%nat ->
  Js.slice_from (- k) (pre ++ l) = Js.slice_from (- k) l.
Proof.
  intros Hk Hl. rewrite !slice_from_last by exact Hk.
  rewrite length_app, drop_app.
  replace (length pre + length l - Z.to_nat k - length pre)%nat
    with (length l - Z.to_nat k)%nat by lia.
  rewrite drop_ge by lia. reflexivity.
Qed.

Lemma record_history (ty : string) (s : Supplicant.t) :
  Supplicant._history (fst (Supplicant.record ty s))
  = (if (Supplicant._seqLen s * 3
         <? Z.of_nat (length (Supplicant._history s ++ [ty])))%Z
     then Js.slice_from (- Supplicant._seqLen s * 2)
                        (Supplicant._history s ++ [ty])
     else Supplicant._history s ++ [ty]).
Proof. reflexivity. Qed.

Lemma observe_seqLen (tys : list string) (s : Supplicant.t) :
  Supplicant._seqLen (observe tys s) = Supplicant._seqLen s.
Proof.
  induction tys as [|ty tys IH] using rev_ind; [reflexivity|].
  rewrite observe_snoc. exact IH.
Qed.

Lemma history_invariant (tys : list string) (sequenceLength : Z) :
  (1 <= sequenceLength)%Z ->
  let s := observe tys (Supplicant.new (Some sequenceLength)) in
  (Z.of_nat (length (Supplicant._history s)) <= 3 * sequenceLength)%Z /\
  (exists older, tys = older ++ Supplicant._history s) /\
  (Supplicant._history s = tys \/
   (sequenceLength <= Z.of_nat (length (Supplicant._history s)))%Z).
Proof.
  intros Hsl. cbv zeta. induction tys as [|ty tys IH] using rev_ind.
  - cbn. repeat split; [lia | exists []; reflexivity | auto].
  - rewrite observe_snoc, record_history, observe_seqLen.
    set (h := Supplicant._history
                (observe tys (Supplicant.new (Some sequenceLength)))) in *.
    change (Supplicant._seqLen (Supplicant.new (Some sequenceLength)))
      with sequenceLength.
    destruct IH as (Hlen & (older & Hold) & Hfull). clearbody h.
    rewrite length_app in *. cbn [length] in *.
    destruct (Z.ltb_spec (sequenceLength * 3)
                         (Z.of_nat (length h + 1)%nat)) as [Hbig | Hsmall].
    + replace (- sequenceLength * 2)%Z with (- (sequenceLength * 2))%Z by lia.
      rewrite slice_from_last by lia.
      rewrite length_drop, length_app. cbn [length].
      split; [clear - Hsl Hbig; lia|].
      split; [|right; clear - Hsl Hbig; lia].
      exists (older ++ take (length h + 1 - Z.to_nat (sequenceLength * 2))
                           (h ++ [ty])).
      rewrite <- app_assoc, take_drop, Hold, <- app_assoc. reflexivity.
    + rewrite !length_app. cbn [length]. split; [lia|]. split.
      * exists older. rewrite Hold, <- app_assoc. reflexivity.
      * destruct Hfull as [-> | Hge]; [left; reflexivity | right; lia].
Qed.

Lemma history_slice (tys : list string) (sequenceLength : Z) :
  (1 <= sequenceLength)%Z ->
  Js.slice_from (- sequenceLength)
    (Supplicant._history (observe tys (Supplicant.new (Some sequenceLength))))
  = Js.slice_from (- sequenceLength) tys.
Proof.
  intros Hsl.
  destruct (history_invariant tys sequenceLength Hsl)
    as (_ & (older & Hold) & Hfull).
  cbv zeta in Hold, Hfull.
  set (h := Supplicant._history _) in *. clearbody h.
  destruct Hfull as [-> | Hge]; [reflexivity|].
  rewrite Hold. symmetry. apply slice_from_suffix; lia.
Qed.

(** With a sequence length of at least 1 the history never holds more than
    three times the sequence length, it is always the most recent part of
    what was recorded, and trimming it never changes the window that the
    prediction is made from: that window is the last [sequenceLength] kinds
    recorded. *)
Theorem history_window (tys : list string) (sequenceLength : Z) :
  (1 <= sequenceLength)%Z ->
  let s := observe tys (Supplicant.new (Some sequenceLength)) in
  (Z.of_nat (length (Supplicant._history s)) <= 3 * sequenceLength)%Z /\
  (exists older, tys = older ++ Supplicant._history s) /\
  Js.slice_from (- sequenceLength) (Supplicant._history s)
    = Js.slice_from (- sequenceLength) tys.
Proof.
  intros Hsl s.
  destruct (history_invariant tys sequenceLength Hsl) as (Hlen & Hold & _).
  split; [exact Hlen|]. split; [exact Hold|].
  apply history_slice. exact Hsl.
Qed.

Lemma history_window_witness :
  Js.slice_from (- 2)
    (Supplicant._history
       (observe ["offer"; "offer"; "pray"] (Supplicant.new (Some 2%Z))))
  = Js.slice_from (- 2) ["offer"; "offer"; "pray"].
Proof. apply (history_window ["offer"; "offer"; "pray"] 2). lia. Defined.

Lemma tally_get_incr (ty t : string) (counts : list (string * nat)) :
  tally_get ty (Supplicant.incr t counts)
  = if String.eqb t ty then S (tally_get ty counts) else tally_get ty counts.
Proof.
  induction counts as [|[k c] rest IH]; simpl.
  - destruct (String.eqb t ty); reflexivity.
  - destruct (String.eqb_spec k t) as [->|Hkt]; simpl.
    + destruct (String.eqb t ty); reflexivity.
    + destruct (String.eqb_spec k ty) as [->|Hk].
      * destruct (String.eqb_spec t ty); [congruence | reflexivity].
      * exact IH.
Qed.

Lemma incr_keys (t k : string) (counts : list (string * nat)) :
  k ∈ map fst (Supplicant.incr t counts) -> k = t \/ k ∈ map fst counts.
Proof.
  induction counts as [|[k0 c] rest IH]; simpl.
  - rewrite list_elem_of_singleton. auto.
  - destruct (String.eqb_spec k0 t) as [->|Hkt]; simpl.
    + rewrite !elem_of_cons. tauto.
    + rewrite !elem_of_cons. intros [-> | H]; [auto|].
      destruct (IH H); auto.
Qed.

Lemma incr_NoDup (t : string) (counts : list (string * nat)) :
  NoDup (map fst counts) -> NoDup (map fst (Supplicant.incr t counts)).
Proof.
  induction counts as [|[k c] rest IH]; simpl; intros Hnd.
  - apply NoDup_singleton.
  - apply NoDup_cons in Hnd. destruct Hnd as [Hk Hnd].
    destruct (String.eqb_spec k t) as [->|Hkt]; simpl.
    + apply NoDup_cons. auto.
    + apply NoDup_cons. split; [|auto].
      intros Hin. destruct (incr_keys _ _ _ Hin); auto.
Qed.

Lemma tally_get_in (t : string) (counts : list (string * nat)) :
  tally_get t counts = O \/ (t, tally_get t counts) ∈ counts.
Proof.
  induction counts as [|[k c] rest IH]; simpl; [auto|].
  destruct (String.eqb_spec k t) as [->|Hkt].
  - right. apply elem_of_cons. auto.
  - destruct IH; [auto | right; apply elem_of_cons; auto].
Qed.

Lemma tally_get_unique (k : string) (c : nat) (counts : list (string * nat)) :
  NoDup (map fst counts) -> (k, c) ∈ counts -> tally_get k counts = c.
Proof.
  induction counts as [|[k0 c0] rest IH]; simpl; intros Hnd Hin.
  - apply elem_of_nil in Hin. contradiction.
  - apply NoDup_cons in Hnd. destruct Hnd as [Hk Hnd].
    apply elem_of_cons in Hin.
    destruct (String.eqb_spec k0 k) as [->|Hne].
    + destruct Hin as [[= <-] | Hin]; [reflexivity|].
      exfalso. apply Hk. apply (list_elem_of_fmap_2 fst) in Hin. exact Hin.
    + destruct Hin as [[= <- <-] | Hin]; [contradiction | auto].
Qed.

(** The tally of a window has every kind of the window once as a key, with
    the number of its occurrences. *)
Lemma tally_occurrences (window : list string) :
  let counts := fold_left (fun cs t => Supplicant.incr t cs) window [] in
  NoDup (map fst counts) /\
  forall t, tally_get t counts = occurrences t window.
Proof.
  induction window as [|t0 window IH] using rev_ind.
  - simpl. split; [apply NoDup_nil_2 | reflexivity].
  - cbv zeta in *. rewrite fold_left_app. cbn [fold_left].
    destruct IH as [Hnd Hget]. split; [apply incr_NoDup, Hnd|].
    intros t. rewrite tally_get_incr, Hget.
    unfold occurrences. rewrite filter_app, length_app, filter_cons, filter_nil.
    destruct (String.eqb_spec t0 t) as [->|Hne].
    + destruct (decide (t = t)); [|contradiction]. cbn. lia.
    + destruct (decide (t0 = t)); [contradiction|]. cbn. lia.
Qed.

(** The scan for the best count: it ends on an entry of the tally that no
    entry exceeds, or on where it started. *)
Lemma best_scan (counts : list (string * nat)) (b : option string * nat) :
  let step := fun (b : option string * nat) (tc : string * nat) =>
                if (snd b <? snd tc)%nat then (Some (fst tc), snd tc) else b in
  let r := fold_left step counts b in
  (snd b <= snd r)%nat /\
  (forall kc, kc ∈ counts -> (snd kc <= snd r)%nat) /\
  (r = b \/ exists kc, kc ∈ counts /\ r = (Some (fst kc), snd kc)).
Proof.
  intros step. revert b. induction counts as [|kc counts IH]; intros b.
  - simpl. split; [lia|]. split; [|auto].
    intros kc Hin. apply elem_of_nil in Hin. contradiction.
  - cbn [fold_left]. destruct (IH (step b kc)) as (Hle & Hall & Hr).
    assert (Hstep : (snd b <= snd (step b kc))%nat /\
                    (snd kc <= snd (step b kc))%nat).
    { unfold step. destruct (Nat.ltb_spec (snd b) (snd kc)); simpl; lia. }
    split; [lia|]. split.
    + intros kc' Hin. apply elem_of_cons in Hin.
      destruct Hin as [-> | Hin]; [lia | auto].
    + destruct Hr as [Hr | (kc' & Hin & Hr)].
      * cbv zeta. rewrite Hr. unfold step.
        destruct (snd b <? snd kc)%nat; [right | left; reflexivity].
        exists kc. split; [apply elem_of_cons; auto | reflexivity].
      * right. exists kc'. split; [apply elem_of_cons; auto | exact Hr].
Qed.

Lemma occurrences_member (t : string) (tys : list string) :
  (0 < occurrences t tys)%nat <-> t ∈ tys.
Proof.
  unfold occurrences. split.
  - intros H. destruct (filter _ tys) as [|x xs] eqn:E; [simpl in H; lia|].
    assert (Hx : x ∈ filter (fun t0 => t0 = t) tys)
      by (rewrite E; apply elem_of_cons; auto).
    apply list_elem_of_filter in Hx. destruct Hx as [-> Hx]. exact Hx.
  - intros H.
    assert (Hx : t ∈ filter (fun t0 => t0 = t) tys)
      by (apply list_elem_of_filter; auto).
    destruct (filter _ tys); [apply elem_of_nil in Hx; contradiction|].
    simpl. lia.
Qed.

(** What [_predict] computes on a window that is not empty: a kind of the
    window that no kind of the window occurs more often than, and its share
    of the window. *)
Lemma predict_plurality (s : Supplicant.t) :
  let window := Js.slice_from (- Supplicant._seqLen s) (Supplicant._history s) in
  window <> [] ->
  exists t,
    fst (Supplicant._predict s) = Some t /\
    t ∈ window /\
    (forall t', (occurrences t' window <= occurrences t window)%nat) /\
    snd (Supplicant._predict s)
      = INR (occurrences t window) / INR (length window).
Proof.
  intros window Hne. unfold Supplicant._predict. fold window.
  set (counts := fold_left (fun cs t => Supplicant.incr t cs) window []).
  destruct (tally_occurrences window) as [Hnd Hget]. fold counts in Hnd, Hget.
  pose proof (best_scan counts (None, O)) as Hbest. cbv zeta in Hbest.
  set (best := fold_left _ counts (None, O)) in *.
  destruct Hbest as (_ & Hall & Hr).
  assert (Hmax : forall t', (occurrences t' window <= snd best)%nat).
  { intros t'. rewrite <- Hget.
    destruct (tally_get_in t' counts) as [-> | Hin]; [lia|].
    apply (Hall _ Hin). }
  destruct window as [|t0 rest] eqn:Ew; [contradiction|].
  assert (Hpos : (0 < snd best)%nat).
  { apply Nat.lt_le_trans with (occurrences t0 (t0 :: rest)); [|apply Hmax].
    apply occurrences_member, elem_of_cons. auto. }
  destruct Hr as [Hr | ([k c] & Hin & Hr)].
  { rewrite Hr in Hpos. simpl in Hpos. lia. }
  rewrite Hr in *. cbn [fst snd] in *.
  assert (Hc : occurrences k (t0 :: rest) = c).
  { rewrite <- Hget. apply tally_get_unique; assumption. }
  exists k. split; [reflexivity|]. split.
  { apply occurrences_member. lia. }
  split; [intros t'; rewrite Hc; apply Hmax|].
  rewrite Hc. reflexivity.
Qed.

(** With a sequence length of at least 1, a supplicant that started fresh
    and has recorded at least one kind, none of them an inherited property
    name, predicts a kind that occurs among the last [sequenceLength] kinds
    recorded at least as often as any other kind; its confidence is the
    share of that kind in the window, above 0 and at most 1. *)
Theorem prediction_is_plurality
    (tys : list string) (sequenceLength : Z) :
  plain_kinds tys ->
  (1 <= sequenceLength)%Z ->
  tys <> [] ->
  let s := observe tys (Supplicant.new (Some sequenceLength)) in
  let window := Js.slice_from (- sequenceLength) tys in
  exists t,
    Supplicant._lastPrediction s = Some t /\
    t ∈ window /\
    (forall t', (occurrences t' window <= occurrences t window)%nat) /\
    Supplicant._lastConfidence s
      = INR (occurrences t window) / INR (length window) /\
    0 < Supplicant._lastConfidence s <= 1.
Proof.
  intros _ Hsl Hne s window.
  assert (Hw : Js.slice_from (- Supplicant._seqLen s) (Supplicant._history s)
               = window).
  { unfold s. rewrite observe_seqLen. apply history_slice. exact Hsl. }
  assert (Hwne : window <> []).
  { unfold window. rewrite slice_from_last by lia.
    destruct tys as [|t0 tys']; [contradiction|].
    intros E. apply (f_equal length) in E.
    rewrite length_drop in E. cbn [length] in E. lia. }
  assert (Hp : Supplicant._lastPrediction s = fst (Supplicant._predict s) /\
               Supplicant._lastConfidence s = snd (Supplicant._predict s)).
  { unfold s. destruct tys as [|t0 tys'] using rev_ind; [contradiction|].
    rewrite observe_snoc. split; reflexivity. }
  destruct Hp as [Hp Hc].
  pose proof (predict_plurality s) as H. cbv zeta in H. rewrite Hw in H.
  destruct (H Hwne) as (t & Ht & Hin & Hmax & Hconf).
  exists t. rewrite Hp, Hc, Ht, Hconf.
  split; [reflexivity|]. split; [exact Hin|]. split; [exact Hmax|].
  split; [reflexivity|].
  assert (Hocc : (0 < occurrences t window)%nat)
    by (apply occurrences_member; exact Hin).
  assert (Hlen : (occurrences t window <= length window)%nat)
    by (unfold occurrences; apply length_filter).
  assert (0 < INR (length window)) by (apply lt_0_INR; lia).
  split.
  - apply Rdiv_lt_0_compat; [apply lt_0_INR; lia | assumption].
  - apply Rmult_le_reg_r with (INR (length window)); [assumption|].
    unfold Rdiv. rewrite Rmult_assoc, Rinv_l, Rmult_1_r, Rmult_1_l by lra.
    apply le_INR. exact Hlen.
Qed.

Lemma prediction_is_plurality_witness :
  exists t,
    Supplicant._lastPrediction
      (observe ["offer"; "offer"; "pray"] (Supplicant.new (Some 10%Z)))
    = Some t.
Proof.
  destruct (prediction_is_plurality ["offer"; "offer"; "pray"] 10)
    as (t & Ht & _);
    [apply (bool_decide_unpack _); vm_compute; exact I | lia | discriminate |].
  exists t. exact Ht.
Defined.

(* ================================================================== *)
(** * Further properties of the deity *)

Lemma tick_step_listeners (d : Deity.t) :
  Deity._listeners (fst (Deity.tick_step d)) = Deity._listeners d.
Proof.
  unfold Deity.tick_step. rewrite checkEvents_state.
  cbn [Deity.with_prevDominant Deity._listeners].
  destruct (ticks_gtb _ _); reflexivity.
Qed.

Lemma steps_listeners (n : nat) (d : Deity.t) :
  Deity._listeners (steps n d) = Deity._listeners d.
Proof.
  revert d. induction n as [|n IH]; intros d; [reflexivity|].
  cbn [steps]. rewrite IH. apply tick_step_listeners.
Qed.

Lemma unsubscribe_listeners_intact (event : string) (fn : Fn) (d : Deity.t) :
  listeners_intact d -> listeners_intact (Deity.unsubscribe event fn d).
Proof.
  intros H. unfold Deity.unsubscribe.
  destruct (Deity._listeners d !! event) as [fns|] eqn:E; [|exact H].
  intros e. cbn [Deity.with_listeners Deity._listeners].
  rewrite lookup_insert_is_Some, <- (H e).
  destruct (decide (event = e)) as [->|]; [|tauto].
  rewrite E. split; eauto.
Qed.

Lemma modulate_listeners (sig : Signal) (d : Deity.t) :
  Deity._listeners (Deity._modulateFromSurprise sig d) = Deity._listeners d.
Proof. apply modulate_keeps. Qed.

Lemma run_op_listeners_intact (op : Op) (d : Deity.t) :
  listeners_intact d -> listeners_intact (run_op op d).
Proof.
  intros H. destruct op; cbn [run_op]; auto.
  - unfold listeners_intact, Deity.offer. rewrite modulate_listeners. exact H.
  - unfold listeners_intact, Deity.pray. rewrite modulate_listeners. exact H.
  - unfold listeners_intact, Deity.desecrate. rewrite modulate_listeners.
    exact H.
  - destruct (Deity.on event fn d) as [d'|e d'] eqn:E.
    + apply (on_listeners_intact event fn d d' H E).
    + unfold Deity.on in E. destruct (Deity._listeners d !! event);
        [discriminate|]. destruct (bool_decide _); injection E as _ <-; exact H.
  - apply unsubscribe_listeners_intact. exact H.
Qed.

(** The listener table of every deity that the API produces has exactly the
    six event names as keys. *)
Lemma produced_listeners_intact (d : Deity.t) : produced d -> listeners_intact d.
Proof.
  induction 1 as [o | data | op d _ IH | dt d _ IH].
  - apply new_listeners_intact.
  - apply (new_listeners_intact
             (Deity.mkOpts (fun _ => None) (Some (Deity.data_name data)) None
                None None None (Deity.data_thresholds data)
                (Some (Deity.data_alignment data)) (Deity.data_favorMap data)
                (Some (Deity.data_neglectThreshold data)))).
  - apply run_op_listeners_intact. exact IH.
  - unfold listeners_intact, Deity.tick.
    rewrite tick_loop_steps, steps_listeners. exact IH.
Qed.

(** On every deity that the API produces, subscribing to a name outside the
    six event names throws and writes nothing: the error is the
    [Unknown event] error of the explicit check, or, for a property name
    that every object inherits, the failure of [.push]. *)
Theorem subscribe_unknown_event (event : string) (fn : Fn) (d : Deity.t) :
  produced d ->
  event ∉ Deity.EVENTS ->
  Deity.on event fn d
    = Throw (if bool_decide (event ∈ object_prototype_keys)
             then NotAFunction event else UnknownEvent event) d /\
  run_op (OpOn event fn) d = d.
Proof.
  intros Hd Hn. pose proof (produced_listeners_intact d Hd) as H.
  assert (E : Deity._listeners d !! event = None).
  { destruct (Deity._listeners d !! event) eqn:E; [|reflexivity].
    exfalso. apply Hn, H. rewrite E. eauto. }
  cbn [run_op]. unfold Deity.on. rewrite E.
  destruct (bool_decide _); auto.
Qed.

Lemma subscribe_unknown_event_witness :
  Deity.on "toString" 7%nat (Deity.new default_opts)
    = Throw (NotAFunction "toString") (Deity.new default_opts) /\
  Deity.on "blessing" 7%nat (Deity.new default_opts)
    = Throw (UnknownEvent "blessing") (Deity.new default_opts).
Proof.
  split.
  - apply (subscribe_unknown_event "toString" 7%nat (Deity.new default_opts)).
    + apply produced_new.
    + unfold Deity.EVENTS. rewrite !elem_of_cons, elem_of_nil.
      intros H. repeat (destruct H as [H | H]; [discriminate|]). exact H.
  - apply (subscribe_unknown_event "blessing" 7%nat (Deity.new default_opts)).
    + apply produced_new.
    + unfold Deity.EVENTS. rewrite !elem_of_cons, elem_of_nil.
      intros H. repeat (destruct H as [H | H]; [discriminate|]). exact H.
Defined.

Lemma with_listeners_same (d : Deity.t) :
  Deity.with_listeners (Deity._listeners d) d = d.
Proof. destruct d. reflexivity. Qed.

(** On every deity that the API produces, subscribing to one of the six
    event names puts the callback at the end of the list of that event and
    touches no other list; the unsubscribe closure takes every registration
    of that callback out of the list, and gives the deity back as it was
    when the callback was not registered for the event before. *)
Theorem subscribe_then_unsubscribe (event : string) (fn : Fn) (d : Deity.t) :
  produced d ->
  event ∈ Deity.EVENTS ->
  exists fns d1,
    Deity._listeners d !! event = Some fns /\
    Deity.on event fn d = Ok d1 /\
    Deity._listeners d1 !! event = Some (fns ++ [fn]) /\
    (forall other, other <> event ->
       Deity._listeners d1 !! other = Deity._listeners d !! other) /\
    Deity._listeners (Deity.unsubscribe event fn d1) !! event
      = Some (filter (fun f => f <> fn) fns) /\
    (fn ∉ fns -> Deity.unsubscribe event fn d1 = d).
Proof.
  intros Hd Hin. pose proof (produced_listeners_intact d Hd) as H.
  destruct (on_known_subscribes event fn d H Hin) as (fns & E & Hon).
  exists fns. eexists. split; [exact E|]. split; [exact Hon|].
  cbn [Deity.with_listeners Deity._listeners].
  split; [apply lookup_insert_eq|]. split.
  { intros other Hne. apply lookup_insert_ne. congruence. }
  assert (Hf : filter (fun f => f <> fn) (fns ++ [fn])
               = filter (fun f => f <> fn) fns).
  { rewrite filter_app, filter_cons, filter_nil.
    destruct (decide (fn <> fn)); [contradiction|]. apply app_nil_r. }
  unfold Deity.unsubscribe. cbn [Deity.with_listeners Deity._listeners].
  rewrite lookup_insert_eq, Hf, insert_insert_eq. split.
  - apply lookup_insert_eq.
  - intros Hnot.
    assert (Hid : filter (fun f => f <> fn) fns = fns).
    { clear -Hnot. induction fns as [|f fns IH]; [reflexivity|].
      rewrite filter_cons. rewrite not_elem_of_cons in Hnot.
      destruct Hnot as [Hne Hnot].
      destruct (decide (f <> fn)); [|exfalso; auto].
      rewrite IH by exact Hnot. reflexivity. }
    rewrite Hid, (insert_id _ _ _ E).
    destruct d. reflexivity.
Qed.

Lemma subscribe_then_unsubscribe_witness :
  exists d1,
    Deity.on "wrath" 7%nat (Deity.new default_opts) = Ok d1 /\
    Deity.unsubscribe "wrath" 7%nat d1 = Deity.new default_opts.
Proof.
  destruct (subscribe_then_unsubscribe "wrath" 7%nat (Deity.new default_opts))
    as (fns & d1 & E & Hon & _ & _ & _ & Hback).
  - apply produced_new.
  - unfold Deity.EVENTS. rewrite !elem_of_cons. auto 10.
  - exists d1. split; [exact Hon|]. apply Hback.
    change (Deity._listeners (Deity.new default_opts) !! "wrath")
      with (Some (@nil Fn)) in E.
    injection E as <-. apply not_elem_of_nil.
Defined.

Lemma no_listeners_lookup (event : string) (fns : list Fn) :
  Deity.no_listeners !! event = Some fns -> fns = [].
Proof.
  unfold Deity.no_listeners. cbn [fold_left Deity.EVENTS].
  repeat (rewrite lookup_insert_Some; intros [[_ <-] | [_ H]];
          [reflexivity | revert H]).
  rewrite lookup_empty. discriminate.
Qed.



(* ------------------------------------------------------------------ *)
(** ** What the calls write to the ledger *)

Lemma modulate_extends (sig : Signal) (d : Deity.t) :
  exists extra,
    Ledger._entries (Deity.ledger (Deity._modulateFromSurprise sig d))
      = Ledger._entries (Deity.ledger d) ++ extra /\
    Forall (fun e => tick e = Ledger._tick (Deity.ledger d)
                     /\ synthetic (meta e) = Some true) extra /\
    (length extra <= 1)%nat /\
    Ledger._tick (Deity.ledger (Deity._modulateFromSurprise sig d))
      = Ledger._tick (Deity.ledger d) /\
    Ledger._halfLife (Deity.ledger (Deity._modulateFromSurprise sig d))
      = Ledger._halfLife (Deity.ledger d).
Proof.
  assert (Hnil : exists extra : list Entry,
            Ledger._entries (Deity.ledger d)
              = Ledger._entries (Deity.ledger d) ++ extra /\
            Forall (fun e => tick e = Ledger._tick (Deity.ledger d)
                             /\ synthetic (meta e) = Some true) extra /\
            (length extra <= 1)%nat /\
            Ledger._tick (Deity.ledger d) = Ledger._tick (Deity.ledger d) /\
            Ledger._halfLife (Deity.ledger d)
              = Ledger._halfLife (Deity.ledger d)).
  { exists []. rewrite app_nil_r. repeat split; auto. }
  unfold Deity._modulateFromSurprise.
  destruct (predicted sig); [|exact Hnil].
  destruct (surprised sig).
  { eexists. split; [reflexivity|]. split; [repeat constructor|].
    repeat split; auto. }
  destruct (Supplicant.omniscient _); [|exact Hnil].
  eexists. split; [reflexivity|]. split; [repeat constructor|].
  repeat split; auto.
Qed.

(** What one call other than [tick] does to the ledger. *)
Lemma op_appends (op : Op) (d : Deity.t) :
  exists extra,
    Ledger._entries (Deity.ledger (run_op op d))
      = Ledger._entries (Deity.ledger d) ++ extra /\
    Forall (fun e => tick e = Ledger._tick (Deity.ledger d)) extra /\
    (length extra <= 2)%nat /\
    Ledger._tick (Deity.ledger (run_op op d)) = Ledger._tick (Deity.ledger d) /\
    Ledger._halfLife (Deity.ledger (run_op op d))
      = Ledger._halfLife (Deity.ledger d).
Proof.
  assert (Hnil : exists extra : list Entry,
            Ledger._entries (Deity.ledger d)
              = Ledger._entries (Deity.ledger d) ++ extra /\
            Forall (fun e => tick e = Ledger._tick (Deity.ledger d)) extra /\
            (length extra <= 2)%nat /\
            Ledger._tick (Deity.ledger d) = Ledger._tick (Deity.ledger d) /\
            Ledger._halfLife (Deity.ledger d)
              = Ledger._halfLife (Deity.ledger d)).
  { exists []. rewrite app_nil_r. repeat split; auto. }
  assert (Hmod : forall ty m s sig,
    exists extra,
      Ledger._entries (Deity.ledger
        (Deity._modulateFromSurprise sig
           (Deity.with_supplicant s
              (Deity.with_ledger (Ledger.record ty m (Deity.ledger d)) d))))
        = Ledger._entries (Deity.ledger d) ++ extra /\
      Forall (fun e => tick e = Ledger._tick (Deity.ledger d)) extra /\
      (length extra <= 2)%nat /\
      Ledger._tick (Deity.ledger
        (Deity._modulateFromSurprise sig
           (Deity.with_supplicant s
              (Deity.with_ledger (Ledger.record ty m (Deity.ledger d)) d))))
        = Ledger._tick (Deity.ledger d) /\
      Ledger._halfLife (Deity.ledger
        (Deity._modulateFromSurprise sig
           (Deity.with_supplicant s
              (Deity.with_ledger (Ledger.record ty m (Deity.ledger d)) d))))
        = Ledger._halfLife (Deity.ledger d)).
  { intros ty m s sig.
    destruct (modulate_extends sig
                (Deity.with_supplicant s
                   (Deity.with_ledger (Ledger.record ty m (Deity.ledger d)) d)))
      as (extra & -> & Hf & Hl & -> & ->).
    exists (mkEntry ty (Ledger._tick (Deity.ledger d)) m :: extra).
    cbn [Deity.ledger Deity.with_supplicant Deity.with_ledger Ledger.record
         Ledger._entries Ledger._tick Ledger._halfLife] in *.
    rewrite <- app_assoc. split; [reflexivity|]. split.
    - constructor; [reflexivity|].
      eapply Forall_impl; [exact Hf|]. intros e [He _]. exact He.
    - repeat split. cbn [length]. lia. }
  destruct op; cbn [run_op]; try exact Hnil.
  - apply Hmod.
  - apply Hmod.
  - apply Hmod.
  - eexists. split; [reflexivity|]. repeat split; auto.
  - unfold Deity.on. destruct (Deity._listeners d !! event); [exact Hnil|].
    destruct (bool_decide _); exact Hnil.
  - unfold Deity.unsubscribe.
    destruct (Deity._listeners d !! event); exact Hnil.
Qed.

(** What one tick step does to the ledger. *)
Lemma tick_step_appends (d : Deity.t) :
  let t := Ledger._tick (Deity.ledger d) in
  exists extra,
    Ledger._entries (Deity.ledger (fst (Deity.tick_step d)))
      = Ledger._entries (Deity.ledger d) ++ extra /\
    (extra = [] \/ extra = [mkEntry "neglect" (t + 1) Deity.neglect_meta]) /\
    Ledger._tick (Deity.ledger (fst (Deity.tick_step d))) = (t + 1)%Z /\
    Ledger._halfLife (Deity.ledger (fst (Deity.tick_step d)))
      = Ledger._halfLife (Deity.ledger d).
Proof.
  intros t. destruct (tick_step_ledger d) as (-> & _ & _).
  destruct (ticks_gtb _ _).
  - eexists. split; [reflexivity|]. split; [right; reflexivity|].
    split; reflexivity.
  - exists []. rewrite app_nil_r. split; [reflexivity|]. split; [left; auto|].
    split; reflexivity.
Qed.

Lemma steps_snoc (n : nat) (d : Deity.t) :
  steps (S n) d = fst (Deity.tick_step (steps n d)).
Proof.
  revert d. induction n as [|n IH]; intros d; [reflexivity|].
  change (steps (S (S n)) d) with (steps (S n) (fst (Deity.tick_step d))).
  rewrite IH. reflexivity.
Qed.




(* ------------------------------------------------------------------ *)
(** ** The clock of a deity *)

Lemma chronological_app (es extra : list Entry) (t : Z) :
  Forall (fun e => (tick e <= t)%Z) es -> chronological es ->
  Forall (fun e => (t <= tick e)%Z) extra -> chronological extra ->
  chronological (es ++ extra).
Proof.
  intros H1 Hc1 H2 Hc2. apply StronglySorted_app_2; auto.
  intros a b Ha Hb. rewrite Forall_forall in H1, H2.
  specialize (H1 a Ha). specialize (H2 b Hb). lia.
Qed.

Lemma same_tick_chronological (extra : list Entry) (t : Z) :
  Forall (fun e => tick e = t) extra -> chronological extra.
Proof.
  induction 1 as [|e es He Hf IH]; constructor; [exact IH|].
  eapply Forall_impl; [exact Hf|]. cbv beta. intros x Hx. lia.
Qed.

Lemma new_in_step (o : Deity.Opts) : in_step (Deity.new o).
Proof.
  unfold in_step. cbn. repeat split; try lia; constructor.
Qed.

Lemma run_op_in_step (op : Op) (d : Deity.t) :
  in_step d -> in_step (run_op op d).
Proof.
  intros (Ht & H0 & Hr & Hf & Hc).
  destruct (run_op_keeps_mood op d) as [Hm Hk].
  destruct (op_appends op d) as (extra & He & Hx & _ & Hlt & _).
  unfold in_step. rewrite Hm, Hk, He, Hlt.
  split; [exact Ht|]. split; [exact H0|]. split; [exact Hr|]. split.
  - apply Forall_app. split; [exact Hf|].
    eapply Forall_impl; [exact Hx|]. cbv beta. intros e ->. lia.
  - apply (chronological_app _ _ (Deity._tick d)).
    + eapply Forall_impl; [exact Hf|]. cbv beta. intros e ?. lia.
    + exact Hc.
    + eapply Forall_impl; [exact Hx|]. cbv beta. intros e ->. lia.
    + apply (same_tick_chronological _ _ Hx).
Qed.

Lemma tick_step_in_step (d : Deity.t) :
  in_step d -> in_step (fst (Deity.tick_step d)).
Proof.
  intros (Ht & H0 & Hr & Hf & Hc).
  destruct (tick_step_appends d) as (extra & He & Hx & Hlt & _).
  destruct (tick_step_ledger d) as (_ & Hm & Hk).
  unfold in_step. rewrite Hm, Hk, He, Hlt, resolve_marks_tick.
  split; [lia|]. split; [lia|]. split.
  { destruct (Z.eqb_spec (Deity._tick d + 1) 0); [lia | reflexivity]. }
  assert (Hx' : Forall (fun e => tick e = (Deity._tick d + 1)%Z) extra).
  { destruct Hx as [-> | ->]; repeat constructor. cbn [tick]. lia. }
  split.
  - apply Forall_app. split.
    + eapply Forall_impl; [exact Hf|]. cbv beta. intros e ?. lia.
    + eapply Forall_impl; [exact Hx'|]. cbv beta. intros e ->. lia.
  - apply (chronological_app _ _ (Deity._tick d)).
    + eapply Forall_impl; [exact Hf|]. cbv beta. intros e ?. lia.
    + exact Hc.
    + eapply Forall_impl; [exact Hx'|]. cbv beta. intros e ->. lia.
    + apply (same_tick_chronological _ _ Hx').
Qed.

Lemma steps_in_step (n : nat) (d : Deity.t) : in_step d -> in_step (steps n d).
Proof.
  revert d. induction n as [|n IH]; intros d H; [exact H|].
  cbn [steps]. apply IH, tick_step_in_step, H.
Qed.

Lemma grown_in_step (d : Deity.t) : grown d -> in_step d.
Proof.
  induction 1 as [o | op d _ IH | dt d _ IH].
  - apply new_in_step.
  - apply run_op_in_step, IH.
  - unfold Deity.tick. rewrite tick_loop_steps. apply steps_in_step, IH.
Qed.

Lemma last_of_member (ty : string) (es : list Entry) (e : Entry) :
  Ledger.last_of ty es = Some e -> e ∈ es /\ type e = ty.
Proof.
  induction es as [|x es IH]; cbn [Ledger.last_of]; [discriminate|].
  destruct (String.eqb (type x) ty) eqn:E.
  - intros [= <-]. split; [left|]. apply String.eqb_eq, E.
  - intros H. destruct (IH H). split; [right|]; auto.
Qed.

(** In a deity grown from the constructor by calls of the API the clock of
    the ledger is the tick of the deity; the mood engine has resolved
    exactly the current tick (none at tick 0); every entry was born at a
    tick between 0 and the current one, and the entries are in the order of
    their birth ticks.  So no tick distance that the ledger reports is
    negative or greater than the tick, and the age of an entry never needs
    the clamp at 0 in [_weight]. *)
Theorem grown_clock (d : Deity.t) :
  grown d ->
  let l := Deity.ledger d in
  Ledger._tick l = Deity._tick d /\
  (0 <= Deity._tick d)%Z /\
  Mood._lastResolvedTick (Deity.mood d)
    = (if (Deity._tick d =? 0)%Z then -1 else Deity._tick d)%Z /\
  chronological (Ledger._entries l) /\
  (forall e, e ∈ Ledger._entries l ->
     (0 <= tick e <= Deity._tick d)%Z /\
     Ledger._weight l e
       = Rpower 0.5 (IZR (Deity._tick d - tick e) / Ledger._halfLife l)) /\
  (forall ty,
     Ledger.ticksSinceLast ty l = Infinity \/
     exists n, Ledger.ticksSinceLast ty l = Finite n /\
               (0 <= n <= Deity._tick d)%Z).
Proof.
  intros Hg l. destruct (grown_in_step d Hg) as (Ht & H0 & Hr & Hf & Hc).
  fold l in Ht, Hf, Hc. rewrite Forall_forall in Hf.
  split; [exact Ht|]. split; [exact H0|]. split; [exact Hr|].
  split; [exact Hc|]. split.
  - intros e He. specialize (Hf e He). split; [exact Hf|].
    unfold Ledger._weight. rewrite Ht, Z.max_r by lia. reflexivity.
  - intros ty. unfold Ledger.ticksSinceLast.
    destruct (Ledger.last_of ty (rev (Ledger._entries l))) as [e|] eqn:E;
      [right | left; reflexivity].
    apply last_of_member in E. destruct E as [He _].
    apply list_elem_of_In, in_rev, list_elem_of_In in He.
    specialize (Hf e He).
    eexists. split; [reflexivity|]. lia.
Qed.

Lemma fed_twice_grown : grown fed_twice.
Proof. apply grown_tick, grown_op, grown_new. Qed.

Lemma grown_clock_witness :
  Ledger._tick (Deity.ledger fed_twice) = Deity._tick fed_twice.
Proof. apply (grown_clock fed_twice). apply fed_twice_grown. Defined.




(* ------------------------------------------------------------------ *)
(** ** The callbacks that [tick] calls *)

Lemma emit_registered (event : string) (data : Payload) (d : Deity.t) :
  Forall (fun c => registered d c /\ event_name c = event)
         (Deity._emit event data d).
Proof.
  unfold Deity._emit, registered. apply Forall_forall. intros c Hc.
  apply list_elem_of_In, in_map_iff in Hc. destruct Hc as (fn & <- & Hfn).
  cbn [callee event_name]. split; [|reflexivity].
  apply list_elem_of_In, Hfn.
Qed.

Lemma checkEvents_registered (d : Deity.t) :
  Forall (fun c => registered d c /\ event_name c ∈ Deity.EVENTS)
         (snd (Deity._checkEvents d)).
Proof.
  assert (He : forall event data p,
            event ∈ Deity.EVENTS ->
            Forall (fun c => registered d c /\ event_name c ∈ Deity.EVENTS)
                   (Deity._emit event data (Deity.with_prevDominant p d))).
  { intros event data p Hin.
    eapply Forall_impl; [apply emit_registered|]. cbv beta.
    intros c [Hr ->]. split; [exact Hr | exact Hin]. }
  assert (He' : forall event data,
            event ∈ Deity.EVENTS ->
            Forall (fun c => registered d c /\ event_name c ∈ Deity.EVENTS)
                   (Deity._emit event data d)).
  { intros event data Hin.
    eapply Forall_impl; [apply emit_registered|]. cbv beta.
    intros c [Hr ->]. split; [exact Hr | exact Hin]. }
  assert (Hev : forall e, e ∈ Deity.EVENTS <->
            e = "moodShift" \/ e = "utterance" \/ e = "demand" \/ e = "omen"
            \/ e = "miracle" \/ e = "wrath").
  { intros e. unfold Deity.EVENTS. rewrite !elem_of_cons, elem_of_nil. tauto. }
  unfold Deity._checkEvents. cbn [snd].
  repeat apply Forall_app_2.
  - destruct (Deity._prevDominant d); [|constructor].
    destruct (bool_decide _); [|constructor]. apply He', Hev. tauto.
  - destruct (Deity.over _ _ _); [|constructor]. apply He, Hev. tauto.
  - destruct (Deity.over _ _ _); [|constructor]. apply He, Hev. tauto.
  - destruct (Deity.over _ _ _); [|constructor]. apply He, Hev. tauto.
  - destruct (_ && _); [|constructor]. apply He, Hev. tauto.
  - destruct (Deity._shouldSpeak _); [|constructor]. apply He, Hev. tauto.
Qed.

Lemma tick_step_registered (d : Deity.t) :
  Forall (fun c => registered d c /\ event_name c ∈ Deity.EVENTS)
         (snd (Deity.tick_step d)).
Proof.
  unfold Deity.tick_step.
  match goal with |- Forall _ (snd (Deity._checkEvents ?x)) =>
    pose proof (checkEvents_registered x) as H;
    assert (Hl : Deity._listeners x = Deity._listeners d)
  end.
  { destruct (ticks_gtb _ _); reflexivity. }
  eapply Forall_impl; [exact H|]. cbv beta. unfold registered.
  rewrite Hl. auto.
Qed.

Lemma tick_loop_registered (n : nat) (d : Deity.t) :
  Forall (fun c => registered d c /\ event_name c ∈ Deity.EVENTS)
         (snd (Deity.tick_loop n d)).
Proof.
  revert d. induction n as [|n IH]; intros d; [constructor|].
  rewrite tick_loop_calls. apply Forall_app_2.
  - apply tick_step_registered.
  - eapply Forall_impl; [apply IH|]. cbv beta. unfold registered.
    rewrite tick_step_listeners. auto.
Qed.

(* ------------------------------------------------------------------ *)
(** ** World actions *)

Lemma last_of_snoc_other (ty other : string) (m : Meta) (t : Z)
    (es : list Entry) :
  other <> ty ->
  Ledger.last_of other (rev (es ++ [mkEntry ty t m]))
  = Ledger.last_of other (rev es).
Proof.
  intros Hne. rewrite rev_app_distr. cbn [rev app Ledger.last_of type].
  assert (Hf : String.eqb ty other = false) by (apply String.eqb_neq; auto).
  rewrite Hf. reflexivity.
Qed.

(** A world action is recorded as one entry of the kind [action] and
    nothing else is written to the ledger; the predictive model takes it for
    an offering, exactly as [offer] would have it; and it does not count as
    a direct interaction: the distances to the last offer, prayer and
    desecration, which decide about neglect, stay as they are. *)
Theorem action_is_watched (ty : string) (m : Meta) (d : Deity.t) :
  (exists e,
     Deity.ledger (Deity.action ty m d)
       = Ledger.mk (Ledger._halfLife (Deity.ledger d))
                   (Ledger._entries (Deity.ledger d) ++ [e])
                   (Ledger._tick (Deity.ledger d)) /\
     type e = "action" /\ tick e = Ledger._tick (Deity.ledger d)) /\
  (forall oty om,
     Deity.supplicant (Deity.action ty m d)
     = Deity.supplicant (Deity.offer oty om d)) /\
  (forall kind, kind <> "action" ->
     Ledger.ticksSinceLast kind (Deity.ledger (Deity.action ty m d))
     = Ledger.ticksSinceLast kind (Deity.ledger d)) /\
  Deity.mood (Deity.action ty m d) = Deity.mood d /\
  Deity._tick (Deity.action ty m d) = Deity._tick d.
Proof.
  split; [eexists; split; [reflexivity | split; reflexivity]|].
  split.
  { intros oty om. unfold Deity.offer.
    match goal with |- context [Deity._modulateFromSurprise ?s ?x] =>
      destruct (modulate_keeps s x) as (_ & _ & -> & _)
    end.
    reflexivity. }
  split; [|split; reflexivity].
  intros kind Hne. unfold Ledger.ticksSinceLast, Deity.action.
  cbn [Deity.ledger Deity.with_supplicant Deity.with_ledger Ledger.record
       Ledger._entries Ledger._tick].
  rewrite last_of_snoc_other by exact Hne. reflexivity.
Qed.

Lemma action_is_watched_witness :
  Ledger.ticksSinceLast "offer"
    (Deity.ledger (Deity.action "heal" mighty (Deity.new default_opts)))
  = Ledger.ticksSinceLast "offer" (Deity.ledger (Deity.new default_opts)).
Proof.
  apply (action_is_watched "heal" mighty (Deity.new default_opts)).
  discriminate.
Defined.

(* ------------------------------------------------------------------ *)
(** ** Neglect *)

Lemma last_of_none (ty : string) (es : list Entry) :
  Forall (fun e => type e <> ty) es -> Ledger.last_of ty es = None.
Proof.
  induction 1 as [|e es He _ IH]; [reflexivity|].
  cbn [Ledger.last_of].
  destruct (String.eqb_spec (type e) ty); [contradiction | exact IH].
Qed.

Lemma never_seen (ty : string) (l : Ledger.t) :
  Forall (fun e => type e <> ty) (Ledger._entries l) ->
  Ledger.ticksSinceLast ty l = Infinity.
Proof.
  intros H. unfold Ledger.ticksSinceLast. rewrite last_of_none; [reflexivity|].
  apply Forall_forall. intros e He. rewrite Forall_forall in H. apply H.
  apply list_elem_of_In, in_rev, list_elem_of_In, He.
Qed.

Lemma neglects_snoc (t : Z) (n : nat) :
  neglects t (S n)
  = neglects t n ++ [mkEntry "neglect" (t + Z.of_nat (S n)) Deity.neglect_meta].
Proof. unfold neglects. rewrite seq_S, map_app. reflexivity. Qed.

Lemma idle_step (d : Deity.t) :
  below_infinity (Deity._neglectThreshold d) ->
  Forall (fun e => ~ direct (type e)) (Ledger._entries (Deity.ledger d)) ->
  Ledger._entries (Deity.ledger (fst (Deity.tick_step d)))
    = Ledger._entries (Deity.ledger d)
      ++ [mkEntry "neglect" (Ledger._tick (Deity.ledger d) + 1)
                  Deity.neglect_meta] /\
  Deity.supplicant (fst (Deity.tick_step d))
    = fst (Supplicant.record "neglect" (Deity.supplicant d)).
Proof.
  intros Hthr H.
  assert (Hn : forall ty, direct ty ->
            Ledger.ticksSinceLast ty (Ledger.advanceTick 1 (Deity.ledger d))
            = Infinity).
  { intros ty Hty. apply never_seen. cbn [Ledger.advanceTick Ledger._entries].
    eapply Forall_impl; [exact H|]. cbv beta. intros e He Heq.
    apply He. rewrite Heq. exact Hty. }
  unfold Deity.tick_step. rewrite checkEvents_state.
  cbn [Deity.with_prevDominant Deity.with_mood Deity.with_tick
       Deity.with_ledger Deity.ledger Deity.supplicant Deity._neglectThreshold].
  rewrite !Hn by (unfold direct; auto).
  cbn [ticks_min].
  destruct (Deity._neglectThreshold d); try contradiction;
    cbn [ticks_gtb]; split; reflexivity.
Qed.

Lemma patient_step (d : Deity.t) :
  ~ below_infinity (Deity._neglectThreshold d) ->
  Deity.ledger (fst (Deity.tick_step d))
    = Ledger.advanceTick 1 (Deity.ledger d) /\
  Deity.supplicant (fst (Deity.tick_step d)) = Deity.supplicant d.
Proof.
  intros Hthr. unfold Deity.tick_step. rewrite checkEvents_state.
  cbn [Deity.with_prevDominant Deity.with_mood Deity.with_tick
       Deity.with_ledger Deity.ledger Deity.supplicant Deity._neglectThreshold].
  destruct (Deity._neglectThreshold d); cbn [below_infinity] in Hthr;
    try (exfalso; apply Hthr; exact I);
    cbn [ticks_gtb]; split; reflexivity.
Qed.

Lemma steps_keep_threshold (n : nat) (d : Deity.t) :
  Deity._neglectThreshold (steps n d) = Deity._neglectThreshold d.
Proof.
  revert d. induction n as [|n IH]; intros d; [reflexivity|].
  cbn [steps]. rewrite IH.
  unfold Deity.tick_step. rewrite checkEvents_state.
  cbn [Deity.with_prevDominant Deity._neglectThreshold Deity.with_mood].
  destruct (ticks_gtb _ _); reflexivity.
Qed.

(** The ticks of a deity on which no callback is registered.  When
    [Infinity] exceeds the neglect threshold (any real number, the default
    3 among them, or [-Infinity]) and the ledger holds no offer, prayer or
    desecration (a new deity, or one that has only watched world actions),
    every tick records one neglect entry, from the first tick on, and
    shows it to the predictive model.  When the threshold is [Infinity] or
    [NaN], no tick ever records neglect, whatever the ledger holds. *)
Theorem idle_ticks_record_neglect (n : nat) (d : Deity.t) :
  silent d ->
  let d' := fst (Deity.tick (Z.of_nat n) d) in
  (below_infinity (Deity._neglectThreshold d) ->
   Forall (fun e => ~ direct (type e)) (Ledger._entries (Deity.ledger d)) ->
   Ledger._entries (Deity.ledger d')
     = Ledger._entries (Deity.ledger d)
       ++ neglects (Ledger._tick (Deity.ledger d)) n /\
   Supplicant._totalInteractions (Deity.supplicant d')
     = (Supplicant._totalInteractions (Deity.supplicant d) + n)%nat) /\
  (~ below_infinity (Deity._neglectThreshold d) ->
   Ledger._entries (Deity.ledger d') = Ledger._entries (Deity.ledger d) /\
   Deity.supplicant d' = Deity.supplicant d).
Proof.
  intros _ d'. unfold d', Deity.tick. rewrite Nat2Z.id, tick_loop_steps.
  clear d'. split.
  - intros Hthr H. induction n as [|n [IHe IHs]].
    + cbn [steps]. unfold neglects. cbn. rewrite app_nil_r.
      split; [auto | lia].
    + rewrite steps_snoc.
      assert (Hidle : Forall (fun e => ~ direct (type e))
                        (Ledger._entries (Deity.ledger (steps n d)))).
      { rewrite IHe. apply Forall_app. split; [exact H|].
        unfold neglects. apply Forall_forall. intros e He.
        apply list_elem_of_In, in_map_iff in He. destruct He as (i & <- & _).
        cbn [type]. unfold direct. intros [E | [E | E]]; discriminate. }
      assert (Hthr' : below_infinity (Deity._neglectThreshold (steps n d)))
        by (rewrite steps_keep_threshold; exact Hthr).
      destruct (idle_step (steps n d) Hthr' Hidle) as [-> ->].
      destruct (steps_counters n d) as [_ ->].
      rewrite IHe, neglects_snoc, <- app_assoc. split.
      * replace (Ledger._tick (Deity.ledger d) + Z.of_nat n + 1)%Z
          with (Ledger._tick (Deity.ledger d) + Z.of_nat (S n))%Z by lia.
        reflexivity.
      * cbn [Supplicant.record fst Supplicant._totalInteractions].
        rewrite IHs. lia.
  - intros Hthr. induction n as [|n [IHe IHs]]; [split; reflexivity|].
    rewrite steps_snoc.
    assert (Hthr' : ~ below_infinity (Deity._neglectThreshold (steps n d)))
      by (rewrite steps_keep_threshold; exact Hthr).
    destruct (patient_step (steps n d) Hthr') as [-> ->].
    split; [exact IHe | exact IHs].
Qed.

Lemma idle_ticks_record_neglect_witness :
  Ledger._entries (Deity.ledger (fst (Deity.tick 2 onlooker)))
    = Ledger._entries (Deity.ledger onlooker) ++ neglects 0 2 /\
  Ledger._entries (Deity.ledger (fst (Deity.tick 2 patient)))
    = Ledger._entries (Deity.ledger patient).
Proof.
  split.
  - apply (idle_ticks_record_neglect 2 onlooker).
    + intros event fns. apply no_listeners_lookup.
    + exact I.
    + repeat constructor; cbn [type]; unfold direct;
        intros [E | [E | E]]; discriminate.
  - apply (idle_ticks_record_neglect 2 patient).
    + intros event fns. apply no_listeners_lookup.
    + intros H. exact H.
Defined.

(* ------------------------------------------------------------------ *)
(** ** Restoring a whole deity *)

Lemma union_default_twice (m def : gmap string R) :
  (m ∪ def) ∪ def = m ∪ def.
Proof. rewrite <- (assoc_L (∪)). rewrite (idemp_L (∪)). reflexivity. Qed.

Lemma run_op_keeps_options (op : Op) (d : Deity.t) :
  Deity.name (run_op op d) = Deity.name d /\
  Deity._alignment (run_op op d) = Deity._alignment d /\
  Deity._favorMap (run_op op d) = Deity._favorMap d /\
  Deity._thresholds (run_op op d) = Deity._thresholds d /\
  Deity._neglectThreshold (run_op op d) = Deity._neglectThreshold d.
Proof.
  assert (Hm : forall sig x,
    Deity.name (Deity._modulateFromSurprise sig x) = Deity.name x /\
    Deity._alignment (Deity._modulateFromSurprise sig x) = Deity._alignment x /\
    Deity._favorMap (Deity._modulateFromSurprise sig x) = Deity._favorMap x /\
    Deity._thresholds (Deity._modulateFromSurprise sig x) = Deity._thresholds x /\
    Deity._neglectThreshold (Deity._modulateFromSurprise sig x)
      = Deity._neglectThreshold x).
  { intros sig x. unfold Deity._modulateFromSurprise.
    destruct (predicted sig); [|auto]. destruct (surprised sig); [auto|].
    destruct (Supplicant.omniscient _); auto. }
  destruct op; cbn [run_op]; auto.
  - unfold Deity.offer.
    match goal with |- context [Deity._modulateFromSurprise ?s ?x] =>
      destruct (Hm s x) as (-> & -> & -> & -> & ->) end.
    auto.
  - unfold Deity.pray.
    match goal with |- context [Deity._modulateFromSurprise ?s ?x] =>
      destruct (Hm s x) as (-> & -> & -> & -> & ->) end.
    auto.
  - unfold Deity.desecrate.
    match goal with |- context [Deity._modulateFromSurprise ?s ?x] =>
      destruct (Hm s x) as (-> & -> & -> & -> & ->) end.
    auto.
  - unfold Deity.on. destruct (Deity._listeners d !! event); [auto|].
    destruct (bool_decide _); auto.
  - unfold Deity.unsubscribe. destruct (Deity._listeners d !! event); auto.
Qed.

Lemma steps_keep_options (n : nat) (d : Deity.t) :
  Deity.name (steps n d) = Deity.name d /\
  Deity._alignment (steps n d) = Deity._alignment d /\
  Deity._favorMap (steps n d) = Deity._favorMap d /\
  Deity._thresholds (steps n d) = Deity._thresholds d /\
  Deity._neglectThreshold (steps n d) = Deity._neglectThreshold d.
Proof.
  revert d. induction n as [|n IH]; intros d; [auto|].
  cbn [steps]. destruct (IH (fst (Deity.tick_step d))) as (-> & -> & -> & -> & ->).
  unfold Deity.tick_step. rewrite checkEvents_state.
  cbn [Deity.with_prevDominant Deity.name Deity._alignment Deity._favorMap
       Deity._thresholds Deity._neglectThreshold Deity.with_mood].
  destruct (ticks_gtb _ _); auto.
Qed.

(** The favor map and the thresholds of every deity that the API produces
    hold the defaults of the constructor underneath. *)
Lemma produced_defaults (d : Deity.t) :
  produced d ->
  Deity._favorMap d ∪ Deity.default_favorMap = Deity._favorMap d /\
  Deity._thresholds d ∪ Deity.default_thresholds = Deity._thresholds d.
Proof.
  induction 1 as [o | data | op d _ IH | dt d _ IH].
  - split; apply union_default_twice.
  - split; apply union_default_twice.
  - destruct (run_op_keeps_options op d) as (_ & _ & -> & -> & _). exact IH.
  - unfold Deity.tick. rewrite tick_loop_steps.
    destruct (steps_keep_options (Z.to_nat dt) d) as (_ & _ & -> & -> & _).
    exact IH.
Qed.

Lemma mood_restore (m : Mood.t) :
  Mood.deserialize (Mood.serialize m) = renormalized m.
Proof.
  destruct m as [p h a v t]. unfold Mood.deserialize, Mood.serialize,
    renormalized. simpl. rewrite fromPartial_total. reflexivity.
Qed.

(** Restoring a snapshot of a deity that the API produced gives the deity
    back with two differences: the registered callbacks are not part of the
    snapshot, and the restored deity has none, so that its ticks make no
    calls; and the personality of the mood engine has gone through
    [normalize] once more.  Every other field is the one of the original:
    name, alignment, favor map, thresholds, neglect threshold, ledger,
    supplicant, tick, previous dominant dimension, and in the mood engine
    the vector, the hysteresis, the attractor strength and the last
    resolved tick. *)
Theorem restore_drops_listeners (d : Deity.t) :
  produced d ->
  let d' := Deity.deserialize (Deity.serialize d) in
  d' = Deity.with_listeners Deity.no_listeners
         (Deity.with_mood (renormalized (Deity.mood d)) d) /\
  forall dt, snd (Deity.tick dt d') = [].
Proof.
  intros Hd d'.
  assert (E : d' = Deity.with_listeners Deity.no_listeners
                     (Deity.with_mood (renormalized (Deity.mood d)) d)).
  { destruct (produced_defaults d Hd) as [Hf Ht].
    unfold d'. clear d' Hd. destruct d as [n a l m s f ls th nt pd tk].
    cbn [Deity._favorMap Deity._thresholds Deity.mood] in Hf, Ht.
    unfold Deity.deserialize, Deity.serialize, Deity.new.
    cbn -[Ledger.deserialize Ledger.serialize Mood.deserialize Mood.serialize
          Supplicant.deserialize Supplicant.serialize Deity.no_listeners
          Deity.default_favorMap Deity.default_thresholds union renormalized].
    rewrite Hf, Ht, ledger_round_trip, supplicant_round_trip, mood_restore.
    reflexivity. }
  split; [exact E|]. intros dt.
  pose proof (tick_loop_registered (Z.to_nat dt) d') as H.
  fold (Deity.tick dt d') in H.
  destruct (snd (Deity.tick dt d')) as [|c cs]; [reflexivity|].
  apply Forall_cons in H. destruct H as [[Hr _] _]. unfold registered in Hr.
  rewrite E in Hr. cbn [Deity.with_listeners Deity._listeners] in Hr.
  destruct (Deity.no_listeners !! event_name c) as [fns|] eqn:E1.
  - rewrite (no_listeners_lookup _ _ E1) in Hr. cbn in Hr.
    apply elem_of_nil in Hr. contradiction.
  - cbn in Hr. apply elem_of_nil in Hr. contradiction.
Qed.

Lemma restore_drops_listeners_witness :
  Deity.deserialize (Deity.serialize fed_twice)
  = Deity.with_listeners Deity.no_listeners
      (Deity.with_mood (renormalized (Deity.mood fed_twice)) fed_twice).
Proof.
  apply (restore_drops_listeners fed_twice).
  apply produced_tick, produced_op, produced_new.
Defined.


(* ------------------------------------------------------------------ *)
(** ** The events of a tick *)

Lemma emit_named (event : string) (data : Payload) (d : Deity.t) (c : Call) :
  c ∈ Deity._emit event data d -> event_name c = event.
Proof.
  intros Hc. pose proof (emit_registered event data d) as H.
  rewrite Forall_forall in H. apply (H c Hc).
Qed.

(** Reading a call of [_checkEvents] back to the branch that made it. *)
Ltac which_branch H :=
  repeat (apply elem_of_app in H; destruct H as [H | H]);
  repeat match type of H with
         | _ ∈ (match ?o with Some _ => _ | None => _ end) => destruct o
         | _ ∈ (if ?b then _ else _) => destruct b eqn:?
         end;
  try (apply elem_of_nil in H; contradiction);
  try (apply emit_named in H).

Lemma checkEvents_wrath (d : Deity.t) (c : Call) :
  c ∈ snd (Deity._checkEvents d) -> event_name c = "wrath" ->
  Deity.over (get (Deity._queryPrecise d) wrath) "wrath" d = true.
Proof.
  intros Hc Hn. unfold Deity._checkEvents in Hc. cbn [snd] in Hc.
  which_branch Hc; try congruence. assumption.
Qed.

Lemma checkEvents_miracle (d : Deity.t) (c : Call) :
  c ∈ snd (Deity._checkEvents d) -> event_name c = "miracle" ->
  Js.ltb (get (Deity._queryPrecise d) wrath) 0.1 = true.
Proof.
  intros Hc Hn. unfold Deity._checkEvents in Hc. cbn [snd] in Hc.
  which_branch Hc; try congruence.
  match goal with
  | E : (_ && _ && _) = true |- _ =>
      apply andb_prop in E; destruct E as [E _];
      apply andb_prop in E; destruct E as [_ E]; exact E
  end.
Qed.


(** The state on which a tick step checks for events. *)
Lemma tick_step_checks (d : Deity.t) :
  exists x,
    Deity.tick_step d = Deity._checkEvents x /\
    Deity._thresholds x = Deity._thresholds d /\
    Deity._prevDominant x = Deity._prevDominant d /\
    Deity.mood x = Deity.mood (fst (Deity.tick_step d)).
Proof.
  unfold Deity.tick_step.
  match goal with |- context [Deity._checkEvents ?y] => exists y end.
  split; [reflexivity|]. rewrite checkEvents_state.
  destruct (ticks_gtb _ _); repeat split.
Qed.

(** No step of [tick] calls a wrath listener and a miracle listener: with a
    wrath threshold of 0.1 or more (the default is 0.4), the wrath that a
    wrath event needs is more than a miracle allows. *)
Theorem wrath_excludes_miracle (d : Deity.t) (th : R) :
  Deity._thresholds d !! "wrath" = Some th ->
  0.1 <= th ->
  Forall (fun c => event_name c <> "wrath") (snd (Deity.tick_step d)) \/
  Forall (fun c => event_name c <> "miracle") (snd (Deity.tick_step d)).
Proof.
  intros Hth Hle.
  destruct (tick_step_checks d) as (x & E & Ht & _). rewrite E.
  destruct (Deity.over (get (Deity._queryPrecise x) wrath) "wrath" x) eqn:Hw.
  - right. apply Forall_forall. intros c Hc Hn.
    pose proof (checkEvents_miracle x c Hc Hn) as Hm.
    unfold Deity.over in Hw. rewrite Ht, Hth in Hw.
    apply gtb_true in Hw. apply ltb_true in Hm. lra.
  - left. apply Forall_forall. intros c Hc Hn.
    pose proof (checkEvents_wrath x c Hc Hn) as Hw'. congruence.
Qed.

Lemma wrath_excludes_miracle_witness :
  Forall (fun c => event_name c <> "wrath")
         (snd (Deity.tick_step (Deity.new default_opts))) \/
  Forall (fun c => event_name c <> "miracle")
         (snd (Deity.tick_step (Deity.new default_opts))).
Proof.
  apply (wrath_excludes_miracle (Deity.new default_opts) 0.4).
  - reflexivity.
  - lra.
Defined.






(* ------------------------------------------------------------------ *)
(** ** Recent entries, for a positive count *)

Lemma recent_positive_witness :
  Ledger.recent 2 short_history
  = rev (last_n 2 (Ledger._entries short_history)).
Proof. apply (recent_positive 2 short_history). lia. Defined.

